(** * deskconn-server: the screen brightness component

  A shallow embedding of [deskconn/components/brightness.py]: the
  backlight controller [_BrightnessControl] (percentage to raw
  conversion and the stepped, cancellable ramp of [set_brightness]) and
  the change watcher of [ScreenBrightnessComponent]
  ([publish_brightness_changed]).

  Python integers are [Z]; Python floats are the kernel's binary64
  numbers ([PrimFloat.float]), so that [/], [*], [math.modf] and [int]
  round exactly as CPython does.  Exceptions are values of [result].
  The device files are integers in the controller's state; the text
  they hold, and the constructors that read it, are in [DeviceFile]. *)

From Stdlib Require Import ZArith List Bool Lia String.
From Stdlib Require Import Floats Reals Lra.
From Stdlib Require Import DecimalPos DecimalZ.
Import ListNotations.

Local Open Scope Z_scope.

(** ** Python values, exceptions *)

Inductive pyexc : Type :=
| AssertionError
| ValueError
| OverflowError
| ZeroDivisionError
| OSError.

Inductive result (A : Type) : Type :=
| Ok (a : A)
| Raise (e : pyexc).

Arguments Ok {A} a.
Arguments Raise {A} e.

(** The values a caller can hand to the controller as a percentage.
  [bool] is a subclass of [int] in Python ([True] is [Int 1]);
  [Str] and [NoneVal] stand for the values that are neither [int] nor
  [float]. *)
Inductive number : Type :=
| Int (z : Z)
| Float (f : float).

Inductive pyval : Type :=
| Num (n : number)
| Str (s : string)
| NoneVal.

Definition is_numeric (v : pyval) : bool :=
match v with
| Num _ => true
| _ => false
end.

Definition bind_result {A B : Type} (r : result A) (k : A -> result B) : result B :=
match r with
| Ok a => k a
| Raise e => Raise e
end.

Notation "'let?' x ':=' r 'in' k" := (bind_result r (fun x => k))
(at level 10, x name, r at level 100, k at level 200).

(** ** Float arithmetic as CPython performs it *)

Module PyNum.

(** A rounded result as a Python float: what rounds to infinity is an
    [OverflowError]. *)
Definition finite_or_overflow (sf : spec_float) : result float :=
  match sf with
  | S754_infinity _ => Raise OverflowError
  | _ => Ok (SF2Prim sf)
  end.

(** [float(z)]: the integer rounded to the nearest double, ties to even;
    [OverflowError] when it is too large. *)
Definition of_int (z : Z) : result float :=
  finite_or_overflow (binary_normalize prec emax z 0 false).

(** [a / b] on two integers ([long_true_divide]): the correctly rounded
    quotient.  The quotient is computed to at least 55 bits and the rest of
    the division is kept as one sticky bit below them. *)
Definition truediv_int (a b : Z) : result float :=
  if b =? 0 then Raise ZeroDivisionError
  else
    let neg := xorb (a <? 0) (b <? 0) in
    if a =? 0 then Ok (if neg then neg_zero else zero)
    else
      let a' := Z.abs a in
      let b' := Z.abs b in
      let k := Z.max 0 (56 + Z.log2 b' - Z.log2 a') in
      let (q, r) := Z.div_eucl (a' * 2 ^ k) b' in
      let m := 2 * q + (if r =? 0 then 0 else 1) in
      finite_or_overflow
        (binary_normalize prec emax (if neg then - m else m) (- k - 1) false).

(** [x / b] and [x * b] with a float on the left and an integer on the
    right: the integer is converted first. *)
Definition truediv_float_int (x : float) (b : Z) : result float :=
  let? y := of_int b in
  if (y =? 0)%float then Raise ZeroDivisionError else Ok (x / y)%float.

Definition mul_float_int (x : float) (b : Z) : result float :=
  let? y := of_int b in
  Ok (x * y)%float.

(** The integer part of a finite double, towards zero. *)
Definition trunc_finite (s : bool) (m : positive) (e : Z) : Z :=
  let a := if 0 <=? e then Zpos m * 2 ^ e else Zpos m / 2 ^ (- e) in
  if s then - a else a.

(** [int(x)]. *)
Definition to_int (x : float) : result Z :=
  match Prim2SF x with
  | S754_nan => Raise ValueError
  | S754_infinity _ => Raise OverflowError
  | S754_zero _ => Ok 0
  | S754_finite s m e => Ok (trunc_finite s m e)
  end.

(** [math.modf(x)]: the fractional and the integer part, both floats with
    the sign of [x]. *)
Definition signed_zero (s : bool) : float := if s then neg_zero else zero.

Definition modf (x : float) : float * float :=
  match Prim2SF x with
  | S754_nan => (nan, nan)
  | S754_infinity s => (signed_zero s, x)
  | S754_zero _ => (x, x)
  | S754_finite s m e =>
      if 0 <=? e then (signed_zero s, x)
      else
        let ip := Zpos m / 2 ^ (- e) in
        let fr := Zpos m mod 2 ^ (- e) in
        let part (n : Z) (ex : Z) :=
          if n =? 0 then signed_zero s
          else SF2Prim (binary_normalize prec emax (if s then - n else n) ex false) in
        (part fr e, part ip 0)
  end.

(** [a <= b] on numbers.  CPython compares an integer with a float exactly,
    without converting the integer. *)
Definition le_int_float (z : Z) (f : float) : bool :=
  match Prim2SF f with
  | S754_nan => false
  | S754_infinity s => negb s
  | S754_zero _ => z <=? 0
  | S754_finite s m e =>
      let v := if s then Zneg m else Zpos m in
      if 0 <=? e then z <=? v * 2 ^ e else z * 2 ^ (- e) <=? v
  end.

Definition le_float_int (f : float) (z : Z) : bool :=
  match Prim2SF f with
  | S754_nan => false
  | S754_infinity s => s
  | S754_zero _ => 0 <=? z
  | S754_finite s m e =>
      let v := if s then Zneg m else Zpos m in
      if 0 <=? e then v * 2 ^ e <=? z else v <=? z * 2 ^ (- e)
  end.

Definition le (a b : number) : bool :=
  match a, b with
  | Int x, Int y => x <=? y
  | Int x, Float g => le_int_float x g
  | Float f, Int y => le_float_int f y
  | Float f, Float g => (f <=? g)%float
  end.

End PyNum.

(** ** The controller: [_BrightnessControl] *)

Definition BRIGHTNESS_STEP : Z := 25.
Definition BRIGHTNESS_MIN : Z := 1.

Module BrightnessControl.

(** *** Pure part: validation and unit conversion *)

Definition validate_and_sanitize_brightness_value (value : pyval) : result number :=
  match value with
  | Num (Int z) =>
      if z <? 1 then Ok (Int 1)
      else if z >? 100 then Ok (Int 100)
      else Ok (Int z)
  | Num (Float f) =>
      if (f <? 1)%float then Ok (Int 1)
      else if (100 <? f)%float then Ok (Int 100)
      else Ok (Float f)
  | _ => Raise AssertionError
  end.

(** The two tests of the validation: [value < 1] and [value > 100]. *)
Definition below_min (n : number) : bool :=
  match n with
  | Int z => z <? 1
  | Float f => (f <? 1)%float
  end.

Definition above_max (n : number) : bool :=
  match n with
  | Int z => z >? 100
  | Float f => (100 <? f)%float
  end.

(** [validated / 100] *)
Definition div_100 (validated : number) : result float :=
  match validated with
  | Int z => PyNum.truediv_int z 100
  | Float f => PyNum.truediv_float_int f 100
  end.

Definition percent_to_internal (max_brightness : Z) (percent : pyval) : result Z :=
  let? validated := validate_and_sanitize_brightness_value percent in
  let? q := div_100 validated in
  let? r := PyNum.mul_float_int q max_brightness in
  PyNum.to_int r.

(** [int((raw / max_brightness) * 100)], the conversion back to a percentage
    used by [get_current_brightness_percentage] and by the watcher. *)
Definition internal_to_percent (max_brightness : Z) (raw : Z) : result Z :=
  let? q := PyNum.truediv_int raw max_brightness in
  let? r := PyNum.mul_float_int q 100 in
  PyNum.to_int r.

(** A validated percentage: a number between 1 and 100. *)
Definition in_range (v : number) : Prop :=
  match v with
  | Int z => 1 <= z <= 100
  | Float f => (1 <=? f)%float = true /\ (f <=? 100)%float = true
  end.

(** *** Stateful part

    The controller object, the device file and what this call has done so
    far.  [written] lists the values successfully written to the device
    file, oldest first. *)

Record ctl : Type := mk_ctl {
  brightness_max : Z;
  change_in_progress : bool;
  device : Z;
  written : list Z;
  flag_reads : nat;
  write_calls : nat;
  sleeps : nat
}.

(** What is outside the call: [flag_store n = Some b] says that another
    thread stored [b] in [change_in_progress] since this call last
    touched it, and before its [n]-th read of the flag (counted from 0);
    [write_error n] says that the [n]-th write to the device file raises
    [OSError]. *)
Record env : Type := mk_env {
  flag_store : nat -> option bool;
  write_error : nat -> bool
}.

(** [__init__]: the bound is read once, no change is in progress. *)
Definition init (max_brightness current : Z) : ctl :=
  mk_ctl max_brightness false current [] 0 0 0.

Definition M (A : Type) : Type := ctl -> result A * ctl.

Definition ret {A : Type} (a : A) : M A := fun st => (Ok a, st).

Definition bind {A B : Type} (c : M A) (k : A -> M B) : M B :=
  fun st =>
    match c st with
    | (Ok a, st') => k a st'
    | (Raise e, st') => (Raise e, st')
    end.

Definition lift {A : Type} (r : result A) : M A := fun st => (r, st).

Notation "x <- c ;; k" := (bind c (fun x => k))
  (at level 61, c at next level, right associativity).
Notation "c ;; k" := (bind c (fun _ => k))
  (at level 61, right associativity).

Definition max_brightness : M Z := fun st => (Ok (brightness_max st), st).

Definition set_change_in_progress (b : bool) : M unit :=
  fun st =>
    (Ok tt,
     mk_ctl (brightness_max st) b (device st) (written st)
            (flag_reads st) (write_calls st) (sleeps st)).

Definition sleep : M unit :=
  fun st =>
    (Ok tt,
     mk_ctl (brightness_max st) (change_in_progress st) (device st) (written st)
            (flag_reads st) (write_calls st) (S (sleeps st))).

Definition brightness_current : M Z := fun st => (Ok (device st), st).

Section WithEnv.

Variable E : env.

(** A read of [self.change_in_progress]: what another thread stored in
    the meantime is seen. *)
Definition get_change_in_progress : M bool :=
  fun st =>
    let b := match flag_store E (flag_reads st) with
             | Some b' => b'
             | None => change_in_progress st
             end in
    (Ok b,
     mk_ctl (brightness_max st) b (device st) (written st)
            (S (flag_reads st)) (write_calls st) (sleeps st)).

Definition write_brightness_value (value : Z) : M unit :=
  fun st =>
    if write_error E (write_calls st) then
      (Raise OSError,
       mk_ctl (brightness_max st) (change_in_progress st) (device st) (written st)
              (flag_reads st) (S (write_calls st)) (sleeps st))
    else
      (Ok tt,
       mk_ctl (brightness_max st) (change_in_progress st) value (written st ++ [value])
              (flag_reads st) (S (write_calls st)) (sleeps st)).

(** [for i in range(n)]: the flag is read at the top of each turn;
    [op] is [+] in the rising branch and [-] in the falling one. *)
Fixpoint ramp_loop (op : Z -> Z -> Z) (n : nat) (brightness : Z) : M Z :=
  match n with
  | O => ret brightness
  | S n' =>
      active <- get_change_in_progress ;;
      if negb active then ret brightness
      else
        let brightness := op brightness BRIGHTNESS_STEP in
        write_brightness_value brightness ;;
        sleep ;;
        ramp_loop op n' brightness
  end.

(** [int(decimal_steps * BRIGHTNESS_STEP)] *)
Definition remainder_of (decimal_steps : float) : result Z :=
  let? r := PyNum.mul_float_int decimal_steps BRIGHTNESS_STEP in
  PyNum.to_int r.

(** One branch of the [if]: [delta] is the distance to cover. *)
Definition ramp_branch (op : Z -> Z -> Z) (delta : Z) (brightness : Z) : M Z :=
  x <- lift (PyNum.truediv_int delta BRIGHTNESS_STEP) ;;
  let decimal_steps := fst (PyNum.modf x) in
  let full_steps := snd (PyNum.modf x) in
  n <- lift (PyNum.to_int full_steps) ;;
  brightness <- ramp_loop op (Z.to_nat n) brightness ;;
  active <- get_change_in_progress ;;
  if active then
    k <- lift (remainder_of decimal_steps) ;;
    let brightness := op brightness k in
    write_brightness_value brightness ;;
    ret brightness
  else ret brightness.

(** [# Ensure brightness is correct at the end] *)
Definition final_correction (brightness brightness_requested : Z) : M unit :=
  if negb (brightness =? brightness_requested)
  then write_brightness_value brightness_requested
  else ret tt.

(** From the [if] to the end: the ramp from [brightness] to
    [brightness_requested], the correction and the release of the flag. *)
Definition ramp_to (brightness_requested brightness : Z) : M unit :=
  brightness <-
    (if brightness_requested >? brightness
     then ramp_branch Z.add (brightness_requested - brightness) brightness
     else ramp_branch Z.sub (brightness - brightness_requested) brightness) ;;
  final_correction brightness brightness_requested ;;
  set_change_in_progress false.

Definition set_brightness (percent : pyval) : M unit :=
  max <- max_brightness ;;
  brightness_requested <- lift (percent_to_internal max percent) ;;
  set_change_in_progress false ;;
  brightness <- brightness_current ;;
  set_change_in_progress true ;;
  ramp_to brightness_requested brightness.

(** [get_current_brightness_percentage(current_brightness_raw=0)] *)
Definition get_current_brightness_percentage (current_brightness_raw : Z) : M Z :=
  max <- max_brightness ;;
  if current_brightness_raw >? 0
  then lift (internal_to_percent max current_brightness_raw)
  else
    current <- brightness_current ;;
    lift (internal_to_percent max current).

End WithEnv.

(** No other thread touches the flag and every write succeeds. *)
Definition quiet : env := mk_env (fun _ => None) (fun _ => false).

(** A newer call clears the flag before read [k] of this call. *)
Definition cancelled_at (k : nat) : env :=
  mk_env (fun n => if Nat.eqb n k then Some false else None) (fun _ => false).

(** Write [k] of this call fails. *)
Definition failing_at (k : nat) : env :=
  mk_env (fun _ => None) (fun n => Nat.eqb n k).

(** The state in which the ramp starts, after [set_brightness] has set the
    flag. *)
Definition started (st : ctl) : ctl :=
  mk_ctl (brightness_max st) true (device st) (written st)
         (flag_reads st) (write_calls st) (sleeps st).


(** The call is not cancelled: no other thread stores into the flag while
    it runs. *)
Definition undisturbed (E : env) : Prop := forall n, flag_store E n = None.

(** No write to the device file fails. *)
Definition reliable (E : env) : Prop := forall n, write_error E n = false.

(** The raw value in the device file is one the device can have. *)
Definition valid_raw (st : ctl) : Prop := 0 <= device st <= brightness_max st.

(** *** Specifications of commands

    [triple P c Q X]: from a state where [P] holds, [c] either returns a
    value and a state that satisfy [Q], or raises an exception in a state
    that satisfies [X]. *)
Definition triple {A : Type} (P : ctl -> Prop) (c : M A)
    (Q : A -> ctl -> Prop) (X : pyexc -> ctl -> Prop) : Prop :=
  forall st, P st ->
    match c st with
    | (Ok a, st') => Q a st'
    | (Raise e, st') => X e st'
    end.

(** The writes of the call so far, from its [w0]-th write on, succeeded. *)
Definition writes_ok (E : env) (w0 : nat) (st : ctl) : Prop :=
  (w0 <= write_calls st)%nat /\
  forall j, (w0 <= j < write_calls st)%nat -> write_error E j = false.

(** The last write of the call failed, and it was the first to fail. *)
Definition write_failed (E : env) (w0 : nat) (st : ctl) : Prop :=
  exists n, write_calls st = S n /\ (w0 <= n)%nat /\ write_error E n = true /\
            forall j, (w0 <= j < n)%nat -> write_error E j = false.

(** What holds while the call runs and when it returns: its writes
    succeeded, and the flag it set is still set unless another thread stored
    into it. *)
Definition running (E : env) (w0 : nat) (st : ctl) : Prop :=
  writes_ok E w0 st /\ (undisturbed E -> change_in_progress st = true).

(** What holds when the call raises [e]: [OSError] comes from its last
    write, the first to fail, and leaves the flag as it was; any other
    exception comes from the arithmetic, not from a write. *)
Definition raised (E : env) (w0 : nat) (e : pyexc) (st : ctl) : Prop :=
  match e with
  | OSError =>
      write_failed E w0 st /\ (undisturbed E -> change_in_progress st = true)
  | _ => writes_ok E w0 st
  end.

(** The call has marked itself active and has kept what was written before
    it, [w0]. *)
Definition active_after (w0 : list Z) (st : ctl) : Prop :=
  change_in_progress st = true /\ exists ws, written st = w0 ++ ws.

(** [b] is the last value the call wrote, and what the device file holds. *)
Definition last_written (w0 : list Z) (b : Z) (st : ctl) : Prop :=
  device st = b /\ exists ws, written st = w0 ++ ws ++ [b].

(** [b] is what the device file holds and, if the call has written at all,
    the last value it wrote; the bound is still [max0]. *)
Definition settled (w0 : list Z) (max0 b : Z) (st : ctl) : Prop :=
  device st = b /\ brightness_max st = max0 /\
  exists ws, written st = w0 ++ ws /\ (ws = [] \/ exists ws', ws = ws' ++ [b]).

(** Every value written since [w0] lies between [lo] and [hi]. *)
Definition within (w0 : list Z) (lo hi : Z) (st : ctl) : Prop :=
  exists ws, written st = w0 ++ ws /\ Forall (fun v => lo <= v <= hi) ws.

End BrightnessControl.

(** ** The session component: [ScreenBrightnessComponent] *)

Module ScreenBrightnessComponent.

Import BrightnessControl.

(** What [self.publish("org.deskconn.brightness.on_changed", ...)] sends. *)
Record notification : Type := mk_notification {
  percentage : Z;
  publisher_id : option string
}.

(** The component's fields; [published] lists the notifications sent so
    far, oldest first. *)
Record session : Type := mk_session {
  controller : ctl;
  _publisher_id : option string;
  _requested_value_internal : Z;
  _reset_publisher : bool;
  _last_value : Z;
  published : list notification
}.

(** [__init__] *)
Definition init (c : ctl) : session :=
  mk_session c None (-1) false (-1) [].

Definition with_controller (c : ctl) (s : session) : session :=
  mk_session c (_publisher_id s) (_requested_value_internal s)
             (_reset_publisher s) (_last_value s) (published s).

Definition with_publisher_id (a : option string) (s : session) : session :=
  mk_session (controller s) a (_requested_value_internal s)
             (_reset_publisher s) (_last_value s) (published s).

Definition with_requested_value_internal (v : Z) (s : session) : session :=
  mk_session (controller s) (_publisher_id s) v
             (_reset_publisher s) (_last_value s) (published s).

Definition with_last_value (v : Z) (s : session) : session :=
  mk_session (controller s) (_publisher_id s) (_requested_value_internal s)
             (_reset_publisher s) v (published s).

Definition publish (n : notification) (s : session) : session :=
  mk_session (controller s) (_publisher_id s) (_requested_value_internal s)
             (_reset_publisher s) (_last_value s) (published s ++ [n]).

(** [set_brightness(percentage, publisher_id)], that is
    [actually_set_brightness] on the worker thread. *)
Definition set_brightness (E : env) (percentage : pyval) (pub_id : option string)
    (s : session) : result unit * session :=
  let s := with_publisher_id pub_id s in
  match percent_to_internal (brightness_max (controller s)) percentage with
  | Raise e => (Raise e, s)
  | Ok v =>
      let s := with_requested_value_internal v s in
      let (r, c) := BrightnessControl.set_brightness E percentage (controller s) in
      (r, with_controller c s)
  end.

(** [publish_brightness_changed(_ignored, file_path, _mask)];
    [current_value] is what the handler reads from the device file. *)
Definition publish_brightness_changed (current_value : Z) (s : session)
    : result unit * session :=
  if current_value =? _last_value s then (Ok tt, s)
  else
    match internal_to_percent (brightness_max (controller s)) current_value with
    | Raise e => (Raise e, s)
    | Ok pct =>
        let s := publish (mk_notification pct (_publisher_id s)) s in
        let s := if current_value =? _requested_value_internal s
                 then with_publisher_id None s
                 else s in
        (Ok tt, with_last_value current_value s)
    end.

(** The handler run on a sequence of observations; an exception ends the
    run. *)
Fixpoint observe (values : list Z) (s : session) : result unit * session :=
  match values with
  | [] => (Ok tt, s)
  | v :: rest =>
      match publish_brightness_changed v s with
      | (Ok _, s') => observe rest s'
      | (Raise e, s') => (Raise e, s')
      end
  end.

(** How many of the observations differ from the one before them, [last]
    being the one before the first. *)
Fixpoint changes (last : Z) (values : list Z) : nat :=
  match values with
  | [] => 0
  | v :: rest => ((if (v =? last)%Z then 0 else 1) + changes v rest)%nat
  end.

(** The observations that differ from the one before them, in order. *)
Fixpoint distinct_from (last : Z) (values : list Z) : list Z :=
  match values with
  | [] => []
  | v :: rest =>
      if (v =? last)%Z then distinct_from v rest else v :: distinct_from v rest
  end.

(** A session whose device sits at raw 500 of 1000 and whose watcher has
    published that value, after [set_brightness(50, "A")]: the request's
    target is the value the device already has. *)
Definition requested_current_value : session :=
  snd (set_brightness quiet (Num (Int 50)) (Some "A"%string)
         (snd (observe [500] (init (BrightnessControl.init 1000 500))))).

End ScreenBrightnessComponent.

(** ** The device files as text

    [int(file.read().strip())] and [config_file.write(str(value))].  A
    character matters to [str.strip] and to [int] only through its class:
    a decimal digit with its value, a sign, an underscore, white space, or
    anything else.  The limit that recent versions of Python put on the
    number of digits of [int] and [str] (4300 by default) is not modelled;
    statements are made for integers below it. *)

Module DeviceFile.

Import BrightnessControl.

Inductive digit : Type := d0 | d1 | d2 | d3 | d4 | d5 | d6 | d7 | d8 | d9.

Inductive char : Type :=
| Digit (d : digit)
| Plus
| Minus
| Underscore
| Whitespace
| Other.

Definition text : Type := list char.

Definition is_space (c : char) : bool :=
  match c with
  | Whitespace => true
  | _ => false
  end.

(** A text of white space only, and one that has none. *)
Definition spaces (t : text) : Prop := Forall (fun c => is_space c = true) t.

Definition no_space (t : text) : Prop := Forall (fun c => is_space c = false) t.

(** [str.strip()]: the white space at both ends is removed. *)
Fixpoint lstrip (t : text) : text :=
  match t with
  | [] => []
  | c :: r => if is_space c then lstrip r else t
  end.

Definition strip (t : text) : text := rev (lstrip (rev (lstrip t))).

Definition push (d : digit) (u : Decimal.uint) : Decimal.uint :=
  match d with
  | d0 => Decimal.D0 u
  | d1 => Decimal.D1 u
  | d2 => Decimal.D2 u
  | d3 => Decimal.D3 u
  | d4 => Decimal.D4 u
  | d5 => Decimal.D5 u
  | d6 => Decimal.D6 u
  | d7 => Decimal.D7 u
  | d8 => Decimal.D8 u
  | d9 => Decimal.D9 u
  end.

(** The digits of an integer literal: at least one digit, and single
    underscores between digits only.  [after_digit] says that the
    character before was a digit. *)
Fixpoint digits (after_digit : bool) (t : text) : option Decimal.uint :=
  match t with
  | [] => if after_digit then Some Decimal.Nil else None
  | Digit d :: r => option_map (push d) (digits true r)
  | Underscore :: r => if after_digit then digits false r else None
  | _ => None
  end.

(** [int(s)] on a string: white space around is ignored, a sign may come
    first, the rest is digits in base 10; anything else is a
    [ValueError]. *)
Definition int_of_text (t : text) : result Z :=
  let value (sign : Z) (r : text) : result Z :=
    match digits false r with
    | Some u => Ok (sign * Z.of_uint u)
    | None => Raise ValueError
    end in
  match strip t with
  | Plus :: r => value 1 r
  | Minus :: r => value (-1) r
  | r => value 1 r
  end.

Fixpoint text_of_uint (u : Decimal.uint) : text :=
  match u with
  | Decimal.Nil => []
  | Decimal.D0 r => Digit d0 :: text_of_uint r
  | Decimal.D1 r => Digit d1 :: text_of_uint r
  | Decimal.D2 r => Digit d2 :: text_of_uint r
  | Decimal.D3 r => Digit d3 :: text_of_uint r
  | Decimal.D4 r => Digit d4 :: text_of_uint r
  | Decimal.D5 r => Digit d5 :: text_of_uint r
  | Decimal.D6 r => Digit d6 :: text_of_uint r
  | Decimal.D7 r => Digit d7 :: text_of_uint r
  | Decimal.D8 r => Digit d8 :: text_of_uint r
  | Decimal.D9 r => Digit d9 :: text_of_uint r
  end.

(** [str(value)] of an integer: its decimal digits, after a minus sign
    when it is negative. *)
Definition str (value : Z) : text :=
  match Z.to_int value with
  | Decimal.Pos u => text_of_uint u
  | Decimal.Neg u => Minus :: text_of_uint u
  end.

(** [int(file.read().strip())], as in [brightness_current] and in
    [__init__], on the content of the file. *)
Definition read_int (content : text) : result Z := int_of_text (strip content).

(** What [write_brightness_value(value)] leaves in a file opened with
    ['w']. *)
Definition written_text (value : Z) : text := str value.

(** [open(path)] and the read: a file that does not exist is an
    [OSError]. *)
Definition read_file (file : option text) : result Z :=
  match file with
  | None => Raise OSError
  | Some content => read_int content
  end.

(** [has_backlight()]: [os.path.exists(BRIGHTNESS_MAX_REFERENCE_FILE)]. *)
Definition has_backlight (max_file : option text) : bool :=
  match max_file with
  | Some _ => true
  | None => false
  end.

(** [_BrightnessControl.__init__]: the bound is read from its file;
    [current] is the raw value in the brightness file. *)
Definition create (max_file : option text) (current : Z) : result ctl :=
  let? max := read_file max_file in
  Ok (BrightnessControl.init max current).

(** [ScreenBrightnessComponent.__init__]: without a backlight it returns
    before it sets any field. *)
Definition create_component (max_file : option text) (current : Z)
    : result (option ScreenBrightnessComponent.session) :=
  if negb (has_backlight max_file) then Ok None
  else
    let? c := create max_file current in
    Ok (Some (ScreenBrightnessComponent.init c)).

End DeviceFile.

(** ** The binary64 format on the reals

    What the proofs need to say about the floats: the real number a float
    stands for, and rounding to nearest as a relation between a real and
    its rounding. *)

Module Binary64.

Local Open Scope R_scope.

Definition bpow (e : Z) : R := powerRZ 2 e.

(** *** Shifting a mantissa right

    [located x mrs e]: the real [x] lies in the unit interval that starts
    at the mantissa of [mrs], in units of [2^e], at the place the round and
    sticky bits of [mrs] say. *)

Definition located (x : R) (mrs : shr_record) (e : Z) : Prop :=
  let m := IZR (shr_m mrs) in
  match shr_r mrs, shr_s mrs with
  | false, false => x = m * bpow e
  | false, true => m * bpow e < x < (m + / 2) * bpow e
  | true, false => x = (m + / 2) * bpow e
  | true, true => (m + / 2) * bpow e < x < (m + 1) * bpow e
  end.

(** *** Rounding to nearest, ties to even, as a relation

    [cexp_ok x E]: [E] is the exponent at which the binary64 format
    represents numbers of the size of [x >= 0] (precision 53, least
    exponent -1074).  [nearest_even x E k]: [k * 2^E] is the multiple of
    [2^E] nearest to [x], the even one when two are as near. *)

Definition cexp_ok (x : R) (E : Z) : Prop :=
  (E = (-1074)%Z /\ x < bpow (-1021)) \/
  ((-1074 < E)%Z /\ bpow (E + 52) <= x < bpow (E + 53)).

Definition nearest_even (x : R) (E k : Z) : Prop :=
  Rabs (x - IZR k * bpow E) <= bpow E / 2 /\
  (Rabs (x - IZR k * bpow E) = bpow E / 2 -> Z.even k = true).

Definition rounded (x : R) (k E : Z) : Prop :=
  cexp_ok x E /\ nearest_even x E k.

(** *** The rounding step of [SpecFloat] *)

Definition fexp64 (e : Z) : Z := Z.max (e - 53) (-1074).

(** [encodes k E f]: the positive float [f] stands for [k * 2^E];
    infinity stands for what is too large for the format. *)
Inductive encodes (k E : Z) : spec_float -> Prop :=
| enc_zero : k = 0%Z -> encodes k E (S754_zero false)
| enc_finite (m : positive) (e : Z) :
    SpecFloat.bounded prec emax m e = true ->
    IZR (Zpos m) * bpow e = IZR k * bpow E ->
    encodes k E (S754_finite false m e)
| enc_infinity :
    bpow 1024 <= IZR k * bpow E ->
    encodes k E (S754_infinity false).

(** *** Valid floats *)

(** The real number a positive finite float stands for. *)
Definition F2R (m : positive) (e : Z) : R := IZR (Zpos m) * bpow e.

(** *** Primitive floats that stand for a real number

    [repr f v]: the float [f] is zero or finite and positive, and stands
    for the real [v]. *)

Definition repr (f : float) (v : R) : Prop :=
  match Prim2SF f with
  | S754_zero _ => v = 0
  | S754_finite false m e => v = F2R m e
  | _ => False
  end.

(** *** Percentages *)

(** The real number it stands for. *)
Definition number_value (v : number) (x : R) : Prop :=
  match v with
  | Int z => x = IZR z
  | Float f => repr f x
  end.

(** On the integers from 1 to 100, [z / 100] is the float division of
    [float(z)] by [100.0]: checked on each of them. *)
Definition div_100_check (z : Z) : bool :=
  match PyNum.of_int z with
  | Ok fz =>
      match PyNum.truediv_int z 100, PyNum.truediv_float_int fz 100 with
      | Ok q, Ok q' => PrimFloat.Leibniz.eqb q q'
      | _, _ => false
      end
  | Raise _ => false
  end.

(** A number that is not the float NaN: an integer, a finite float or an
    infinity. *)
Definition not_nan (n : number) : Prop :=
  match n with
  | Int _ => True
  | Float f => Prim2SF f <> S754_nan
  end.

End Binary64.

(** * Properties *)

(** ** Rounding in binary64 *)

Module Binary64Facts.

Import Binary64.

Local Open Scope R_scope.

Lemma bpow_gt_0 (e : Z) : 0 < bpow e.
Proof. apply powerRZ_lt. lra. Qed.

Lemma bpow_plus (a b : Z) : bpow (a + b) = bpow a * bpow b.
Proof. apply powerRZ_add. lra. Qed.

Lemma bpow_succ (e : Z) : bpow (e + 1) = 2 * bpow e.
Proof. rewrite bpow_plus. unfold bpow at 2. simpl. lra. Qed.

Lemma bpow_IZR (e : Z) : (0 <= e)%Z -> bpow e = IZR (2 ^ e).
Proof.
  intros He. unfold bpow.
  rewrite <- (Z2Nat.id e) by assumption.
  rewrite <- pow_powerRZ, pow_IZR. reflexivity.
Qed.

Lemma bpow_ge_1 (e : Z) : (0 <= e)%Z -> 1 <= bpow e.
Proof.
  intros He. rewrite bpow_IZR by assumption.
  apply IZR_le. assert (0 < 2 ^ e)%Z by (apply Z.pow_pos_nonneg; lia). lia.
Qed.

Lemma bpow_le (a b : Z) : (a <= b)%Z -> bpow a <= bpow b.
Proof.
  intros H. replace b with (a + (b - a))%Z by lia.
  rewrite bpow_plus.
  pose proof (bpow_gt_0 a). pose proof (bpow_ge_1 (b - a) ltac:(lia)).
  nra.
Qed.

Lemma bpow_lt (a b : Z) : (a < b)%Z -> bpow a < bpow b.
Proof.
  intros H. apply Rlt_le_trans with (bpow (a + 1)).
  - rewrite bpow_succ. pose proof (bpow_gt_0 a). lra.
  - apply bpow_le. lia.
Qed.

Lemma bpow_lt_inv (a b : Z) : bpow a < bpow b -> (a < b)%Z.
Proof.
  intros H. destruct (Z_lt_le_dec a b) as [Hlt|Hge]; [assumption|].
  apply bpow_le in Hge. lra.
Qed.

Lemma bpow_0 : bpow 0 = 1.
Proof. reflexivity. Qed.

Lemma bpow_half (e : Z) : bpow e / 2 = bpow (e - 1).
Proof.
  replace e with ((e - 1) + 1)%Z at 1 by lia. rewrite bpow_succ. lra.
Qed.

(** *** Number of binary digits *)

Lemma digits2_pos_bounds (p : positive) :
  (2 ^ (Zpos (digits2_pos p) - 1) <= Zpos p < 2 ^ Zpos (digits2_pos p))%Z.
Proof.
  induction p as [p IH|p IH|]; simpl digits2_pos.
  - rewrite Pos2Z.inj_succ.
    replace (Z.succ (Zpos (digits2_pos p)) - 1)%Z with (Z.succ (Zpos (digits2_pos p) - 1)) by lia.
    rewrite !Z.pow_succ_r by lia. lia.
  - rewrite Pos2Z.inj_succ.
    replace (Z.succ (Zpos (digits2_pos p)) - 1)%Z with (Z.succ (Zpos (digits2_pos p) - 1)) by lia.
    rewrite !Z.pow_succ_r by lia. lia.
  - simpl. lia.
Qed.

Lemma Zdigits2_bounds (m : Z) :
  (0 < m)%Z -> (2 ^ (Zdigits2 m - 1) <= m < 2 ^ Zdigits2 m)%Z.
Proof.
  destruct m as [|p|p]; try lia. intros _. apply digits2_pos_bounds.
Qed.

Lemma Zdigits2_pos (m : Z) : (0 < m)%Z -> (0 < Zdigits2 m)%Z.
Proof. destruct m; simpl; lia. Qed.

(** The number of digits is determined by the two powers of two around. *)
Lemma Zdigits2_unique (m d : Z) :
  (2 ^ (d - 1) <= m < 2 ^ d)%Z -> (0 < m)%Z -> Zdigits2 m = d.
Proof.
  intros [Hlo Hhi] Hm.
  destruct (Zdigits2_bounds m Hm) as [Hlo' Hhi'].
  pose proof (Zdigits2_pos m Hm) as Hd.
  assert (0 < d)%Z.
  { destruct (Z_lt_le_dec 0 d); [assumption|].
    exfalso. destruct (Z.eq_dec d 0) as [->|Hne]; [simpl in Hhi; lia|].
    rewrite Z.pow_neg_r in Hhi by lia. lia. }
  destruct (Z.lt_trichotomy (Zdigits2 m) d) as [Hlt|[Heq|Hgt]]; [|assumption|].
  - assert (2 ^ Zdigits2 m <= 2 ^ (d - 1))%Z by (apply Z.pow_le_mono_r; lia). lia.
  - assert (2 ^ d <= 2 ^ (Zdigits2 m - 1))%Z by (apply Z.pow_le_mono_r; lia). lia.
Qed.

(** The same bounds, on the reals. *)
Lemma digits_bpow (m e : Z) :
  (0 < m)%Z ->
  bpow (Zdigits2 m + e - 1) <= IZR m * bpow e /\
  IZR m + 1 <= bpow (Zdigits2 m) /\
  IZR m * bpow e < bpow (Zdigits2 m + e).
Proof.
  intros Hm.
  destruct (Zdigits2_bounds m Hm) as [Hlo Hhi].
  pose proof (Zdigits2_pos m Hm) as Hd.
  pose proof (bpow_gt_0 e) as He.
  assert (H1 : bpow (Zdigits2 m - 1) <= IZR m).
  { rewrite bpow_IZR by lia. apply IZR_le. assumption. }
  assert (H2 : IZR m + 1 <= bpow (Zdigits2 m)).
  { rewrite bpow_IZR by lia. rewrite <- plus_IZR. apply IZR_le. lia. }
  replace (Zdigits2 m + e - 1)%Z with ((Zdigits2 m - 1) + e)%Z by lia.
  rewrite !bpow_plus.
  repeat split; try assumption; nra.
Qed.

Lemma located_bounds (x : R) (mrs : shr_record) (e : Z) :
  located x mrs e ->
  IZR (shr_m mrs) * bpow e <= x < (IZR (shr_m mrs) + 1) * bpow e.
Proof.
  unfold located. pose proof (bpow_gt_0 e).
  destruct (shr_r mrs), (shr_s mrs); cbv zeta; intros; lra.
Qed.

Lemma shr_1_located (x : R) (mrs : shr_record) (e : Z) :
  (0 <= shr_m mrs)%Z -> located x mrs e ->
  located x (shr_1 mrs) (e + 1) /\ (0 <= shr_m (shr_1 mrs))%Z.
Proof.
  destruct mrs as [m r s]. unfold located. cbn [shr_m shr_r shr_s].
  intros Hm. pose proof (bpow_gt_0 e) as Hb. rewrite bpow_succ.
  generalize dependent (bpow e). intros b Hb.
  destruct m as [|[p|p|]|p]; [| | | |exfalso; lia].
  all: destruct r, s; cbn [shr_1 shr_m shr_r shr_s orb].
  all: try rewrite (IZR_POS_xO p); try rewrite (IZR_POS_xI p).
  all: intros Hx; split; [|lia].
  all: lra.
Qed.

Lemma iter_shr_1_located (x : R) (p : positive) :
  forall (mrs : shr_record) (e : Z),
    (0 <= shr_m mrs)%Z -> located x mrs e ->
    located x (SpecFloat.iter_pos shr_1 p mrs) (e + Zpos p) /\
    (0 <= shr_m (SpecFloat.iter_pos shr_1 p mrs))%Z.
Proof.
  induction p as [p IH|p IH|]; intros mrs e Hm Hx; cbn [SpecFloat.iter_pos].
  - destruct (shr_1_located x mrs e Hm Hx) as [H1 H1'].
    destruct (IH _ _ H1' H1) as [H2 H2'].
    destruct (IH _ _ H2' H2) as [H3 H3'].
    split; [|assumption].
    replace (e + Zpos p~1)%Z with (e + 1 + Zpos p + Zpos p)%Z by lia. assumption.
  - destruct (IH _ _ Hm Hx) as [H2 H2'].
    destruct (IH _ _ H2' H2) as [H3 H3'].
    split; [|assumption].
    replace (e + Zpos p~0)%Z with (e + Zpos p + Zpos p)%Z by lia. assumption.
  - apply shr_1_located; assumption.
Qed.

Lemma shr_located (x : R) (mrs : shr_record) (e n : Z) :
  (0 <= shr_m mrs)%Z -> located x mrs e ->
  located x (fst (shr mrs e n)) (snd (shr mrs e n)) /\
  (0 <= shr_m (fst (shr mrs e n)))%Z /\
  snd (shr mrs e n) = Z.max e (e + n).
Proof.
  intros Hm Hx. destruct n as [|p|p]; cbn [shr fst snd].
  - repeat split; try assumption. lia.
  - destruct (iter_shr_1_located x p mrs e Hm Hx) as [H1 H2].
    repeat split; try assumption. lia.
  - repeat split; try assumption. lia.
Qed.

Lemma Rabs_le_inv (a b : R) : Rabs a <= b -> - b <= a <= b.
Proof.
  intros H. pose proof (Rle_abs a) as H1. pose proof (Rle_abs (- a)) as H2.
  rewrite Rabs_Ropp in H2. lra.
Qed.

Lemma bpow_53 (E : Z) : bpow (E + 53) = 9007199254740992 * bpow E.
Proof.
  rewrite bpow_plus, (bpow_IZR 53) by lia.
  change (2 ^ 53)%Z with 9007199254740992%Z. ring.
Qed.

Lemma bpow_52 (E : Z) : bpow (E + 52) = 4503599627370496 * bpow E.
Proof.
  rewrite bpow_plus, (bpow_IZR 52) by lia.
  change (2 ^ 52)%Z with 4503599627370496%Z. ring.
Qed.

Lemma IZR_mul_lt_inv (k n : Z) (b : R) :
  0 < b -> IZR k * b < (IZR n + 1) * b -> (k <= n)%Z.
Proof.
  intros Hb H. apply Rmult_lt_reg_r in H; [|assumption].
  rewrite <- plus_IZR in H. apply lt_IZR in H. lia.
Qed.

Lemma cexp_ok_lower (x : R) (E : Z) : cexp_ok x E -> (-1074 <= E)%Z.
Proof. intros [[-> _]|[H _]]; lia. Qed.

Lemma cexp_ok_upper (x : R) (E : Z) : cexp_ok x E -> x < bpow (E + 53).
Proof. intros [[-> H]|[_ [_ H]]]; assumption. Qed.

(** The exponent grows with the number. *)
Lemma cexp_ok_mono (x y : R) (E1 E2 : Z) :
  x <= y -> cexp_ok x E1 -> cexp_ok y E2 -> (E1 <= E2)%Z.
Proof.
  intros Hxy H1 H2.
  destruct (Z_le_gt_dec E1 E2) as [Hle|Hgt]; [assumption|exfalso].
  pose proof (cexp_ok_lower _ _ H2) as Hlo.
  pose proof (cexp_ok_upper _ _ H2) as Hup.
  destruct H1 as [[-> _]|[_ [Hx _]]]; [lia|].
  pose proof (bpow_le (E2 + 53) (E1 + 52) ltac:(lia)). lra.
Qed.

(** A rounded number has at most 53 digits, and exactly 53 above the
    least exponent. *)
Lemma rounded_k_upper (x : R) (k E : Z) :
  rounded x k E -> (k <= 9007199254740992)%Z.
Proof.
  intros [Hc [Hn _]]. pose proof (cexp_ok_upper _ _ Hc) as Hup.
  rewrite bpow_53 in Hup. pose proof (bpow_gt_0 E) as Hb.
  apply (IZR_mul_lt_inv k 9007199254740992 (bpow E) Hb).
  apply Rabs_le_inv in Hn. lra.
Qed.

Lemma rounded_k_lower (x : R) (k E : Z) :
  rounded x k E -> (-1074 < E)%Z -> (4503599627370496 <= k)%Z.
Proof.
  intros [Hc [Hn _]] HE. destruct Hc as [[-> _]|[_ [Hlo _]]]; [lia|].
  rewrite bpow_52 in Hlo. pose proof (bpow_gt_0 E) as Hb.
  assert (H : (4503599627370495 <= k - 1)%Z); [|lia].
  apply (IZR_mul_lt_inv _ _ (bpow E) Hb).
  rewrite minus_IZR. apply Rabs_le_inv in Hn. lra.
Qed.

Lemma rounded_k_nonneg (x : R) (k E : Z) :
  0 <= x -> rounded x k E -> (0 <= k)%Z.
Proof.
  intros Hx [_ [Hn _]]. pose proof (bpow_gt_0 E) as Hb.
  assert (H : (-1 <= k - 1)%Z); [|lia].
  apply (IZR_mul_lt_inv _ _ (bpow E) Hb).
  rewrite minus_IZR. apply Rabs_le_inv in Hn. lra.
Qed.

(** Rounding is monotone. *)
Lemma rounded_le (x y : R) (k1 E1 k2 E2 : Z) :
  x <= y -> rounded x k1 E1 -> rounded y k2 E2 ->
  IZR k1 * bpow E1 <= IZR k2 * bpow E2.
Proof.
  intros Hxy H1 H2.
  pose proof (cexp_ok_mono x y E1 E2 Hxy (proj1 H1) (proj1 H2)) as HE.
  destruct (Z.eq_dec E1 E2) as [->|Hne].
  - pose proof (bpow_gt_0 E2) as Hb.
    destruct (Z_le_gt_dec k1 k2) as [Hk|Hk].
    + apply Rmult_le_compat_r; [lra|]. apply IZR_le. assumption.
    + exfalso.
      destruct H1 as [_ [Hn1 Ht1]], H2 as [_ [Hn2 Ht2]].
      assert (Hk' : IZR k2 + 1 <= IZR k1).
      { rewrite <- plus_IZR. apply IZR_le. lia. }
      assert (Hkb : (IZR k2 + 1) * bpow E2 <= IZR k1 * bpow E2).
      { apply Rmult_le_compat_r; lra. }
      pose proof (Rabs_le_inv _ _ Hn1) as Hi1.
      pose proof (Rabs_le_inv _ _ Hn2) as Hi2.
      assert (Hx : x - IZR k1 * bpow E2 = - (bpow E2 / 2)) by lra.
      assert (Hy : y - IZR k2 * bpow E2 = bpow E2 / 2) by lra.
      assert (Hk1 : Z.even k1 = true).
      { apply Ht1. rewrite Hx, Rabs_Ropp. apply Rabs_pos_eq. lra. }
      assert (Hk2 : Z.even k2 = true).
      { apply Ht2. rewrite Hy. apply Rabs_pos_eq. lra. }
      assert (Heq : k1 = (k2 + 1)%Z).
      { apply eq_IZR. rewrite plus_IZR.
        apply (Rmult_eq_reg_r (bpow E2)); lra. }
      subst k1. rewrite Z.even_add, Hk2 in Hk1. discriminate.
  - pose proof (rounded_k_upper _ _ _ H1) as Hu.
    pose proof (rounded_k_lower _ _ _ H2 ltac:(pose proof (cexp_ok_lower _ _ (proj1 H1)); lia)) as Hl.
    pose proof (bpow_gt_0 E1) as Hb1. pose proof (bpow_gt_0 E2) as Hb2.
    apply Rle_trans with (bpow (E1 + 53)).
    + rewrite bpow_53. apply Rmult_le_compat_r; [lra|]. apply IZR_le. assumption.
    + apply Rle_trans with (bpow (E2 + 52)).
      * apply bpow_le. lia.
      * rewrite bpow_52. apply Rmult_le_compat_r; [lra|]. apply IZR_le. assumption.
Qed.

Lemma fexp_fexp64 (e : Z) : SpecFloat.fexp prec emax e = fexp64 e.
Proof. reflexivity. Qed.

Lemma Zdigits2_le (k n : Z) :
  (0 < k < 2 ^ n)%Z -> (0 <= n)%Z -> (Zdigits2 k <= n)%Z.
Proof.
  intros [Hk Hlt] Hn.
  destruct (Zdigits2_bounds k Hk) as [Hlo _].
  pose proof (Zdigits2_pos k Hk) as Hd.
  destruct (Z_le_gt_dec (Zdigits2 k) n) as [|Hgt]; [assumption|exfalso].
  assert (2 ^ n <= 2 ^ (Zdigits2 k - 1))%Z by (apply Z.pow_le_mono_r; lia). lia.
Qed.

Lemma Zdigits2_ge (k n : Z) :
  (2 ^ n <= k)%Z -> (0 <= n)%Z -> (n < Zdigits2 k)%Z.
Proof.
  intros Hle Hn.
  assert (Hk : (0 < k)%Z).
  { assert (0 < 2 ^ n)%Z by (apply Z.pow_pos_nonneg; lia). lia. }
  destruct (Zdigits2_bounds k Hk) as [_ Hhi].
  pose proof (Zdigits2_pos k Hk) as Hd.
  destruct (Z_lt_le_dec n (Zdigits2 k)) as [|Hge]; [assumption|exfalso].
  assert (2 ^ Zdigits2 k <= 2 ^ n)%Z by (apply Z.pow_le_mono_r; lia). lia.
Qed.

Lemma round_nearest_even_spec (x : R) (mrs : shr_record) (E : Z) :
  located x mrs E ->
  nearest_even x E (round_nearest_even (shr_m mrs) (loc_of_shr_record mrs)).
Proof.
  destruct mrs as [m r s]. unfold located, nearest_even.
  cbn [shr_m shr_r shr_s loc_of_shr_record].
  pose proof (bpow_gt_0 E) as Hb. generalize dependent (bpow E). intros b Hb.
  destruct r, s; cbn [round_nearest_even]; intros Hx.
  - rewrite plus_IZR. split.
    + apply Rabs_le. lra.
    + intros Ht. exfalso. rewrite Rabs_left in Ht by lra. lra.
  - destruct (Z.even m) eqn:Hev.
    + split; [apply Rabs_le; lra | intros _; assumption].
    + rewrite plus_IZR. split; [apply Rabs_le; lra|].
      intros _. rewrite Z.even_add, Hev. reflexivity.
  - split.
    + apply Rabs_le. lra.
    + intros Ht. exfalso. rewrite Rabs_pos_eq in Ht by lra. lra.
  - subst x. replace (IZR m * b - IZR m * b) with 0 by ring.
    rewrite Rabs_R0. split; [lra | intros Ht; exfalso; lra].
Qed.

Lemma binary_round_aux_eq (sx : bool) (mx ex : Z) (lx : location) :
  binary_round_aux prec emax sx mx ex lx =
  let p1 := shr_fexp prec emax mx ex lx in
  let k := round_nearest_even (shr_m (fst p1)) (loc_of_shr_record (fst p1)) in
  let p2 := shr_fexp prec emax k (snd p1) loc_Exact in
  match shr_m (fst p2) with
  | Z0 => S754_zero sx
  | Zpos m => if (snd p2 <=? 971)%Z then S754_finite sx m (snd p2) else S754_infinity sx
  | Zneg _ => S754_nan
  end.
Proof.
  unfold binary_round_aux.
  destruct (shr_fexp prec emax mx ex lx) as [mrs1 e1]. cbn [fst snd].
  destruct (shr_fexp prec emax _ e1 loc_Exact) as [mrs2 e2]. reflexivity.
Qed.

Lemma shr_fexp_eq (m e : Z) (l : location) :
  shr_fexp prec emax m e l =
  shr (shr_record_of_loc m l) e (fexp64 (Zdigits2 m + e) - e).
Proof. reflexivity. Qed.

Lemma shr_m_of_loc (m : Z) (l : location) : shr_m (shr_record_of_loc m l) = m.
Proof. destruct l as [|[]]; reflexivity. Qed.

Lemma shr_nonpos (mrs : shr_record) (e n : Z) : (n <= 0)%Z -> shr mrs e n = (mrs, e).
Proof. destruct n; try reflexivity. lia. Qed.

Lemma located_nonneg (x : R) (m e : Z) (l : location) :
  (0 <= m)%Z -> located x (shr_record_of_loc m l) e -> 0 <= x.
Proof.
  intros Hm Hx. apply located_bounds in Hx. rewrite shr_m_of_loc in Hx.
  pose proof (bpow_gt_0 e). apply IZR_le in Hm.
  assert (0 <= IZR m * bpow e) by (apply Rmult_le_pos; lra). lra.
Qed.

Lemma located_cexp (x : R) (m e : Z) (l : location) :
  (0 <= m)%Z -> located x (shr_record_of_loc m l) e ->
  (e <= fexp64 (Zdigits2 m + e))%Z ->
  cexp_ok x (fexp64 (Zdigits2 m + e)).
Proof.
  intros Hm Hx Hal. apply located_bounds in Hx. rewrite shr_m_of_loc in Hx.
  pose proof (bpow_gt_0 e) as Hb.
  destruct (Z.eq_dec m 0) as [->|Hne].
  - cbn [Zdigits2 Z.add] in *. unfold fexp64 in *.
    replace (Z.max (e - 53) (-1074)) with (-1074)%Z in * by lia.
    left. split; [reflexivity|].
    pose proof (bpow_le e (-1021) ltac:(lia)). lra.
  - destruct (digits_bpow m e ltac:(lia)) as [Hlo [Hhi _]].
    assert (Hup : x < bpow (Zdigits2 m + e)).
    { rewrite bpow_plus. apply Rlt_le_trans with ((IZR m + 1) * bpow e); [lra|].
      apply Rmult_le_compat_r; lra. }
    unfold fexp64.
    destruct (Z_le_gt_dec (Zdigits2 m + e - 53) (-1074)) as [Hs|Hn].
    + replace (Z.max (Zdigits2 m + e - 53) (-1074)) with (-1074)%Z by lia.
      left. split; [reflexivity|].
      pose proof (bpow_le (Zdigits2 m + e) (-1021) ltac:(lia)). lra.
    + replace (Z.max (Zdigits2 m + e - 53) (-1074)) with (Zdigits2 m + e - 53)%Z by lia.
      right. split; [lia|].
      replace (Zdigits2 m + e - 53 + 52)%Z with (Zdigits2 m + e - 1)%Z by lia.
      replace (Zdigits2 m + e - 53 + 53)%Z with (Zdigits2 m + e)%Z by lia.
      lra.
Qed.

(** What [binary_round_aux] returns on a positive number. *)
Lemma binary_round_aux_spec (x : R) (m e : Z) (l : location) :
  (0 <= m)%Z -> located x (shr_record_of_loc m l) e ->
  (e <= fexp64 (Zdigits2 m + e))%Z ->
  exists k E,
    rounded x k E /\ encodes k E (binary_round_aux prec emax false m e l).
Proof.
  intros Hm Hx Hal.
  pose proof (located_nonneg x m e l Hm Hx) as Hx0.
  pose proof (located_cexp x m e l Hm Hx Hal) as Hc.
  rewrite binary_round_aux_eq, shr_fexp_eq. cbv zeta.
  set (E := fexp64 (Zdigits2 m + e)) in *.
  assert (Hm' : (0 <= shr_m (shr_record_of_loc m l))%Z) by (rewrite shr_m_of_loc; assumption).
  destruct (shr_located x (shr_record_of_loc m l) e (E - e) Hm' Hx) as [H1 [H1' H1e]].
  replace (Z.max e (e + (E - e))) with E in H1e by lia.
  rewrite H1e in *.
  set (mrs1 := fst (shr (shr_record_of_loc m l) e (E - e))) in *.
  set (k := round_nearest_even (shr_m mrs1) (loc_of_shr_record mrs1)).
  assert (Hr : rounded x k E).
  { split; [assumption|]. apply round_nearest_even_spec. assumption. }
  exists k, E. split; [assumption|].
  pose proof (rounded_k_upper _ _ _ Hr) as Hku.
  pose proof (rounded_k_nonneg _ _ _ Hx0 Hr) as Hk0.
  pose proof (cexp_ok_lower _ _ Hc) as HE.
  clearbody k. clear H1 H1' H1e mrs1.
  rewrite shr_fexp_eq.
  destruct (Z.eq_dec k 0) as [->|Hk1].
  - rewrite shr_nonpos by (cbn [Zdigits2 Z.add]; unfold fexp64; lia).
    cbn. apply enc_zero. reflexivity.
  - destruct (Z.eq_dec k 9007199254740992) as [->|Hk2].
    + replace (fexp64 (Zdigits2 9007199254740992 + E) - E)%Z with 1%Z
        by (change (Zdigits2 9007199254740992) with 54%Z; unfold fexp64; lia).
      cbn [shr shr_record_of_loc SpecFloat.iter_pos shr_1 fst snd shr_m orb].
      destruct (Z.leb_spec (E + 1) 971) as [Hle|Hgt].
      * apply enc_finite.
        -- unfold SpecFloat.bounded, canonical_mantissa.
           rewrite fexp_fexp64.
           change (Zpos (digits2_pos 4503599627370496)) with 53%Z.
           apply andb_true_intro. split; [apply Z.eqb_eq; unfold fexp64; lia|].
           apply Z.leb_le. change (emax - prec)%Z with 971%Z. lia.
        -- rewrite bpow_succ. lra.
      * apply enc_infinity. rewrite <- bpow_53. apply bpow_le. lia.
    + rewrite shr_nonpos.
      2:{ assert (Zdigits2 k <= 53)%Z.
          { apply Zdigits2_le; [|lia]. change (2 ^ 53)%Z with 9007199254740992%Z. lia. }
          unfold fexp64. lia. }
      cbn [fst snd shr_record_of_loc shr_m].
      destruct k as [|p|p]; try lia.
      destruct (Z.leb_spec E 971) as [Hle|Hgt].
      * apply enc_finite; [|reflexivity].
        unfold SpecFloat.bounded, canonical_mantissa.
        rewrite fexp_fexp64.
        apply andb_true_intro. split.
        2:{ apply Z.leb_le. change (emax - prec)%Z with 971%Z. lia. }
        apply Z.eqb_eq.
        change (Zpos (digits2_pos p)) with (Zdigits2 (Zpos p)).
        assert (Hd : (Zdigits2 (Zpos p) <= 53)%Z).
        { apply Zdigits2_le; [|lia]. change (2 ^ 53)%Z with 9007199254740992%Z. lia. }
        destruct (Z.eq_dec E (-1074)) as [HEq|HEn]; [unfold fexp64; lia|].
        pose proof (rounded_k_lower _ _ _ Hr ltac:(lia)) as Hkl.
        assert (52 < Zdigits2 (Zpos p))%Z.
        { apply Zdigits2_ge; [|lia]. change (2 ^ 52)%Z with 4503599627370496%Z. lia. }
        unfold fexp64. lia.
      * apply enc_infinity.
        pose proof (rounded_k_lower _ _ _ Hr ltac:(lia)) as Hkl.
        apply IZR_le in Hkl.
        pose proof (bpow_le 972 E ltac:(lia)) as Hb.
        pose proof (bpow_gt_0 972) as Hb0.
        replace 1024%Z with (972 + 52)%Z by lia. rewrite bpow_52.
        apply Rmult_le_compat; lra.
Qed.

Lemma F2R_pos (m : positive) (e : Z) : 0 < F2R m e.
Proof.
  unfold F2R. apply Rmult_lt_0_compat; [|apply bpow_gt_0].
  apply IZR_lt. lia.
Qed.

Lemma bounded_canonical (m : positive) (e : Z) :
  SpecFloat.bounded prec emax m e = true ->
  fexp64 (Zdigits2 (Zpos m) + e) = e /\ (e <= 971)%Z.
Proof.
  unfold SpecFloat.bounded, canonical_mantissa. rewrite fexp_fexp64.
  intros H. apply andb_prop in H. destruct H as [H1 H2].
  apply Z.eqb_eq in H1. apply Z.leb_le in H2.
  change (emax - prec)%Z with 971%Z in H2. split; assumption.
Qed.

Lemma nearest_even_exact (k E : Z) : nearest_even (IZR k * bpow E) E k.
Proof.
  unfold nearest_even. pose proof (bpow_gt_0 E).
  replace (IZR k * bpow E - IZR k * bpow E) with 0 by ring.
  rewrite Rabs_R0. split; [lra | intros Ht; exfalso; lra].
Qed.

(** A valid float is its own rounding. *)
Lemma bounded_rounded (m : positive) (e : Z) :
  SpecFloat.bounded prec emax m e = true -> rounded (F2R m e) (Zpos m) e.
Proof.
  intros Hb. destruct (bounded_canonical m e Hb) as [Hc _].
  split; [|apply nearest_even_exact].
  rewrite <- Hc at 2.
  apply (located_cexp _ (Zpos m) e loc_Exact); [lia|reflexivity|lia].
Qed.

Lemma bounded_lt_bpow_1024 (m : positive) (e : Z) :
  SpecFloat.bounded prec emax m e = true -> F2R m e < bpow 1024.
Proof.
  intros Hb. destruct (bounded_canonical m e Hb) as [_ He].
  pose proof (cexp_ok_upper _ _ (proj1 (bounded_rounded m e Hb))) as Hu.
  pose proof (bpow_le (e + 53) 1024 ltac:(lia)). lra.
Qed.

(** Rounding something that is below (above) a float stays below
    (above) it. *)
Lemma rounded_le_float (x : R) (k E : Z) (m : positive) (e : Z) :
  rounded x k E -> SpecFloat.bounded prec emax m e = true ->
  x <= F2R m e -> IZR k * bpow E <= F2R m e.
Proof.
  intros Hr Hb Hx.
  apply (rounded_le x (F2R m e) k E (Zpos m) e Hx Hr (bounded_rounded m e Hb)).
Qed.

Lemma rounded_ge_float (x : R) (k E : Z) (m : positive) (e : Z) :
  rounded x k E -> SpecFloat.bounded prec emax m e = true ->
  F2R m e <= x -> F2R m e <= IZR k * bpow E.
Proof.
  intros Hr Hb Hx.
  apply (rounded_le (F2R m e) x (Zpos m) e k E Hx (bounded_rounded m e Hb) Hr).
Qed.

(** Two encodings of roundings of ordered numbers are ordered. *)
Lemma encodes_finite_value (k E : Z) (m : positive) (e : Z) :
  encodes k E (S754_finite false m e) ->
  SpecFloat.bounded prec emax m e = true /\ F2R m e = IZR k * bpow E.
Proof. intros H. inversion H; subst. split; assumption. Qed.

Lemma encodes_not_nan (k E : Z) : ~ encodes k E S754_nan.
Proof. intros H. inversion H. Qed.

Lemma encodes_sign (k E : Z) (f : spec_float) :
  encodes k E f ->
  match f with
  | S754_zero s | S754_infinity s | S754_finite s _ _ => s = false
  | S754_nan => False
  end.
Proof. intros H. inversion H; reflexivity. Qed.

(** *** Rounding an integer times a power of two *)

Lemma iter_xO_spec (m d : positive) :
  Zpos (Pos.iter xO m d) = (Zpos m * 2 ^ Zpos d)%Z.
Proof.
  induction d as [|d IH] using Pos.peano_ind.
  - cbn [Pos.iter]. rewrite Pos2Z.inj_xO. change (2 ^ 1)%Z with 2%Z. lia.
  - rewrite Pos.iter_succ, Pos2Z.inj_xO, IH, Pos2Z.inj_succ, Z.pow_succ_r by lia. lia.
Qed.

Lemma Zdigits2_shift (m d : Z) :
  (0 < m)%Z -> (0 <= d)%Z -> Zdigits2 (m * 2 ^ d) = (Zdigits2 m + d)%Z.
Proof.
  intros Hm Hd.
  destruct (Zdigits2_bounds m Hm) as [Hlo Hhi].
  pose proof (Zdigits2_pos m Hm) as Hdm.
  assert (Hp : (0 < 2 ^ d)%Z) by (apply Z.pow_pos_nonneg; lia).
  apply Zdigits2_unique; [|nia].
  replace (Zdigits2 m + d - 1)%Z with ((Zdigits2 m - 1) + d)%Z by lia.
  rewrite !Z.pow_add_r by lia. nia.
Qed.

Lemma shl_align_spec (m : positive) (e e' : Z) :
  F2R (fst (shl_align m e e')) (snd (shl_align m e e')) = F2R m e /\
  (snd (shl_align m e e') <= e')%Z /\
  (Zdigits2 (Zpos (fst (shl_align m e e'))) + snd (shl_align m e e') =
   Zdigits2 (Zpos m) + e)%Z.
Proof.
  unfold shl_align. destruct (e' - e)%Z as [|d|d] eqn:Hd; cbn [fst snd].
  - repeat split; lia.
  - repeat split; lia.
  - assert (He : e = (e' + Zpos d)%Z) by lia.
    unfold F2R. rewrite iter_xO_spec, Zdigits2_shift by lia.
    repeat split; try lia.
    rewrite He, bpow_plus, mult_IZR, (bpow_IZR (Zpos d)) by lia. ring.
Qed.

Lemma binary_normalize_spec (m : positive) (e : Z) :
  exists k E,
    rounded (F2R m e) k E /\
    encodes k E (binary_normalize prec emax (Zpos m) e false).
Proof.
  cbn [binary_normalize]. unfold binary_round. rewrite fexp_fexp64.
  change (Zpos (digits2_pos m)) with (Zdigits2 (Zpos m)).
  destruct (shl_align_spec m e (fexp64 (Zdigits2 (Zpos m) + e))) as [Hv [Hle Hd]].
  destruct (shl_align m e (fexp64 (Zdigits2 (Zpos m) + e))) as [mz ez].
  cbn [fst snd] in *. rewrite <- Hv.
  apply binary_round_aux_spec; [lia|reflexivity|].
  rewrite Hd. assumption.
Qed.

(** *** Multiplication *)

Lemma bounded_digits (m : positive) (e : Z) :
  SpecFloat.bounded prec emax m e = true ->
  (Zdigits2 (Zpos m) <= 53)%Z /\ (-1074 <= e <= 971)%Z /\
  (e = (-1074)%Z \/ Zdigits2 (Zpos m) = 53%Z).
Proof.
  intros Hb. destruct (bounded_canonical m e Hb) as [Hc He].
  unfold fexp64 in Hc. lia.
Qed.

Lemma Zdigits2_mul_ge (a b : Z) :
  (0 < a)%Z -> (0 < b)%Z -> (Zdigits2 a + Zdigits2 b - 1 <= Zdigits2 (a * b))%Z.
Proof.
  intros Ha Hb.
  destruct (Zdigits2_bounds a Ha) as [Hla _].
  destruct (Zdigits2_bounds b Hb) as [Hlb _].
  pose proof (Zdigits2_pos a Ha). pose proof (Zdigits2_pos b Hb).
  assert (H2 : (Zdigits2 a + Zdigits2 b - 2 < Zdigits2 (a * b))%Z); [|lia].
  apply Zdigits2_ge; [|lia].
  replace (Zdigits2 a + Zdigits2 b - 2)%Z with ((Zdigits2 a - 1) + (Zdigits2 b - 1))%Z by lia.
  rewrite Z.pow_add_r by lia.
  apply Z.mul_le_mono_nonneg; try assumption; apply Z.pow_nonneg; lia.
Qed.

Lemma SFmul_spec (mx : positive) (ex : Z) (my : positive) (ey : Z) :
  SpecFloat.bounded prec emax mx ex = true ->
  SpecFloat.bounded prec emax my ey = true ->
  exists k E,
    rounded (F2R mx ex * F2R my ey) k E /\
    encodes k E (SF64mul (S754_finite false mx ex) (S754_finite false my ey)).
Proof.
  intros Hx Hy. unfold SF64mul, SFmul. cbn [xorb].
  replace (F2R mx ex * F2R my ey) with (IZR (Zpos (mx * my)) * bpow (ex + ey)).
  2:{ unfold F2R. rewrite Pos2Z.inj_mul, mult_IZR, bpow_plus. ring. }
  apply binary_round_aux_spec; [lia|reflexivity|].
  destruct (bounded_digits mx ex Hx) as [Hdx [Hex Hcx]].
  destruct (bounded_digits my ey Hy) as [Hdy [Hey Hcy]].
  pose proof (Zdigits2_mul_ge (Zpos mx) (Zpos my) ltac:(lia) ltac:(lia)) as Hd.
  pose proof (Zdigits2_pos (Zpos mx) ltac:(lia)).
  pose proof (Zdigits2_pos (Zpos my) ltac:(lia)).
  rewrite Pos2Z.inj_mul. unfold fexp64. lia.
Qed.

(** *** Truncation to an integer *)

Lemma trunc_finite_spec (m : positive) (e : Z) (n : Z) :
  n = (if (0 <=? e)%Z then Zpos m * 2 ^ e else Zpos m / 2 ^ (- e))%Z ->
  IZR n <= F2R m e < IZR n + 1 /\ (0 <= n)%Z.
Proof.
  intros ->. unfold F2R. destruct (Z.leb_spec 0 e) as [He|He].
  - rewrite mult_IZR, <- bpow_IZR by assumption.
    split; [lra|]. assert (0 < 2 ^ e)%Z by (apply Z.pow_pos_nonneg; lia). nia.
  - assert (Hp : (0 < 2 ^ (- e))%Z) by (apply Z.pow_pos_nonneg; lia).
    pose proof (Z.div_mod (Zpos m) (2 ^ (- e)) ltac:(lia)) as Hdm.
    pose proof (Z.mod_pos_bound (Zpos m) (2 ^ (- e)) Hp) as Hmod.
    set (q := (Zpos m / 2 ^ (- e))%Z) in *.
    set (r := (Zpos m mod 2 ^ (- e))%Z) in *.
    assert (Hb : bpow e * IZR (2 ^ (- e)) = 1).
    { rewrite <- bpow_IZR by lia. rewrite <- bpow_plus.
      replace (e + - e)%Z with 0%Z by lia. reflexivity. }
    pose proof (bpow_gt_0 e) as Hbe.
    assert (Hm : IZR (Zpos m) = IZR (2 ^ (- e)) * IZR q + IZR r).
    { rewrite <- mult_IZR, <- plus_IZR. f_equal. assumption. }
    rewrite Hm.
    assert (Hr0 : 0 <= IZR r) by (apply IZR_le; lia).
    assert (Hr1 : IZR r < IZR (2 ^ (- e))) by (apply IZR_lt; lia).
    assert (Hrb0 : 0 <= IZR r * bpow e) by (apply Rmult_le_pos; lra).
    assert (Hrb1 : IZR r * bpow e < IZR (2 ^ (- e)) * bpow e)
      by (apply Rmult_lt_compat_r; lra).
    replace ((IZR (2 ^ (- e)) * IZR q + IZR r) * bpow e)
      with (IZR q * (bpow e * IZR (2 ^ (- e))) + IZR r * bpow e) by ring.
    rewrite Hb. split; [lra|].
    apply Z.div_pos; lia.
Qed.

(** *** Division *)

(** Where the quotient lies, from the remainder of the integer division:
    [x] is the real with [x * m2 = (q * m2 + r) * 2^e]. *)
Lemma new_location_located (x : R) (q r m2 e : Z) :
  (0 < m2)%Z -> (0 <= r < m2)%Z ->
  x * IZR m2 = (IZR q * IZR m2 + IZR r) * bpow e ->
  located x (shr_record_of_loc q (new_location m2 r)) e.
Proof.
  intros Hm2 Hr Hx.
  pose proof (bpow_gt_0 e) as Hb.
  assert (HM : 0 < IZR m2) by (apply IZR_lt; lia).
  assert (Ht0 : 0 <= IZR r) by (apply IZR_le; lia).
  assert (Ht1 : IZR r < IZR m2) by (apply IZR_lt; lia).
  assert (Hex : r = 0%Z -> x = IZR q * bpow e).
  { intros ->. apply (Rmult_eq_reg_r (IZR m2)); [|lra]. rewrite Hx. ring. }
  assert (Hlt : (0 < r)%Z -> (2 * r < m2)%Z ->
                IZR q * bpow e < x < (IZR q + / 2) * bpow e).
  { intros H0 H2. apply IZR_lt in H0. apply IZR_lt in H2. rewrite mult_IZR in H2.
    assert (0 < IZR r * bpow e) by (apply Rmult_lt_0_compat; lra).
    assert (2 * IZR r * bpow e < IZR m2 * bpow e) by (apply Rmult_lt_compat_r; lra).
    split; apply (Rmult_lt_reg_r (IZR m2)); try lra; rewrite Hx; lra. }
  assert (Heq : (2 * r = m2)%Z -> x = (IZR q + / 2) * bpow e).
  { intros H2. apply (f_equal IZR) in H2. rewrite mult_IZR in H2.
    apply (Rmult_eq_reg_r (IZR m2)); [|lra]. rewrite Hx, <- H2. field. }
  assert (Hgt : (m2 < 2 * r)%Z ->
                (IZR q + / 2) * bpow e < x < (IZR q + 1) * bpow e).
  { intros H2. apply IZR_lt in H2. rewrite mult_IZR in H2.
    assert (IZR m2 * bpow e < 2 * IZR r * bpow e) by (apply Rmult_lt_compat_r; lra).
    assert (IZR r * bpow e < IZR m2 * bpow e) by (apply Rmult_lt_compat_r; lra).
    split; apply (Rmult_lt_reg_r (IZR m2)); try lra; rewrite Hx; lra. }
  unfold new_location, new_location_even, new_location_odd.
  destruct (Z.even m2) eqn:Hev; destruct (Z.eqb_spec r 0) as [Hr0|Hr0].
  - apply Hex. assumption.
  - destruct (Z.compare_spec (2 * r) m2) as [Hc|Hc|Hc]; unfold located;
      cbn [shr_record_of_loc shr_m shr_r shr_s].
    + apply Heq. assumption.
    + apply Hlt; lia.
    + apply Hgt. assumption.
  - apply Hex. assumption.
  - assert (Hodd : (2 * r <> m2)%Z).
    { intros <-. rewrite Z.even_mul in Hev. discriminate. }
    destruct (Z.compare_spec (2 * r + 1) m2) as [Hc|Hc|Hc]; unfold located;
      cbn [shr_record_of_loc shr_m shr_r shr_s].
    + apply Hlt; lia.
    + apply Hlt; lia.
    + apply Hgt. lia.
Qed.

Lemma fexp64_mono (a b : Z) : (a <= b)%Z -> (fexp64 a <= fexp64 b)%Z.
Proof. unfold fexp64. lia. Qed.

Lemma SFdiv_core_binary_spec (m1 : positive) (e1 : Z) (m2 : positive) (e2 : Z) (x : R) :
  x * F2R m2 e2 = F2R m1 e1 ->
  let '(q, e', l) := SFdiv_core_binary prec emax (Zpos m1) e1 (Zpos m2) e2 in
  (0 <= q)%Z /\ located x (shr_record_of_loc q l) e' /\
  (e' <= fexp64 (Zdigits2 q + e'))%Z.
Proof.
  intros Hx. unfold SFdiv_core_binary. rewrite fexp_fexp64.
  set (d1 := Zdigits2 (Zpos m1)). set (d2 := Zdigits2 (Zpos m2)).
  set (g := (d1 + e1 - (d2 + e2))%Z).
  set (e' := Z.min (fexp64 g) (e1 - e2)).
  set (s := (e1 - e2 - e')%Z).
  assert (Hs : (0 <= s)%Z) by (unfold s, e'; lia).
  set (m' := match s with
             | 0%Z => Zpos m1
             | Zpos _ => Z.shiftl (Zpos m1) s
             | Zneg _ => 0%Z
             end).
  assert (Hm' : m' = (Zpos m1 * 2 ^ s)%Z).
  { unfold m'. destruct s as [|p|p] eqn:Hsp; [lia| |lia].
    apply Z.shiftl_mul_pow2. lia. }
  clearbody m'.
  pose proof (Z_div_mod m' (Zpos m2) ltac:(lia)) as Hdiv.
  destruct (Z.div_eucl m' (Zpos m2)) as [q r]. destruct Hdiv as [Hqr Hr].
  assert (Hp : (0 < 2 ^ s)%Z) by (apply Z.pow_pos_nonneg; lia).
  assert (Hq : (0 <= q)%Z) by nia.
  split; [assumption|]. split.
  - apply new_location_located; [lia|lia|].
    assert (Hm : IZR (Zpos m1) * IZR (2 ^ s) = IZR (Zpos m2) * IZR q + IZR r).
    { rewrite <- !mult_IZR, <- plus_IZR. f_equal. lia. }
    replace (IZR q * IZR (Zpos m2) + IZR r) with (IZR (Zpos m1) * IZR (2 ^ s))
      by (rewrite Hm; ring).
    unfold F2R in Hx.
    assert (Hb2 : 0 < bpow e2) by apply bpow_gt_0.
    apply (Rmult_eq_reg_r (bpow e2)); [|lra].
    replace (x * IZR (Zpos m2) * bpow e2) with (x * (IZR (Zpos m2) * bpow e2)) by ring.
    rewrite Hx.
    replace e1 with (s + e' + e2)%Z at 1 by (unfold s; lia).
    rewrite !bpow_plus, (bpow_IZR s) by assumption. ring.
  - destruct (Zdigits2_bounds (Zpos m1) ltac:(lia)) as [Hl1 _].
    destruct (Zdigits2_bounds (Zpos m2) ltac:(lia)) as [_ Hh2].
    pose proof (Zdigits2_pos (Zpos m1) ltac:(lia)) as Hd1.
    pose proof (Zdigits2_pos (Zpos m2) ltac:(lia)) as Hd2.
    fold d1 in Hl1, Hd1. fold d2 in Hh2, Hd2.
    assert (Hbig : (2 ^ (d1 - 1 + s) < (q + 1) * 2 ^ d2)%Z).
    { rewrite Z.pow_add_r by lia.
      assert (0 < 2 ^ d2)%Z by (apply Z.pow_pos_nonneg; lia). nia. }
    assert (Hdq : (g - e' <= Zdigits2 q \/ (q = 0 /\ g <= e'))%Z).
    { destruct (Z_le_gt_dec (d1 - 1 + s) (d2 - 1)) as [Hsm|Hla].
      - destruct (Z.eq_dec q 0) as [->|Hq0].
        + right. split; [reflexivity|]. unfold g, s in *. lia.
        + left. pose proof (Zdigits2_pos q ltac:(lia)). unfold g, s in *. lia.
      - left.
        assert (Hj : (2 ^ (d1 - 1 + s - d2) <= q)%Z).
        { replace (d1 - 1 + s)%Z with ((d1 - 1 + s - d2) + d2)%Z in Hbig by lia.
          rewrite Z.pow_add_r in Hbig by lia.
          assert (0 < 2 ^ d2)%Z by (apply Z.pow_pos_nonneg; lia).
          assert (2 ^ (d1 - 1 + s - d2) < q + 1)%Z by nia. lia. }
        apply Zdigits2_ge in Hj; [|lia]. unfold g, s in *. lia. }
    destruct Hdq as [Hdq|[-> Hge]].
    + apply Z.le_trans with (fexp64 g); [unfold e'; lia|].
      apply fexp64_mono. lia.
    + cbn [Zdigits2 Z.add]. unfold e', fexp64 in *. lia.
Qed.

Lemma SFdiv_spec (mx : positive) (ex : Z) (my : positive) (ey : Z) (x : R) :
  x * F2R my ey = F2R mx ex ->
  exists k E,
    rounded x k E /\
    encodes k E (SF64div (S754_finite false mx ex) (S754_finite false my ey)).
Proof.
  intros Hx. unfold SF64div, SFdiv. cbn [xorb].
  pose proof (SFdiv_core_binary_spec mx ex my ey x Hx) as H.
  destruct (SFdiv_core_binary prec emax (Zpos mx) ex (Zpos my) ey) as [[q e'] l].
  destruct H as [Hq [Hl Ha]].
  apply binary_round_aux_spec; assumption.
Qed.

(** *** Comparison *)

Lemma bounded_F2R_lt_exp (m1 : positive) (e1 : Z) (m2 : positive) (e2 : Z) :
  SpecFloat.bounded prec emax m1 e1 = true ->
  SpecFloat.bounded prec emax m2 e2 = true ->
  (e1 < e2)%Z -> F2R m1 e1 < F2R m2 e2.
Proof.
  intros H1 H2 He.
  destruct (Rlt_le_dec (F2R m1 e1) (F2R m2 e2)) as [|Hge]; [assumption|exfalso].
  pose proof (cexp_ok_mono _ _ _ _ Hge (proj1 (bounded_rounded _ _ H2))
                (proj1 (bounded_rounded _ _ H1))). lia.
Qed.

Lemma SFcompare_finite_spec (m1 : positive) (e1 : Z) (m2 : positive) (e2 : Z) :
  SpecFloat.bounded prec emax m1 e1 = true ->
  SpecFloat.bounded prec emax m2 e2 = true ->
  match SFcompare (S754_finite false m1 e1) (S754_finite false m2 e2) with
  | Some Lt => F2R m1 e1 < F2R m2 e2
  | Some Eq => F2R m1 e1 = F2R m2 e2
  | Some Gt => F2R m2 e2 < F2R m1 e1
  | None => False
  end.
Proof.
  intros H1 H2. cbn [SFcompare].
  destruct (Z.compare_spec e1 e2) as [He|He|He].
  - subst e2. change (Pos.compare_cont Eq m1 m2) with (Pos.compare m1 m2).
    pose proof (bpow_gt_0 e1) as Hb. unfold F2R.
    destruct (Pos.compare_spec m1 m2) as [Hm|Hm|Hm].
    + subst. reflexivity.
    + apply Rmult_lt_compat_r; [assumption|]. apply IZR_lt. lia.
    + apply Rmult_lt_compat_r; [assumption|]. apply IZR_lt. lia.
  - apply bounded_F2R_lt_exp; assumption.
  - apply bounded_F2R_lt_exp; assumption.
Qed.

Lemma repr_nonneg (f : float) (v : R) : repr f v -> 0 <= v.
Proof.
  unfold repr. destruct (Prim2SF f) as [s|s| |[|] m e]; try contradiction.
  - intros ->. lra.
  - intros ->. pose proof (F2R_pos m e). lra.
Qed.

Lemma repr_finite (f : float) (m : positive) (e : Z) :
  Prim2SF f = S754_finite false m e ->
  repr f (F2R m e) /\ SpecFloat.bounded prec emax m e = true.
Proof.
  intros H. split.
  - unfold repr. rewrite H. reflexivity.
  - pose proof (Prim2SF_valid f) as Hv. rewrite H in Hv. exact Hv.
Qed.

Lemma rounded_0 : rounded 0 0 (-1074).
Proof.
  split.
  - left. split; [reflexivity|apply bpow_gt_0].
  - replace 0 with (IZR 0 * bpow (-1074)) at 1 by (simpl; ring).
    apply nearest_even_exact.
Qed.

(** What a rounding that does not overflow is encoded as. *)
Lemma encodes_repr (k E : Z) (sf : spec_float) (f : float) :
  encodes k E sf -> Prim2SF f = sf ->
  IZR k * bpow E < bpow 1024 -> repr f (IZR k * bpow E).
Proof.
  intros Henc Hf Hlt. unfold repr. rewrite Hf.
  inversion Henc as [Hk|m e Hb Hv|Hinf]; subst.
  - simpl. ring.
  - symmetry. exact Hv.
  - lra.
Qed.

Lemma repr_mul (a b : float) (va vb : R) :
  repr a va -> repr b vb ->
  exists k E,
    rounded (va * vb) k E /\
    (IZR k * bpow E < bpow 1024 -> repr (a * b) (IZR k * bpow E)).
Proof.
  unfold repr at 1 2. intros Ha Hb.
  pose proof (mul_spec a b) as Hm.
  pose proof (Prim2SF_valid a) as Hva. pose proof (Prim2SF_valid b) as Hvb.
  destruct (Prim2SF a) as [sa|sa| |[|] ma ea]; try contradiction;
    destruct (Prim2SF b) as [sb|sb| |[|] mb eb]; try contradiction; subst va vb.
  - exists 0%Z, (-1074)%Z. rewrite Rmult_0_l. split; [apply rounded_0|].
    intros _. unfold repr. rewrite Hm. cbn. ring.
  - exists 0%Z, (-1074)%Z. rewrite Rmult_0_l. split; [apply rounded_0|].
    intros _. unfold repr. rewrite Hm. cbn. ring.
  - exists 0%Z, (-1074)%Z. rewrite Rmult_0_r. split; [apply rounded_0|].
    intros _. unfold repr. rewrite Hm. cbn. ring.
  - destruct (SFmul_spec ma ea mb eb Hva Hvb) as [k [E [Hr He]]].
    exists k, E. split; [assumption|].
    intros Hlt. apply (encodes_repr k E _ _ He Hm Hlt).
Qed.

Lemma repr_div (a b : float) (va vb : R) :
  repr a va -> repr b vb -> 0 < vb ->
  exists k E,
    rounded (va / vb) k E /\
    (IZR k * bpow E < bpow 1024 -> repr (a / b) (IZR k * bpow E)).
Proof.
  unfold repr at 1 2. intros Ha Hb Hpos.
  pose proof (div_spec a b) as Hm.
  destruct (Prim2SF a) as [sa|sa| |[|] ma ea]; try contradiction;
    destruct (Prim2SF b) as [sb|sb| |[|] mb eb]; try contradiction; subst va vb.
  - lra.
  - exists 0%Z, (-1074)%Z. unfold Rdiv. rewrite Rmult_0_l. split; [apply rounded_0|].
    intros _. unfold repr. rewrite Hm. cbn. ring.
  - lra.
  - assert (Hx : F2R ma ea / F2R mb eb * F2R mb eb = F2R ma ea) by (field; lra).
    destruct (SFdiv_spec ma ea mb eb _ Hx) as [k [E [Hr He]]].
    exists k, E. split; [assumption|].
    intros Hlt. apply (encodes_repr k E _ _ He Hm Hlt).
Qed.

(** *** The conversions of [PyNum] *)

Lemma Prim2SF_zero : Prim2SF zero = S754_zero false.
Proof. reflexivity. Qed.

Lemma repr_zero : repr zero 0.
Proof. unfold repr. rewrite Prim2SF_zero. reflexivity. Qed.

Lemma to_int_repr (f : float) (v : R) :
  repr f v -> exists n, PyNum.to_int f = Ok n /\ IZR n <= v < IZR n + 1 /\ (0 <= n)%Z.
Proof.
  unfold repr, PyNum.to_int.
  destruct (Prim2SF f) as [s|s| |[|] m e]; try contradiction; intros ->.
  - exists 0%Z. repeat split; try lra. lia.
  - exists (PyNum.trunc_finite false m e). split; [reflexivity|].
    unfold PyNum.trunc_finite. apply trunc_finite_spec. reflexivity.
Qed.

Lemma encodes_finite_or_overflow (k E : Z) (sf : spec_float) :
  encodes k E sf -> IZR k * bpow E < bpow 1024 ->
  exists f, PyNum.finite_or_overflow sf = Ok f /\ repr f (IZR k * bpow E).
Proof.
  intros Henc Hlt.
  assert (Hv : valid_binary sf = true).
  { inversion Henc; subst; try reflexivity. assumption. }
  exists (SF2Prim sf). split.
  - inversion Henc; subst; try reflexivity. lra.
  - apply (encodes_repr k E sf); [assumption| |assumption].
    apply Prim2SF_SF2Prim. assumption.
Qed.

Lemma encodes_overflow (k E : Z) (sf : spec_float) :
  encodes k E sf -> bpow 1024 <= IZR k * bpow E ->
  exists s, sf = S754_infinity s.
Proof.
  intros Henc Hge. inversion Henc as [Hk|m e Hb Hv|Hinf]; subst.
  - exfalso. simpl in Hge. pose proof (bpow_gt_0 1024). lra.
  - exfalso. pose proof (bounded_lt_bpow_1024 m e Hb). unfold F2R in *. lra.
  - exists false. reflexivity.
Qed.

(** [float(z)] for a positive integer. *)
Lemma of_int_pos (z : Z) :
  (0 < z)%Z ->
  exists k E,
    rounded (IZR z) k E /\
    (IZR k * bpow E < bpow 1024 ->
     exists f, PyNum.of_int z = Ok f /\ repr f (IZR k * bpow E)) /\
    (bpow 1024 <= IZR k * bpow E -> PyNum.of_int z = Raise OverflowError).
Proof.
  intros Hz. destruct z as [|p|p]; try lia.
  destruct (binary_normalize_spec p 0) as [k [E [Hr He]]].
  replace (F2R p 0) with (IZR (Zpos p)) in Hr by (unfold F2R; rewrite bpow_0; ring).
  exists k, E. split; [assumption|]. unfold PyNum.of_int. split.
  - intros Hlt. apply (encodes_finite_or_overflow k E _ He Hlt).
  - intros Hge. destruct (encodes_overflow k E _ He Hge) as [s ->]. reflexivity.
Qed.

(** Integers of less than 54 bits are floats. *)
Lemma rounded_int_exact (z k E : Z) :
  (0 < z < 2 ^ 53)%Z -> rounded (IZR z) k E -> IZR k * bpow E = IZR z.
Proof.
  intros [Hz0 Hz1] [Hc [Hn _]].
  assert (HE : (E <= 0)%Z).
  { destruct Hc as [[-> _]|[_ [Hlo _]]]; [lia|].
    apply IZR_lt in Hz1. rewrite <- bpow_IZR in Hz1 by lia.
    assert (bpow (E + 52) < bpow 53) by lra.
    apply bpow_lt_inv in H. lia. }
  pose proof (bpow_gt_0 E) as Hb.
  assert (Hz : IZR z = IZR (z * 2 ^ (- E)) * bpow E).
  { rewrite mult_IZR, <- bpow_IZR by lia.
    rewrite Rmult_assoc, <- bpow_plus.
    replace (- E + E)%Z with 0%Z by lia. rewrite bpow_0. ring. }
  rewrite Hz in Hn |- *.
  set (k' := (z * 2 ^ (- E))%Z) in *.
  apply Rabs_le_inv in Hn.
  assert (H1 : (k' - 1 <= k)%Z).
  { apply (IZR_mul_lt_inv _ _ (bpow E) Hb). rewrite minus_IZR. lra. }
  assert (H2 : (k - 1 <= k')%Z).
  { apply (IZR_mul_lt_inv _ _ (bpow E) Hb). rewrite minus_IZR. lra. }
  destruct (Z.eq_dec k k') as [->|Hne]; [reflexivity|exfalso].
  assert (Hcase : (k = k' + 1 \/ k = k' - 1)%Z) by lia.
  destruct Hcase as [->| ->].
  - rewrite plus_IZR in Hn. lra.
  - rewrite minus_IZR in Hn. lra.
Qed.

Lemma of_int_exact (z : Z) :
  (0 <= z <= 2 ^ 53)%Z -> exists f, PyNum.of_int z = Ok f /\ repr f (IZR z).
Proof.
  intros Hz.
  destruct (Z.eq_dec z 0) as [->|Hz0].
  { exists zero. split; [reflexivity|apply repr_zero]. }
  destruct (Z.eq_dec z (2 ^ 53)) as [->|Hz1].
  { exists 9007199254740992%float. split; [vm_compute; reflexivity|].
    unfold repr.
    change (Prim2SF 9007199254740992%float)
      with (S754_finite false 4503599627370496 1).
    unfold F2R. replace (bpow 1) with 2 by (unfold bpow; simpl; lra).
    change (2 ^ 53)%Z with 9007199254740992%Z. lra. }
  destruct (of_int_pos z ltac:(lia)) as [k [E [Hr [Hok _]]]].
  pose proof (rounded_int_exact z k E ltac:(lia) Hr) as Hex.
  rewrite Hex in Hok. apply Hok.
  apply Rlt_le_trans with (bpow 53); [|apply bpow_le; lia].
  rewrite bpow_IZR by lia. apply IZR_lt. lia.
Qed.

(** [a / b] on positive integers: the float returned is the rounding of
    a number [x] just above the quotient. *)
Lemma truediv_int_pos (a b : Z) :
  (0 < a)%Z -> (0 < b)%Z ->
  exists k E x,
    rounded x k E /\ 0 < x /\ x * IZR b <= IZR a + IZR b /\
    (IZR k * bpow E < bpow 1024 ->
     exists f, PyNum.truediv_int a b = Ok f /\ repr f (IZR k * bpow E)).
Proof.
  intros Ha Hb. unfold PyNum.truediv_int.
  rewrite (proj2 (Z.eqb_neq b 0)) by lia.
  rewrite (proj2 (Z.eqb_neq a 0)) by lia.
  rewrite (proj2 (Z.ltb_ge a 0)) by lia.
  rewrite (proj2 (Z.ltb_ge b 0)) by lia.
  cbn [xorb]. rewrite !Z.abs_eq by lia.
  set (k0 := Z.max 0 (56 + Z.log2 b - Z.log2 a)).
  assert (Hk0 : (0 <= k0)%Z) by (unfold k0; lia).
  assert (Hp : (0 < 2 ^ k0)%Z) by (apply Z.pow_pos_nonneg; lia).
  pose proof (Z_div_mod (a * 2 ^ k0) b ltac:(lia)) as Hdiv.
  destruct (Z.div_eucl (a * 2 ^ k0) b) as [q r]. destruct Hdiv as [Hqr Hr].
  assert (Hq : (1 <= q)%Z).
  { destruct (Z.log2_spec a Ha) as [Hla _]. destruct (Z.log2_spec b Hb) as [_ Hlb].
    pose proof (Z.log2_nonneg a). pose proof (Z.log2_nonneg b).
    assert (H1 : (2 ^ Z.succ (Z.log2 b) <= 2 ^ (Z.log2 a + k0))%Z)
      by (apply Z.pow_le_mono_r; unfold k0; lia).
    rewrite Z.pow_add_r in H1 by lia.
    assert (b < a * 2 ^ k0)%Z by nia. nia. }
  set (m := (2 * q + (if (r =? 0)%Z then 0 else 1))%Z).
  assert (Hm : (0 < m <= 2 * q + 1)%Z) by (unfold m; destruct (r =? 0)%Z; lia).
  clearbody m. destruct m as [|pm|pm]; try lia.
  destruct (binary_normalize_spec pm (- k0 - 1)) as [k [E [Hr' He]]].
  exists k, E, (F2R pm (- k0 - 1)). split; [assumption|].
  split; [apply F2R_pos|]. split.
  - unfold F2R.
    replace (- k0 - 1)%Z with (- k0 + -1)%Z by lia. rewrite bpow_plus.
    replace (bpow (-1)) with (/ 2) by (unfold bpow; simpl; lra).
    pose proof (bpow_gt_0 (- k0)) as Hc.
    assert (Hc1 : IZR (2 ^ k0) * bpow (- k0) = 1).
    { rewrite <- bpow_IZR by lia. rewrite <- bpow_plus.
      replace (k0 + - k0)%Z with 0%Z by lia. reflexivity. }
    assert (Hc2 : bpow (- k0) <= 1).
    { rewrite <- bpow_0. apply bpow_le. lia. }
    assert (Hmq : IZR (Zpos pm) <= 2 * IZR q + 1).
    { rewrite <- mult_IZR, <- plus_IZR. apply IZR_le. lia. }
    assert (Hqb : (IZR q + 1) * IZR b <= IZR a * IZR (2 ^ k0) + IZR b).
    { rewrite <- plus_IZR, <- !mult_IZR, <- plus_IZR. apply IZR_le. nia. }
    assert (HB : 0 < IZR b) by (apply IZR_lt; lia).
    assert (HA : 0 < IZR a) by (apply IZR_lt; lia).
    apply Rle_trans with ((IZR q + 1) * IZR b * bpow (- k0)).
    + replace (IZR (Zpos pm) * (bpow (- k0) * / 2) * IZR b)
        with (IZR (Zpos pm) * / 2 * (IZR b * bpow (- k0))) by ring.
      replace ((IZR q + 1) * IZR b * bpow (- k0))
        with ((IZR q + 1) * (IZR b * bpow (- k0))) by ring.
      apply Rmult_le_compat_r; [|lra].
      apply Rmult_le_pos; lra.
    + apply Rle_trans with ((IZR a * IZR (2 ^ k0) + IZR b) * bpow (- k0)).
      * apply Rmult_le_compat_r; lra.
      * replace ((IZR a * IZR (2 ^ k0) + IZR b) * bpow (- k0))
          with (IZR a * (IZR (2 ^ k0) * bpow (- k0)) + IZR b * bpow (- k0)) by ring.
        rewrite Hc1.
        assert (IZR b * bpow (- k0) <= IZR b * 1) by (apply Rmult_le_compat_l; lra).
        lra.
  - intros Hlt. apply (encodes_finite_or_overflow k E _ He Hlt).
Qed.

Lemma rounded_no_overflow (x : R) (k E : Z) :
  rounded x k E -> x <= bpow 1023 -> IZR k * bpow E < bpow 1024.
Proof.
  intros Hr Hx.
  assert (Hb : SpecFloat.bounded prec emax 4503599627370496 971 = true) by reflexivity.
  assert (Hv : F2R 4503599627370496 971 = bpow 1023).
  { unfold F2R. replace 1023%Z with (971 + 52)%Z by lia. rewrite bpow_52. ring. }
  pose proof (rounded_le_float x k E _ _ Hr Hb ltac:(rewrite Hv; assumption)) as H.
  rewrite Hv in H. pose proof (bpow_lt 1023 1024 ltac:(lia)). lra.
Qed.

Lemma rounded_le_1 (x : R) (k E : Z) :
  rounded x k E -> x <= 1 -> IZR k * bpow E <= 1.
Proof.
  intros Hr Hx.
  assert (Hb : SpecFloat.bounded prec emax 4503599627370496 (-52) = true) by reflexivity.
  assert (Hv : F2R 4503599627370496 (-52) = 1).
  { unfold F2R. rewrite <- (bpow_52 (-52)). reflexivity. }
  pose proof (rounded_le_float x k E _ _ Hr Hb ltac:(rewrite Hv; assumption)) as H.
  rewrite Hv in H. assumption.
Qed.

Lemma bpow_1023_ge (c : R) : c <= 4503599627370496 -> c <= bpow 1023.
Proof.
  intros Hc. apply Rle_trans with (bpow 52).
  - rewrite bpow_IZR by lia. change (2 ^ 52)%Z with 4503599627370496%Z. assumption.
  - apply bpow_le. lia.
Qed.

Lemma encodes_SF2Prim_repr (k E : Z) (sf : spec_float) :
  encodes k E sf -> IZR k * bpow E < bpow 1024 ->
  repr (SF2Prim sf) (IZR k * bpow E).
Proof.
  intros Henc Hlt.
  destruct (encodes_finite_or_overflow k E sf Henc Hlt) as [f [Hf Hr]].
  inversion Henc; subst; cbn in Hf; try (injection Hf as <-; assumption). lra.
Qed.

Lemma repr_25 : repr 25%float 25.
Proof.
  unfold repr.
  change (Prim2SF 25%float) with (S754_finite false 7036874417766400 (-48)).
  unfold F2R. rewrite (bpow_IZR 48 ltac:(lia)) || idtac.
  replace (bpow (-48)) with (/ IZR (2 ^ 48)).
  - change (2 ^ 48)%Z with 281474976710656%Z. lra.
  - rewrite <- bpow_IZR by lia. unfold bpow.
    rewrite <- powerRZ_neg'. reflexivity.
Qed.

Lemma repr_100 : repr 100%float 100.
Proof.
  unfold repr.
  change (Prim2SF 100%float) with (S754_finite false 7036874417766400 (-46)).
  unfold F2R.
  replace (bpow (-46)) with (/ IZR (2 ^ 46)).
  - change (2 ^ 46)%Z with 70368744177664%Z. lra.
  - rewrite <- bpow_IZR by lia. unfold bpow.
    rewrite <- powerRZ_neg'. reflexivity.
Qed.

Lemma repr_1 : repr 1%float 1.
Proof.
  unfold repr.
  change (Prim2SF 1%float) with (S754_finite false 4503599627370496 (-52)).
  unfold F2R. rewrite <- (bpow_52 (-52)). reflexivity.
Qed.

(** Multiplying by a small integer constant does not raise. *)
Lemma mul_float_const (f c : float) (vf vc : R) (n : Z) :
  PyNum.of_int n = Ok c -> repr c vc -> repr f vf ->
  vf * vc <= 4503599627370496 ->
  exists g v, PyNum.mul_float_int f n = Ok g /\ repr g v /\
              exists k E, rounded (vf * vc) k E /\ v = IZR k * bpow E.
Proof.
  intros Hc Hrc Hrf Hle. unfold PyNum.mul_float_int. rewrite Hc. cbn [bind_result].
  destruct (repr_mul f c vf vc Hrf Hrc) as [k [E [Hr Hok]]].
  exists (f * c)%float, (IZR k * bpow E). split; [reflexivity|]. split.
  - apply Hok. apply (rounded_no_overflow _ _ _ Hr). apply bpow_1023_ge. assumption.
  - exists k, E. split; [assumption|reflexivity].
Qed.

(** The conversion back to a percentage does not raise on a valid raw
    value. *)
Lemma internal_to_percent_ok (max_brightness raw : Z) :
  (0 < max_brightness)%Z -> (0 <= raw <= max_brightness)%Z ->
  exists pct,
    BrightnessControl.internal_to_percent max_brightness raw = Ok pct /\ (0 <= pct)%Z.
Proof.
  intros Hmax Hraw. unfold BrightnessControl.internal_to_percent.
  assert (H100 : PyNum.of_int 100 = Ok 100%float) by (vm_compute; reflexivity).
  assert (Hq : exists q vq, PyNum.truediv_int raw max_brightness = Ok q /\
                            repr q vq /\ vq <= 2).
  { destruct (Z.eq_dec raw 0) as [->|Hne].
    - exists zero, 0. split; [|split; [apply repr_zero|lra]].
      unfold PyNum.truediv_int.
      rewrite (proj2 (Z.eqb_neq max_brightness 0)) by lia.
      rewrite (proj2 (Z.ltb_ge max_brightness 0)) by lia. reflexivity.
    - destruct (truediv_int_pos raw max_brightness ltac:(lia) Hmax)
        as [k [E [x [Hr [Hx0 [Hxb Hok]]]]]].
      assert (HM : 0 < IZR max_brightness) by (apply IZR_lt; lia).
      assert (HR : IZR raw <= IZR max_brightness) by (apply IZR_le; lia).
      assert (Hx2 : x <= 2).
      { apply (Rmult_le_reg_r (IZR max_brightness)); lra. }
      assert (Hb : SpecFloat.bounded prec emax 4503599627370496 (-51) = true) by reflexivity.
      assert (Hv : F2R 4503599627370496 (-51) = 2).
      { unfold F2R. replace (-51)%Z with (-52 + 1)%Z by lia.
        rewrite bpow_succ.
        assert (H1 : 1 = 4503599627370496 * bpow (-52)) by exact (bpow_52 (-52)).
        lra. }
      pose proof (rounded_le_float x k E _ _ Hr Hb ltac:(rewrite Hv; assumption)) as Hk.
      rewrite Hv in Hk.
      destruct Hok as [f [Hf Hrf]].
      { apply Rle_lt_trans with 2; [assumption|].
        apply Rlt_le_trans with (bpow 2); [|apply bpow_le; lia].
        unfold bpow. simpl. lra. }
      exists f, (IZR k * bpow E). repeat split; assumption. }
  destruct Hq as [q [vq [Hq [Hrq Hvq]]]]. rewrite Hq. cbn [bind_result].
  pose proof (repr_nonneg _ _ Hrq) as Hq0.
  destruct (mul_float_const q 100%float vq 100 100 H100 repr_100 Hrq ltac:(lra))
    as [g [v [Hg [Hrg _]]]].
  rewrite Hg. cbn [bind_result].
  destruct (to_int_repr g v Hrg) as [n [Hn [_ Hn0]]].
  exists n. split; assumption.
Qed.

(** *** [math.modf] and the arithmetic of the ramp *)

Lemma modf_repr (x : float) (v : R) :
  repr x v ->
  exists vf vi,
    repr (fst (PyNum.modf x)) vf /\ vf <= 1 /\ repr (snd (PyNum.modf x)) vi.
Proof.
  intros Hx. unfold PyNum.modf. unfold repr in Hx.
  destruct (Prim2SF x) as [s|s| |[|] m e] eqn:Hsf; try contradiction.
  - exists 0, 0. cbn [fst snd]. unfold repr. rewrite Hsf. repeat split; lra.
  - destruct (Z.leb_spec 0 e) as [He|He]; cbn [fst snd PyNum.signed_zero].
    + exists 0, v. split; [apply repr_zero|]. split; [lra|].
      unfold repr. rewrite Hsf. assumption.
    + assert (Hp : (0 < 2 ^ (- e))%Z) by (apply Z.pow_pos_nonneg; lia).
      pose proof (Z.mod_pos_bound (Zpos m) (2 ^ (- e)) Hp) as Hmod.
      assert (Hip : (0 <= Zpos m / 2 ^ (- e) <= Zpos m)%Z).
      { split; [apply Z.div_pos; lia|]. apply Z.div_le_upper_bound; nia. }
      pose proof (repr_finite x m e Hsf) as [_ Hb].
      destruct (bounded_digits m e Hb) as [Hd _].
      destruct (Zdigits2_bounds (Zpos m) ltac:(lia)) as [_ Hm53].
      assert (Hm : (Zpos m < 2 ^ 53)%Z).
      { apply Z.lt_le_trans with (2 ^ Zdigits2 (Zpos m))%Z; [assumption|].
        apply Z.pow_le_mono_r; lia. }
      assert (Hfr : exists vf, repr (if (Zpos m mod 2 ^ (- e) =? 0)%Z then zero
                      else SF2Prim (binary_normalize prec emax
                                      (Zpos m mod 2 ^ (- e)) e false)) vf /\ vf <= 1).
      { destruct (Z.eqb_spec (Zpos m mod 2 ^ (- e)) 0) as [H0|H0].
        - exists 0. split; [apply repr_zero|lra].
        - destruct (Zpos m mod 2 ^ (- e))%Z as [|pf|pf] eqn:Hpf; try lia.
          destruct (binary_normalize_spec pf e) as [k [E [Hr Henc]]].
          assert (Hv1 : F2R pf e <= 1).
          { unfold F2R. pose proof (bpow_gt_0 e) as Hbe.
            assert (H1 : IZR (2 ^ (- e)) * bpow e = 1).
            { rewrite <- bpow_IZR by lia. rewrite <- bpow_plus.
              replace (- e + e)%Z with 0%Z by lia. reflexivity. }
            rewrite <- H1. apply Rmult_le_compat_r; [lra|]. apply IZR_le. lia. }
          pose proof (rounded_le_1 _ _ _ Hr Hv1) as Hk1.
          exists (IZR k * bpow E). split; [|assumption].
          apply encodes_SF2Prim_repr; [assumption|].
          apply Rle_lt_trans with 1; [assumption|].
          rewrite <- bpow_0. apply bpow_lt. lia. }
      assert (Hipr : exists vi, repr (if (Zpos m / 2 ^ (- e) =? 0)%Z then zero
                      else SF2Prim (binary_normalize prec emax
                                      (Zpos m / 2 ^ (- e)) 0 false)) vi).
      { destruct (Z.eqb_spec (Zpos m / 2 ^ (- e)) 0) as [H0|H0].
        - exists 0. apply repr_zero.
        - destruct (Zpos m / 2 ^ (- e))%Z as [|pi|pi] eqn:Hpi; try lia.
          destruct (binary_normalize_spec pi 0) as [k [E [Hr Henc]]].
          exists (IZR k * bpow E).
          apply encodes_SF2Prim_repr; [assumption|].
          apply (rounded_no_overflow _ _ _ Hr).
          unfold F2R. rewrite bpow_0, Rmult_1_r.
          apply Rle_trans with (bpow 53); [|apply bpow_le; lia].
          rewrite bpow_IZR by lia. apply IZR_le. lia. }
      destruct Hfr as [vf [Hf1 Hf2]]. destruct Hipr as [vi Hi].
      exists vf, vi. repeat split; assumption.
Qed.

Lemma of_int_25 : PyNum.of_int BRIGHTNESS_STEP = Ok 25%float.
Proof. vm_compute. reflexivity. Qed.

Lemma remainder_of_repr (decimal_steps : float) (v : R) :
  repr decimal_steps v -> v <= 1 ->
  exists k, BrightnessControl.remainder_of decimal_steps = Ok k /\ (0 <= k)%Z.
Proof.
  intros Hr Hv. unfold BrightnessControl.remainder_of.
  pose proof (repr_nonneg _ _ Hr) as Hv0.
  destruct (mul_float_const decimal_steps 25%float v 25 BRIGHTNESS_STEP
              of_int_25 repr_25 Hr ltac:(lra)) as [g [w [Hg [Hrg _]]]].
  rewrite Hg. cbn [bind_result].
  destruct (to_int_repr g w Hrg) as [n [Hn [_ Hn0]]].
  exists n. split; assumption.
Qed.

(** The arithmetic of a ramp over a distance [d] does not raise. *)
Lemma ramp_arith_ok (d : Z) :
  (0 <= d < 2 ^ 1026)%Z ->
  exists x n k,
    PyNum.truediv_int d BRIGHTNESS_STEP = Ok x /\
    PyNum.to_int (snd (PyNum.modf x)) = Ok n /\
    BrightnessControl.remainder_of (fst (PyNum.modf x)) = Ok k.
Proof.
  intros Hd.
  assert (Hx : exists x v, PyNum.truediv_int d BRIGHTNESS_STEP = Ok x /\ repr x v).
  { destruct (Z.eq_dec d 0) as [->|Hne].
    - exists zero, 0. split; [reflexivity|apply repr_zero].
    - destruct (truediv_int_pos d BRIGHTNESS_STEP ltac:(lia) ltac:(reflexivity))
        as [k [E [x [Hr [Hx0 [Hxb Hok]]]]]].
      destruct Hok as [f [Hf Hrf]].
      { apply (rounded_no_overflow _ _ _ Hr).
        assert (HD : IZR d <= bpow 1026 - 1).
        { rewrite bpow_IZR by lia. rewrite <- minus_IZR. apply IZR_le. lia. }
        change (IZR BRIGHTNESS_STEP) with 25 in Hxb.
        replace 1026%Z with (1023 + 3)%Z in HD by lia.
        rewrite bpow_plus in HD.
        replace (bpow 3) with 8 in HD by (unfold bpow; simpl; lra).
        pose proof (bpow_le 1 1023 ltac:(lia)) as H2.
        replace (bpow 1) with 2 in H2 by (unfold bpow; simpl; lra). lra. }
      exists f, (IZR k * bpow E). split; assumption. }
  destruct Hx as [x [v [Hx Hrx]]].
  destruct (modf_repr x v Hrx) as [vf [vi [Hf [Hf1 Hi]]]].
  destruct (to_int_repr _ _ Hi) as [n [Hn _]].
  destruct (remainder_of_repr _ _ Hf Hf1) as [k [Hk _]].
  exists x, n, k. repeat split; assumption.
Qed.

(** *** Comparisons of primitive floats *)

Lemma Prim2SF_1 : Prim2SF 1%float = S754_finite false 4503599627370496 (-52).
Proof. reflexivity. Qed.

Lemma Prim2SF_100 : Prim2SF 100%float = S754_finite false 7036874417766400 (-46).
Proof. reflexivity. Qed.

Lemma F2R_1 : F2R 4503599627370496 (-52) = 1.
Proof. pose proof repr_1 as H. unfold repr in H. rewrite Prim2SF_1 in H. lra. Qed.

Lemma F2R_100 : F2R 7036874417766400 (-46) = 100.
Proof. pose proof repr_100 as H. unfold repr in H. rewrite Prim2SF_100 in H. lra. Qed.

Lemma repr_pos_finite (f : float) (v : R) :
  repr f v -> 0 < v ->
  exists m e, Prim2SF f = S754_finite false m e /\ v = F2R m e /\
              SpecFloat.bounded prec emax m e = true.
Proof.
  unfold repr. intros H Hv. pose proof (Prim2SF_valid f) as Hval.
  destruct (Prim2SF f) as [s|s| |[|] m e]; try contradiction.
  - lra.
  - exists m, e. repeat split; assumption.
Qed.

Lemma leb_finite_spec (f g : float) (mf : positive) (ef : Z) (mg : positive) (eg : Z) :
  Prim2SF f = S754_finite false mf ef ->
  Prim2SF g = S754_finite false mg eg ->
  ((f <=? g)%float = true <-> F2R mf ef <= F2R mg eg).
Proof.
  intros Hf Hg. rewrite leb_spec, Hf, Hg. unfold SFleb.
  pose proof (SFcompare_finite_spec mf ef mg eg
                (proj2 (repr_finite f mf ef Hf)) (proj2 (repr_finite g mg eg Hg))) as H.
  destruct (SFcompare _ _) as [[| |]|]; split; intros H'; try reflexivity;
    try discriminate; try lra; contradiction.
Qed.

Lemma ltb_finite_spec (f g : float) (mf : positive) (ef : Z) (mg : positive) (eg : Z) :
  Prim2SF f = S754_finite false mf ef ->
  Prim2SF g = S754_finite false mg eg ->
  ((f <? g)%float = true <-> F2R mf ef < F2R mg eg).
Proof.
  intros Hf Hg. rewrite ltb_spec, Hf, Hg. unfold SFltb.
  pose proof (SFcompare_finite_spec mf ef mg eg
                (proj2 (repr_finite f mf ef Hf)) (proj2 (repr_finite g mg eg Hg))) as H.
  destruct (SFcompare _ _) as [[| |]|]; split; intros H'; try reflexivity;
    try discriminate; try lra; contradiction.
Qed.

(** A float between 1 and 100 is finite and positive. *)
Lemma float_in_range (f : float) :
  (1 <=? f)%float = true -> (f <=? 100)%float = true ->
  exists m e, Prim2SF f = S754_finite false m e /\ 1 <= F2R m e <= 100.
Proof.
  intros H1 H2.
  pose proof H1 as H1'. pose proof H2 as H2'.
  rewrite leb_spec, Prim2SF_1 in H1'. rewrite leb_spec, Prim2SF_100 in H2'.
  destruct (Prim2SF f) as [s|s| |s m e] eqn:Hf.
  - unfold SFleb, SFcompare in H1'. discriminate.
  - destruct s; unfold SFleb, SFcompare in H1', H2'; discriminate.
  - unfold SFleb, SFcompare in H1'. discriminate.
  - destruct s.
    + unfold SFleb, SFcompare in H1'. discriminate.
    + exists m, e. split; [reflexivity|].
      pose proof (proj1 (leb_finite_spec 1%float f _ _ _ _ Prim2SF_1 Hf) H1) as A.
      pose proof (proj1 (leb_finite_spec f 100%float _ _ _ _ Hf Prim2SF_100) H2) as B.
      rewrite F2R_1 in A. rewrite F2R_100 in B. split; assumption.
Qed.

Lemma in_range_value (v : number) (x : R) :
  BrightnessControl.in_range v -> number_value v x -> 1 <= x <= 100.
Proof.
  destruct v as [z|f]; cbn [BrightnessControl.in_range number_value].
  - intros [H1 H2] ->. split; apply IZR_le; assumption.
  - intros [H1 H2] Hr. destruct (float_in_range f H1 H2) as [m [e [Hf Hv]]].
    unfold repr in Hr. rewrite Hf in Hr. subst x. assumption.
Qed.

Lemma in_range_has_value (v : number) : BrightnessControl.in_range v -> exists x, number_value v x.
Proof.
  destruct v as [z|f]; cbn [BrightnessControl.in_range number_value].
  - intros _. exists (IZR z). reflexivity.
  - intros [H1 H2]. destruct (float_in_range f H1 H2) as [m [e [Hf Hv]]].
    exists (F2R m e). unfold repr. rewrite Hf. reflexivity.
Qed.

Lemma validate_in_range (v : number) :
  BrightnessControl.in_range v ->
  BrightnessControl.validate_and_sanitize_brightness_value (Num v) = Ok v.
Proof.
  destruct v as [z|f]; cbn [BrightnessControl.in_range BrightnessControl.validate_and_sanitize_brightness_value].
  - intros [H1 H2].
    rewrite (proj2 (Z.ltb_ge z 1)) by lia.
    destruct (Z.gtb_spec z 100); [lia|reflexivity].
  - intros [H1 H2]. destruct (float_in_range f H1 H2) as [m [e [Hf Hv]]].
    destruct (f <? 1)%float eqn:Hlt.
    { apply (ltb_finite_spec f 1%float _ _ _ _ Hf Prim2SF_1) in Hlt.
      rewrite F2R_1 in Hlt. lra. }
    destruct (100 <? f)%float eqn:Hgt.
    { apply (ltb_finite_spec 100%float f _ _ _ _ Prim2SF_100 Hf) in Hgt.
      rewrite F2R_100 in Hgt. lra. }
    reflexivity.
Qed.

Lemma div_100_check_all :
  forallb div_100_check (map Z.of_nat (seq 1 100)) = true.
Proof. vm_compute. reflexivity. Qed.

Lemma div_100_int (z : Z) :
  (1 <= z <= 100)%Z ->
  exists fz, PyNum.of_int z = Ok fz /\
             PyNum.truediv_int z 100 = PyNum.truediv_float_int fz 100.
Proof.
  intros Hz. pose proof div_100_check_all as H.
  rewrite forallb_forall in H. specialize (H z).
  assert (Hin : In z (map Z.of_nat (seq 1 100))).
  { apply in_map_iff. exists (Z.to_nat z). split; [lia|]. apply in_seq. lia. }
  apply H in Hin. unfold div_100_check in Hin.
  destruct (PyNum.of_int z) as [fz|]; [|discriminate].
  exists fz. split; [reflexivity|].
  destruct (PyNum.truediv_int z 100) as [q|]; [|discriminate].
  destruct (PyNum.truediv_float_int fz 100) as [q'|]; [|discriminate].
  apply FloatAxioms.Leibniz.eqb_spec in Hin. subst. reflexivity.
Qed.

Lemma of_int_100 : PyNum.of_int 100 = Ok 100%float.
Proof. vm_compute. reflexivity. Qed.

Lemma truediv_float_100 (f : float) (v : R) :
  repr f v -> v <= 100 ->
  exists q k E,
    PyNum.truediv_float_int f 100 = Ok q /\ rounded (v / 100) k E /\
    repr q (IZR k * bpow E) /\ IZR k * bpow E <= 1.
Proof.
  intros Hr Hv. unfold PyNum.truediv_float_int. rewrite of_int_100.
  cbn [bind_result]. change (100 =? 0)%float with false. cbv iota.
  destruct (repr_div f 100%float v 100 Hr repr_100 ltac:(lra)) as [k [E [Hrd Hok]]].
  pose proof (rounded_le_1 _ _ _ Hrd ltac:(lra)) as H1.
  exists (f / 100)%float, k, E.
  split; [reflexivity|]. split; [assumption|]. split; [|assumption].
  apply Hok. apply Rle_lt_trans with 1; [assumption|].
  rewrite <- bpow_0. apply bpow_lt. lia.
Qed.

Lemma div_100_spec (v : number) (x : R) :
  BrightnessControl.in_range v -> number_value v x ->
  exists q k E,
    BrightnessControl.div_100 v = Ok q /\ rounded (x / 100) k E /\
    repr q (IZR k * bpow E) /\ IZR k * bpow E <= 1.
Proof.
  intros Hin Hval. pose proof (in_range_value v x Hin Hval) as Hx.
  destruct v as [z|f]; cbn [BrightnessControl.in_range number_value BrightnessControl.div_100] in *.
  - subst x. destruct (div_100_int z Hin) as [fz [Hfz Heq]].
    destruct (of_int_exact z ltac:(change (2 ^ 53)%Z with 9007199254740992%Z; lia))
      as [fz' [Hfz' Hr]].
    rewrite Hfz in Hfz'. injection Hfz' as <-.
    rewrite Heq. apply truediv_float_100; [assumption|lra].
  - apply truediv_float_100; [assumption|lra].
Qed.

(** What [percent_to_internal] computes on a validated percentage, for a
    bound that is a float: two roundings and a truncation. *)
Lemma percent_to_internal_spec (max_brightness : Z) (v : number) (x : R) :
  (0 < max_brightness <= 2 ^ 53)%Z -> BrightnessControl.in_range v -> number_value v x ->
  exists n k1 E1 k2 E2,
    BrightnessControl.percent_to_internal max_brightness (Num v) = Ok n /\
    rounded (x / 100) k1 E1 /\
    rounded (IZR k1 * bpow E1 * IZR max_brightness) k2 E2 /\
    IZR n <= IZR k2 * bpow E2 < IZR n + 1 /\
    (0 <= n <= max_brightness)%Z.
Proof.
  intros Hmax Hin Hval.
  unfold BrightnessControl.percent_to_internal.
  rewrite (validate_in_range v Hin). cbn [bind_result].
  destruct (div_100_spec v x Hin Hval) as [q [k1 [E1 [Hq [Hr1 [Hrq Hq1]]]]]].
  rewrite Hq. cbn [bind_result].
  destruct (of_int_exact max_brightness ltac:(lia)) as [M [HM HrM]].
  unfold PyNum.mul_float_int. rewrite HM. cbn [bind_result].
  destruct (repr_mul q M _ _ Hrq HrM) as [k2 [E2 [Hr2 Hok]]].
  assert (HMpos : 0 < IZR max_brightness) by (apply IZR_lt; lia).
  pose proof (repr_nonneg _ _ Hrq) as Hq0.
  assert (Hprod : IZR k1 * bpow E1 * IZR max_brightness <= IZR max_brightness).
  { rewrite <- (Rmult_1_l (IZR max_brightness)) at 2.
    apply Rmult_le_compat_r; lra. }
  destruct (repr_pos_finite M _ HrM HMpos) as [mM [eM [HMsf [HMv HMb]]]].
  pose proof (rounded_le_float _ _ _ _ _ Hr2 HMb ltac:(rewrite <- HMv; assumption)) as Hle.
  rewrite <- HMv in Hle.
  assert (Hrr : repr (q * M)%float (IZR k2 * bpow E2)).
  { apply Hok. apply Rle_lt_trans with (IZR max_brightness); [assumption|].
    apply Rle_lt_trans with (bpow 53).
    - rewrite bpow_IZR by lia. apply IZR_le. lia.
    - apply bpow_lt. lia. }
  destruct (to_int_repr _ _ Hrr) as [n [Hn [Hnv Hn0]]].
  exists n, k1, E1, k2, E2.
  split; [assumption|]. split; [assumption|]. split; [assumption|].
  split; [assumption|]. split; [assumption|].
  apply le_IZR. lra.
Qed.

(** [percent_to_internal] is monotone. *)
Lemma percent_to_internal_mono (max_brightness : Z) (v1 v2 : number) (x1 x2 : R) :
  (0 < max_brightness <= 2 ^ 53)%Z ->
  BrightnessControl.in_range v1 -> BrightnessControl.in_range v2 -> number_value v1 x1 -> number_value v2 x2 ->
  x1 <= x2 ->
  exists n1 n2,
    BrightnessControl.percent_to_internal max_brightness (Num v1) = Ok n1 /\
    BrightnessControl.percent_to_internal max_brightness (Num v2) = Ok n2 /\
    (0 <= n1 <= n2)%Z /\ (n2 <= max_brightness)%Z.
Proof.
  intros Hmax Hin1 Hin2 Hv1 Hv2 Hx.
  destruct (percent_to_internal_spec max_brightness v1 x1 Hmax Hin1 Hv1)
    as [n1 [k1 [E1 [k2 [E2 [Hn1 [Hr1 [Hr2 [Ht1 Hb1]]]]]]]]].
  destruct (percent_to_internal_spec max_brightness v2 x2 Hmax Hin2 Hv2)
    as [n2 [k1' [E1' [k2' [E2' [Hn2 [Hr1' [Hr2' [Ht2 Hb2]]]]]]]]].
  exists n1, n2. split; [assumption|]. split; [assumption|].
  assert (HMpos : 0 < IZR max_brightness) by (apply IZR_lt; lia).
  assert (Hq : IZR k1 * bpow E1 <= IZR k1' * bpow E1').
  { apply (rounded_le (x1 / 100) (x2 / 100)); [lra|assumption|assumption]. }
  assert (Hp : IZR k1 * bpow E1 * IZR max_brightness
               <= IZR k1' * bpow E1' * IZR max_brightness).
  { apply Rmult_le_compat_r; lra. }
  pose proof (rounded_le _ _ _ _ _ _ Hp Hr2 Hr2') as Hr.
  assert (Hlt : IZR n1 < IZR (n2 + 1)) by (rewrite plus_IZR; lra).
  apply lt_IZR in Hlt. lia.
Qed.

(** The order of validated percentages is that of the reals they stand
    for. *)
Lemma le_value (a b : number) (x y : R) :
  BrightnessControl.in_range a -> BrightnessControl.in_range b -> number_value a x -> number_value b y ->
  PyNum.le a b = true -> x <= y.
Proof.
  intros Ha Hb Hx Hy Hle.
  assert (Hscale : forall (z : Z) (m : positive) (e : Z),
             (e < 0)%Z ->
             IZR (z * 2 ^ (- e)) * bpow e = IZR z).
  { intros z m e He. rewrite mult_IZR, <- bpow_IZR by lia.
    rewrite Rmult_assoc, <- bpow_plus.
    replace (- e + e)%Z with 0%Z by lia. rewrite bpow_0. ring. }
  destruct a as [za|fa], b as [zb|fb];
    cbn [BrightnessControl.in_range number_value PyNum.le] in *.
  - subst. apply IZR_le. apply Z.leb_le. assumption.
  - destruct Hb as [H1 H2]. destruct (float_in_range fb H1 H2) as [m [e [Hf Hv]]].
    unfold repr in Hy. rewrite Hf in Hy. subst x y.
    unfold PyNum.le_int_float in Hle. rewrite Hf in Hle. unfold F2R.
    destruct (Z.leb_spec 0 e) as [He|He]; apply Z.leb_le in Hle.
    + rewrite bpow_IZR, <- mult_IZR by assumption. apply IZR_le. assumption.
    + rewrite <- (Hscale za m e He). pose proof (bpow_gt_0 e).
      apply Rmult_le_compat_r; [lra|]. apply IZR_le. assumption.
  - destruct Ha as [H1 H2]. destruct (float_in_range fa H1 H2) as [m [e [Hf Hv]]].
    unfold repr in Hx. rewrite Hf in Hx. subst x y.
    unfold PyNum.le_float_int in Hle. rewrite Hf in Hle. unfold F2R.
    destruct (Z.leb_spec 0 e) as [He|He]; apply Z.leb_le in Hle.
    + rewrite bpow_IZR, <- mult_IZR by assumption. apply IZR_le. assumption.
    + rewrite <- (Hscale zb m e He). pose proof (bpow_gt_0 e).
      apply Rmult_le_compat_r; [lra|]. apply IZR_le. assumption.
  - destruct Ha as [Ha1 Ha2]. destruct (float_in_range fa Ha1 Ha2) as [ma [ea [Hfa Hva]]].
    destruct Hb as [Hb1 Hb2]. destruct (float_in_range fb Hb1 Hb2) as [mb [eb [Hfb Hvb]]].
    unfold repr in Hx, Hy. rewrite Hfa in Hx. rewrite Hfb in Hy. subst x y.
    apply (leb_finite_spec fa fb _ _ _ _ Hfa Hfb). assumption.
Qed.

(** *** Sizes *)

Lemma to_int_bound (r : float) (t : Z) :
  PyNum.to_int r = Ok t -> (Z.abs t < 2 ^ 1024)%Z.
Proof.
  unfold PyNum.to_int. pose proof (Prim2SF_valid r) as Hv.
  destruct (Prim2SF r) as [s|s| |s m e]; try discriminate.
  - intros H. injection H as <-. cbn. lia.
  - intros H. injection H as <-.
    destruct (bounded_digits m e Hv) as [Hd [He _]].
    destruct (Zdigits2_bounds (Zpos m) ltac:(lia)) as [_ Hm].
    assert (Hm53 : (Zpos m < 2 ^ 53)%Z).
    { apply Z.lt_le_trans with (2 ^ Zdigits2 (Zpos m))%Z; [assumption|].
      apply Z.pow_le_mono_r; lia. }
    assert (Ha : (0 <= (if (0 <=? e)%Z then Zpos m * 2 ^ e else Zpos m / 2 ^ (- e))
                  < 2 ^ 1024)%Z).
    { destruct (Z.leb_spec 0 e) as [H0|H0].
      - assert (Hp : (0 < 2 ^ e)%Z) by (apply Z.pow_pos_nonneg; lia).
        assert (Hpe : (2 ^ e <= 2 ^ 971)%Z) by (apply Z.pow_le_mono_r; lia).
        replace 1024%Z with (53 + 971)%Z by lia. rewrite Z.pow_add_r by lia.
        split; [lia|].
        apply Z.lt_le_trans with (2 ^ 53 * 2 ^ e)%Z.
        + apply Z.mul_lt_mono_pos_r; assumption.
        + apply Z.mul_le_mono_nonneg_l; [lia|assumption].
      - assert (Hp : (0 < 2 ^ (- e))%Z) by (apply Z.pow_pos_nonneg; lia).
        split; [apply Z.div_pos; lia|].
        apply Z.le_lt_trans with (Zpos m).
        + apply Z.div_le_upper_bound; [assumption|]. nia.
        + apply Z.lt_le_trans with (2 ^ 53)%Z; [assumption|].
          apply Z.pow_le_mono_r; lia. }
    unfold PyNum.trunc_finite. destruct s; lia.
Qed.

Lemma of_int_ok_bound (z : Z) (f : float) :
  (0 < z)%Z -> PyNum.of_int z = Ok f -> (z < 2 ^ 1024)%Z.
Proof.
  intros Hz Hf.
  destruct (Z_lt_le_dec z (2 ^ 1024)) as [|Hge]; [assumption|exfalso].
  destruct (of_int_pos z Hz) as [k [E [Hr [_ Hov]]]].
  assert (Hx : bpow 1024 <= IZR z).
  { rewrite bpow_IZR by lia. apply IZR_le. assumption. }
  assert (HE : (972 <= E)%Z).
  { pose proof (cexp_ok_upper _ _ (proj1 Hr)) as Hu.
    assert (Hlt : bpow 1024 < bpow (E + 53)) by lra.
    apply bpow_lt_inv in Hlt. lia. }
  pose proof (rounded_k_lower _ _ _ Hr ltac:(lia)) as Hk.
  rewrite Hov in Hf; [discriminate|].
  apply IZR_le in Hk.
  pose proof (bpow_le 972 E HE) as Hb. pose proof (bpow_gt_0 972) as Hb0.
  replace 1024%Z with (972 + 52)%Z by lia. rewrite bpow_52.
  apply Rmult_le_compat; lra.
Qed.

Lemma percent_to_internal_bound (max_brightness : Z) (p : pyval) (t : Z) :
  BrightnessControl.percent_to_internal max_brightness p = Ok t ->
  (Z.abs t < 2 ^ 1024)%Z /\ (max_brightness < 2 ^ 1024)%Z.
Proof.
  unfold BrightnessControl.percent_to_internal, PyNum.mul_float_int.
  destruct (BrightnessControl.validate_and_sanitize_brightness_value p) as [v|];
    [|discriminate].
  cbn [bind_result].
  destruct (BrightnessControl.div_100 v) as [q|]; [|discriminate].
  cbn [bind_result].
  destruct (PyNum.of_int max_brightness) as [M|] eqn:HM; [|discriminate].
  cbn [bind_result]. intros Ht. split.
  - apply (to_int_bound _ _ Ht).
  - destruct (Z_lt_le_dec 0 max_brightness) as [Hpos|Hneg].
    + apply (of_int_ok_bound _ _ Hpos HM).
    + assert (0 < 2 ^ 1024)%Z by (apply Z.pow_pos_nonneg; lia). lia.
Qed.

Lemma above_100_not_below_1 (f : float) :
  (100 <? f)%float = true -> (f <? 1)%float = false.
Proof.
  intros H. pose proof H as H'. rewrite ltb_spec, Prim2SF_100 in H'.
  destruct (Prim2SF f) as [s|s| |s m e] eqn:Hf.
  - unfold SFltb, SFcompare in H'. discriminate.
  - rewrite ltb_spec, Hf, Prim2SF_1.
    destruct s; unfold SFltb, SFcompare in H' |- *; [discriminate|reflexivity].
  - unfold SFltb, SFcompare in H'. discriminate.
  - destruct s; [unfold SFltb, SFcompare in H'; discriminate|].
    apply (ltb_finite_spec 100%float f _ _ _ _ Prim2SF_100 Hf) in H.
    rewrite F2R_100 in H.
    destruct (f <? 1)%float eqn:Hlt; [|reflexivity].
    apply (ltb_finite_spec f 1%float _ _ _ _ Hf Prim2SF_1) in Hlt.
    rewrite F2R_1 in Hlt. lra.
Qed.

(** *** The quotient of two integers, located between dyadic numbers

    [truediv_int a b] rounds a number [x] that lies on the same side as
    [a / b] of every multiple of [2^-j], for [j] up to the number of bits
    the quotient is computed to. *)
Lemma truediv_int_grid (a b : Z) :
  (0 < a)%Z -> (0 < b)%Z ->
  exists k E x,
    rounded x k E /\ 0 < x /\
    (forall j c : Z,
        (0 <= j <= Z.max 0 (56 + Z.log2 b - Z.log2 a))%Z ->
        (a * 2 ^ j <= c * b)%Z -> x <= IZR c * bpow (- j)) /\
    (forall j c : Z,
        (0 <= j <= Z.max 0 (56 + Z.log2 b - Z.log2 a))%Z ->
        (c * b <= a * 2 ^ j)%Z -> IZR c * bpow (- j) <= x) /\
    (IZR k * bpow E < bpow 1024 ->
     exists f, PyNum.truediv_int a b = Ok f /\ repr f (IZR k * bpow E)).
Proof.
  intros Ha Hb. unfold PyNum.truediv_int.
  rewrite (proj2 (Z.eqb_neq b 0)) by lia.
  rewrite (proj2 (Z.eqb_neq a 0)) by lia.
  rewrite (proj2 (Z.ltb_ge a 0)) by lia.
  rewrite (proj2 (Z.ltb_ge b 0)) by lia.
  cbn [xorb]. rewrite !Z.abs_eq by lia.
  set (k0 := Z.max 0 (56 + Z.log2 b - Z.log2 a)).
  assert (Hk0 : (0 <= k0)%Z) by (unfold k0; lia).
  assert (Hp : (0 < 2 ^ k0)%Z) by (apply Z.pow_pos_nonneg; lia).
  pose proof (Z_div_mod (a * 2 ^ k0) b ltac:(lia)) as Hdiv.
  destruct (Z.div_eucl (a * 2 ^ k0) b) as [q r]. destruct Hdiv as [Hqr Hr].
  assert (Hq : (1 <= q)%Z).
  { destruct (Z.log2_spec a Ha) as [Hla _]. destruct (Z.log2_spec b Hb) as [_ Hlb].
    pose proof (Z.log2_nonneg a). pose proof (Z.log2_nonneg b).
    assert (H1 : (2 ^ Z.succ (Z.log2 b) <= 2 ^ (Z.log2 a + k0))%Z)
      by (apply Z.pow_le_mono_r; unfold k0; lia).
    rewrite Z.pow_add_r in H1 by lia.
    assert (b < a * 2 ^ k0)%Z by nia. nia. }
  remember (2 * q + (if (r =? 0)%Z then 0 else 1))%Z as m eqn:Hm.
  assert (Hm0 : (0 < m)%Z) by (subst m; destruct (r =? 0)%Z; lia).
  destruct m as [|pm|pm]; try lia.
  destruct (binary_normalize_spec pm (- k0 - 1)) as [k [E [Hr' He]]].
  exists k, E, (F2R pm (- k0 - 1)). split; [assumption|].
  split; [apply F2R_pos|].
  assert (Hgrid : forall j, (0 <= j <= k0)%Z ->
            bpow (- j) = IZR (2 * 2 ^ (k0 - j)) * bpow (- k0 - 1)).
  { intros j Hj. rewrite mult_IZR, <- bpow_IZR by lia.
    replace (- j)%Z with ((k0 - j) + (- k0 - 1) + 1)%Z by lia.
    rewrite bpow_succ, bpow_plus. ring. }
  pose proof (bpow_gt_0 (- k0 - 1)) as Hpos.
  split; [|split].
  - intros j c Hj Hc. unfold F2R. rewrite (Hgrid j Hj).
    rewrite <- Rmult_assoc, <- mult_IZR.
    apply Rmult_le_compat_r; [lra|]. apply IZR_le.
    assert (Hpj : (0 < 2 ^ (k0 - j))%Z) by (apply Z.pow_pos_nonneg; lia).
    assert (Hsplit : (2 ^ k0 = 2 ^ j * 2 ^ (k0 - j))%Z).
    { rewrite <- Z.pow_add_r by lia. f_equal. lia. }
    assert (Hle : (b * q + r <= c * 2 ^ (k0 - j) * b)%Z).
    { rewrite <- Hqr, Hsplit. nia. }
    rewrite Hm. destruct (Z.eqb_spec r 0) as [Hr0|Hr0].
    + assert (q <= c * 2 ^ (k0 - j))%Z by nia. lia.
    + assert (q < c * 2 ^ (k0 - j))%Z by nia. lia.
  - intros j c Hj Hc. unfold F2R. rewrite (Hgrid j Hj).
    rewrite <- Rmult_assoc, <- mult_IZR.
    apply Rmult_le_compat_r; [lra|]. apply IZR_le.
    assert (Hpj : (0 < 2 ^ (k0 - j))%Z) by (apply Z.pow_pos_nonneg; lia).
    assert (Hsplit : (2 ^ k0 = 2 ^ j * 2 ^ (k0 - j))%Z).
    { rewrite <- Z.pow_add_r by lia. f_equal. lia. }
    assert (Hle : (c * 2 ^ (k0 - j) * b <= b * q + r)%Z).
    { rewrite <- Hqr, Hsplit. nia. }
    assert (c * 2 ^ (k0 - j) <= q)%Z by nia.
    rewrite Hm. destruct (r =? 0)%Z; lia.
  - intros Hlt. apply (encodes_finite_or_overflow k E _ He Hlt).
Qed.

(** *** The percentage of a raw value *)

Lemma internal_to_percent_zero (max_brightness : Z) :
  (0 < max_brightness)%Z ->
  BrightnessControl.internal_to_percent max_brightness 0 = Ok 0%Z.
Proof.
  intros Hmax. unfold BrightnessControl.internal_to_percent, PyNum.truediv_int.
  rewrite (proj2 (Z.eqb_neq max_brightness 0)) by lia.
  rewrite (proj2 (Z.ltb_ge max_brightness 0)) by lia.
  vm_compute. reflexivity.
Qed.

Lemma truediv_int_le_1 (a b : Z) :
  (0 < a <= b)%Z ->
  exists q vq, PyNum.truediv_int a b = Ok q /\ repr q vq /\ vq <= 1 /\
               (a = b -> vq = 1).
Proof.
  intros Hab.
  destruct (truediv_int_grid a b ltac:(lia) ltac:(lia))
    as [k [E [x [Hr [Hx0 [Hup [Hlo Hok]]]]]]].
  assert (Hx1 : x <= 1).
  { pose proof (Hup 0%Z 1%Z ltac:(lia) ltac:(lia)) as H.
    cbn [Z.opp] in H. rewrite bpow_0 in H. lra. }
  pose proof (rounded_le_1 _ _ _ Hr Hx1) as Hk1.
  destruct Hok as [f [Hf Hrf]].
  { apply Rle_lt_trans with 1; [assumption|].
    rewrite <- bpow_0. apply bpow_lt. lia. }
  exists f, (IZR k * bpow E). split; [assumption|]. split; [assumption|].
  split; [assumption|].
  intros ->.
  assert (Hx1' : 1 <= x).
  { pose proof (Hlo 0%Z 1%Z ltac:(lia) ltac:(lia)) as H.
    cbn [Z.opp] in H. rewrite bpow_0 in H. lra. }
  assert (Hb1 : SpecFloat.bounded prec emax 4503599627370496 (-52) = true) by reflexivity.
  pose proof (rounded_ge_float x k E _ _ Hr Hb1 ltac:(rewrite F2R_1; assumption)) as Hge.
  rewrite F2R_1 in Hge. lra.
Qed.

Lemma internal_to_percent_range (max_brightness raw : Z) :
  (0 < max_brightness)%Z -> (0 <= raw <= max_brightness)%Z ->
  exists pct,
    BrightnessControl.internal_to_percent max_brightness raw = Ok pct /\
    (0 <= pct <= 100)%Z /\ (raw = max_brightness -> pct = 100%Z).
Proof.
  intros Hmax Hraw.
  destruct (Z.eq_dec raw 0) as [->|Hne].
  { exists 0%Z. split; [apply internal_to_percent_zero; assumption|].
    split; lia. }
  destruct (truediv_int_le_1 raw max_brightness ltac:(lia))
    as [q [vq [Hq [Hrq [Hvq Heq]]]]].
  unfold BrightnessControl.internal_to_percent. rewrite Hq. cbn [bind_result].
  pose proof (repr_nonneg _ _ Hrq) as Hq0.
  destruct (mul_float_const q 100%float vq 100 100 of_int_100 repr_100 Hrq ltac:(lra))
    as [g [v [Hg [Hrg [k [E [Hr Hv]]]]]]].
  rewrite Hg. cbn [bind_result].
  destruct (to_int_repr g v Hrg) as [n [Hn [Hnv Hn0]]].
  assert (Hb100 : SpecFloat.bounded prec emax 7036874417766400 (-46) = true) by reflexivity.
  assert (Hv100 : v <= 100).
  { rewrite Hv. rewrite <- F2R_100.
    apply (rounded_le_float _ _ _ _ _ Hr Hb100). rewrite F2R_100. lra. }
  exists n. split; [assumption|]. split.
  - split; [assumption|]. apply le_IZR. lra.
  - intros Hfull. rewrite (Heq Hfull) in Hr.
    assert (Hge : 100 <= v).
    { rewrite Hv. rewrite <- F2R_100.
      apply (rounded_ge_float _ _ _ _ _ Hr Hb100). rewrite F2R_100. lra. }
    assert (H1 : (n <= 100)%Z) by (apply le_IZR; lra).
    assert (H2 : (100 < n + 1)%Z) by (apply lt_IZR; rewrite plus_IZR; lra).
    lia.
Qed.

(** *** Full brightness *)

Lemma rounded_value_unique (x : R) (k1 E1 k2 E2 : Z) :
  rounded x k1 E1 -> rounded x k2 E2 -> IZR k1 * bpow E1 = IZR k2 * bpow E2.
Proof.
  intros H1 H2. apply Rle_antisym.
  - apply (rounded_le x x); [lra|assumption|assumption].
  - apply (rounded_le x x); [lra|assumption|assumption].
Qed.

(** The product of [1.0] and a float that holds a positive integer is that
    integer. *)
Lemma mul_1_to_int (f : float) (z : Z) :
  (0 < z)%Z -> repr f (IZR z) -> PyNum.to_int (1 * f)%float = Ok z.
Proof.
  intros Hz Hf.
  destruct (repr_mul 1%float f 1 (IZR z) repr_1 Hf) as [k [E [Hr Hok]]].
  assert (Hv : IZR k * bpow E = IZR z).
  { pose proof Hf as Hf'. unfold repr in Hf'.
    destruct (Prim2SF f) as [s|s| |[|] m e] eqn:Hsf; try contradiction.
    - apply eq_IZR in Hf'. lia.
    - destruct (repr_finite f m e Hsf) as [_ Hb].
      pose proof (bounded_rounded m e Hb) as Hr'.
      rewrite <- Hf' in Hr'. rewrite Rmult_1_l in Hr.
      rewrite (rounded_value_unique _ _ _ _ _ Hr Hr'). symmetry. exact Hf'. }
  assert (Hlt : IZR k * bpow E < bpow 1024).
  { rewrite Hv. pose proof Hf as Hf'. unfold repr in Hf'.
    destruct (Prim2SF f) as [s|s| |[|] m e] eqn:Hsf; try contradiction.
    - apply eq_IZR in Hf'. lia.
    - destruct (repr_finite f m e Hsf) as [_ Hb]. rewrite Hf'.
      apply (bounded_lt_bpow_1024 m e Hb). }
  destruct (to_int_repr _ _ (Hok Hlt)) as [n [Hn [[Hn1 Hn2] _]]].
  rewrite Hn. f_equal. rewrite Hv in Hn1, Hn2.
  apply le_IZR in Hn1. rewrite <- plus_IZR in Hn2. apply lt_IZR in Hn2. lia.
Qed.

Lemma percent_to_internal_full (max_brightness : Z) :
  (0 < max_brightness <= 2 ^ 53)%Z ->
  BrightnessControl.percent_to_internal max_brightness (Num (Int 100)) =
    Ok max_brightness /\
  BrightnessControl.percent_to_internal max_brightness (Num (Float 100)) =
    Ok max_brightness.
Proof.
  intros Hmax.
  destruct (of_int_exact max_brightness ltac:(lia)) as [f [Hf Hrf]].
  assert (Hd1 : BrightnessControl.div_100 (Int 100) = Ok 1%float)
    by (vm_compute; reflexivity).
  assert (Hd2 : BrightnessControl.div_100 (Float 100) = Ok 1%float)
    by (vm_compute; reflexivity).
  assert (Hv1 : BrightnessControl.validate_and_sanitize_brightness_value (Num (Int 100))
                = Ok (Int 100)) by reflexivity.
  assert (Hv2 : BrightnessControl.validate_and_sanitize_brightness_value (Num (Float 100))
                = Ok (Float 100)) by reflexivity.
  unfold BrightnessControl.percent_to_internal.
  rewrite Hv1, Hv2. cbn [bind_result]. rewrite Hd1, Hd2. cbn [bind_result].
  unfold PyNum.mul_float_int. rewrite Hf. cbn [bind_result].
  rewrite (mul_1_to_int f max_brightness ltac:(lia) Hrf). split; reflexivity.
Qed.

(** *** Validation of every number *)

Lemma validate_not_nan (n : number) :
  not_nan n ->
  exists v,
    BrightnessControl.validate_and_sanitize_brightness_value (Num n) = Ok v /\
    BrightnessControl.in_range v.
Proof.
  destruct n as [z|f]; cbn [not_nan BrightnessControl.validate_and_sanitize_brightness_value].
  - intros _. destruct (Z.ltb_spec z 1).
    + exists (Int 1). split; [reflexivity|]. cbn. lia.
    + destruct (Z.gtb_spec z 100).
      * exists (Int 100). split; [reflexivity|]. cbn. lia.
      * exists (Int z). split; [reflexivity|]. cbn. lia.
  - intros Hnan. destruct (f <? 1)%float eqn:H1.
    { exists (Int 1). split; [reflexivity|]. cbn. lia. }
    destruct (100 <? f)%float eqn:H100.
    { exists (Int 100). split; [reflexivity|]. cbn. lia. }
    exists (Float f). split; [reflexivity|]. cbn [BrightnessControl.in_range].
    pose proof H1 as H1'. pose proof H100 as H100'.
    rewrite ltb_spec, Prim2SF_1 in H1'. rewrite ltb_spec, Prim2SF_100 in H100'.
    destruct (Prim2SF f) as [s|s| |s m e] eqn:Hf.
    + unfold SFltb, SFcompare in H1'. discriminate.
    + destruct s; [unfold SFltb, SFcompare in H1'|unfold SFltb, SFcompare in H100'];
        discriminate.
    + contradiction Hnan. reflexivity.
    + destruct s; [unfold SFltb, SFcompare in H1'; discriminate|].
      split.
      * apply (leb_finite_spec 1%float f _ _ _ _ Prim2SF_1 Hf). rewrite F2R_1.
        destruct (Rle_lt_dec 1 (F2R m e)) as [Hle|Hlt]; [assumption|].
        rewrite <- F2R_1 in Hlt.
        apply (ltb_finite_spec f 1%float _ _ _ _ Hf Prim2SF_1) in Hlt.
        rewrite Hlt in H1. discriminate.
      * apply (leb_finite_spec f 100%float _ _ _ _ Hf Prim2SF_100). rewrite F2R_100.
        destruct (Rle_lt_dec (F2R m e) 100) as [Hle|Hlt]; [assumption|].
        rewrite <- F2R_100 in Hlt.
        apply (ltb_finite_spec 100%float f _ _ _ _ Prim2SF_100 Hf) in Hlt.
        rewrite Hlt in H100. discriminate.
Qed.

Lemma percent_to_internal_validated (max_brightness : Z) (n v : number) :
  BrightnessControl.validate_and_sanitize_brightness_value (Num n) = Ok v ->
  BrightnessControl.in_range v ->
  BrightnessControl.percent_to_internal max_brightness (Num n) =
  BrightnessControl.percent_to_internal max_brightness (Num v).
Proof.
  intros Hn Hv. unfold BrightnessControl.percent_to_internal.
  rewrite Hn, (validate_in_range v Hv). reflexivity.
Qed.

Lemma percent_to_internal_total (max_brightness : Z) (n : number) :
  (0 < max_brightness <= 2 ^ 53)%Z -> not_nan n ->
  exists t,
    BrightnessControl.percent_to_internal max_brightness (Num n) = Ok t /\
    (0 <= t <= max_brightness)%Z.
Proof.
  intros Hmax Hn.
  destruct (validate_not_nan n Hn) as [v [Hv Hr]].
  rewrite (percent_to_internal_validated max_brightness n v Hv Hr).
  destruct (in_range_has_value v Hr) as [x Hx].
  destruct (percent_to_internal_spec max_brightness v x Hmax Hr Hx)
    as [t [k1 [E1 [k2 [E2 [Ht [_ [_ [_ Hb]]]]]]]]].
  exists t. split; assumption.
Qed.

(** *** Numbers that are floats already *)

(** A number [j * 2^e] with [j] below [2^53] and [e] not below the least
    exponent rounds to itself. *)
Lemma rounded_exact (j e k E : Z) :
  (0 < j < 2 ^ 53)%Z -> (-1074 <= e)%Z ->
  rounded (IZR j * bpow e) k E -> IZR k * bpow E = IZR j * bpow e.
Proof.
  intros [Hj0 Hj1] He [Hc [Hn _]].
  pose proof (bpow_gt_0 e) as Hbe.
  assert (HE : (E <= e)%Z).
  { destruct Hc as [[-> _]|[_ [Hlo _]]]; [lia|].
    apply IZR_lt in Hj1. rewrite <- bpow_IZR in Hj1 by lia.
    assert (Hlt : IZR j * bpow e < bpow 53 * bpow e)
      by (apply Rmult_lt_compat_r; assumption).
    rewrite <- bpow_plus in Hlt.
    assert (H : bpow (E + 52) < bpow (53 + e)) by lra.
    apply bpow_lt_inv in H. lia. }
  pose proof (bpow_gt_0 E) as Hb.
  assert (Hz : IZR j * bpow e = IZR (j * 2 ^ (e - E)) * bpow E).
  { rewrite mult_IZR, <- bpow_IZR by lia.
    rewrite Rmult_assoc, <- bpow_plus.
    replace (e - E + E)%Z with e by lia. reflexivity. }
  rewrite Hz in Hn |- *.
  set (k' := (j * 2 ^ (e - E))%Z) in *.
  apply Rabs_le_inv in Hn.
  assert (H1 : (k' - 1 <= k)%Z).
  { apply (IZR_mul_lt_inv _ _ (bpow E) Hb). rewrite minus_IZR. lra. }
  assert (H2 : (k - 1 <= k')%Z).
  { apply (IZR_mul_lt_inv _ _ (bpow E) Hb). rewrite minus_IZR. lra. }
  destruct (Z.eq_dec k k') as [->|Hne]; [reflexivity|exfalso].
  assert (Hcase : (k = k' + 1 \/ k = k' - 1)%Z) by lia.
  destruct Hcase as [->| ->].
  - rewrite plus_IZR in Hn. lra.
  - rewrite minus_IZR in Hn. lra.
Qed.

(** Rounding stays on the same side of such a number. *)
Lemma rounded_le_dyadic (x : R) (k E j e : Z) :
  (0 < j < 2 ^ 53)%Z -> (-1074 <= e)%Z ->
  rounded x k E -> x <= IZR j * bpow e -> IZR k * bpow E <= IZR j * bpow e.
Proof.
  intros Hj He Hr Hx.
  destruct j as [|pj|pj]; try lia.
  destruct (binary_normalize_spec pj e) as [k' [E' [Hr' _]]].
  unfold F2R in Hr'.
  rewrite <- (rounded_exact (Zpos pj) e k' E' Hj He Hr').
  apply (rounded_le x (IZR (Zpos pj) * bpow e)); assumption.
Qed.

Lemma rounded_ge_dyadic (x : R) (k E j e : Z) :
  (0 < j < 2 ^ 53)%Z -> (-1074 <= e)%Z ->
  rounded x k E -> IZR j * bpow e <= x -> IZR j * bpow e <= IZR k * bpow E.
Proof.
  intros Hj He Hr Hx.
  destruct j as [|pj|pj]; try lia.
  destruct (binary_normalize_spec pj e) as [k' [E' [Hr' _]]].
  unfold F2R in Hr'.
  rewrite <- (rounded_exact (Zpos pj) e k' E' Hj He Hr').
  apply (rounded_le (IZR (Zpos pj) * bpow e) x); assumption.
Qed.

(** *** [math.modf], exactly *)

Lemma normalize_exact (j e : Z) :
  (0 <= j < 2 ^ 53)%Z -> (-1074 <= e <= 970)%Z ->
  repr (if (j =? 0)%Z then zero
        else SF2Prim (binary_normalize prec emax j e false))
       (IZR j * bpow e).
Proof.
  intros Hj He. destruct (Z.eqb_spec j 0) as [->|Hne].
  - rewrite Rmult_0_l. apply repr_zero.
  - destruct j as [|pj|pj]; try lia.
    destruct (binary_normalize_spec pj e) as [k [E [Hr Henc]]].
    unfold F2R in Hr.
    pose proof (rounded_exact (Zpos pj) e k E ltac:(lia) ltac:(lia) Hr) as Hv.
    rewrite <- Hv. apply encodes_SF2Prim_repr; [assumption|].
    apply (rounded_no_overflow _ _ _ Hr).
    pose proof (bpow_gt_0 e) as Hbe.
    apply Rle_trans with (bpow 53 * bpow e).
    + apply Rmult_le_compat_r; [lra|].
      rewrite bpow_IZR by lia. apply IZR_le. lia.
    + rewrite <- bpow_plus. apply bpow_le. lia.
Qed.

Lemma modf_spec (x : float) (v : R) :
  repr x v ->
  exists n : Z,
    (0 <= n)%Z /\ IZR n <= v < IZR n + 1 /\
    repr (snd (PyNum.modf x)) (IZR n) /\
    repr (fst (PyNum.modf x)) (v - IZR n).
Proof.
  intros Hx. unfold PyNum.modf. pose proof Hx as Hx'. unfold repr in Hx'.
  destruct (Prim2SF x) as [s|s| |[|] m e] eqn:Hsf; try contradiction.
  - exists 0%Z. cbn [fst snd]. subst v. split; [lia|]. split; [lra|].
    replace (0 - 0) with 0 by ring. split; exact Hx.
  - pose proof (repr_finite x m e Hsf) as [_ Hb].
    destruct (bounded_digits m e Hb) as [Hd [He _]].
    destruct (Zdigits2_bounds (Zpos m) ltac:(lia)) as [_ Hm53].
    assert (Hm : (Zpos m < 2 ^ 53)%Z).
    { apply Z.lt_le_trans with (2 ^ Zdigits2 (Zpos m))%Z; [assumption|].
      apply Z.pow_le_mono_r; lia. }
    destruct (Z.leb_spec 0 e) as [He0|He0]; cbn [fst snd PyNum.signed_zero].
    + exists (Zpos m * 2 ^ e)%Z.
      assert (Hv : v = IZR (Zpos m * 2 ^ e)).
      { rewrite Hx'. unfold F2R. rewrite mult_IZR, <- bpow_IZR by lia. reflexivity. }
      split; [lia|]. rewrite <- Hv. split; [lra|].
      split; [exact Hx|]. replace (v - v) with 0 by ring. apply repr_zero.
    + assert (Hp : (0 < 2 ^ (- e))%Z) by (apply Z.pow_pos_nonneg; lia).
      pose proof (Z.mod_pos_bound (Zpos m) (2 ^ (- e)) Hp) as Hmod.
      pose proof (Z.div_mod (Zpos m) (2 ^ (- e)) ltac:(lia)) as Hdm.
      assert (Hip : (0 <= Zpos m / 2 ^ (- e) <= Zpos m)%Z).
      { split; [apply Z.div_pos; lia|]. apply Z.div_le_upper_bound; nia. }
      set (ip := (Zpos m / 2 ^ (- e))%Z) in *.
      set (fr := (Zpos m mod 2 ^ (- e))%Z) in *.
      pose proof (bpow_gt_0 e) as Hbe.
      assert (H1 : IZR (2 ^ (- e)) * bpow e = 1).
      { rewrite <- bpow_IZR by lia. rewrite <- bpow_plus.
        replace (- e + e)%Z with 0%Z by lia. reflexivity. }
      assert (Hv : v = IZR ip + IZR fr * bpow e).
      { rewrite Hx'. unfold F2R. rewrite Hdm at 1.
        rewrite plus_IZR, mult_IZR.
        replace ((IZR (2 ^ (- e)) * IZR ip + IZR fr) * bpow e)
          with (IZR ip * (IZR (2 ^ (- e)) * bpow e) + IZR fr * bpow e) by ring.
        rewrite H1. ring. }
      assert (Hfr : 0 <= IZR fr * bpow e < 1).
      { split.
        - apply Rmult_le_pos; [apply IZR_le; lia|lra].
        - rewrite <- H1. apply Rmult_lt_compat_r; [lra|]. apply IZR_lt. lia. }
      exists ip. split; [lia|]. split; [lra|]. split.
      * pose proof (normalize_exact ip 0 ltac:(lia) ltac:(lia)) as H.
        rewrite bpow_0, Rmult_1_r in H. exact H.
      * replace (v - IZR ip) with (IZR fr * bpow e) by lra.
        apply (normalize_exact fr e); lia.
Qed.

(** *** The steps of a ramp, exactly

    For a distance [d] below [2^52] the integer part of [d / 25] is the
    quotient of the integer division, and the remainder the code computes,
    [int(frac * 25)], is the remainder of the integer division or one
    less. *)
Lemma ramp_arith_exact (d : Z) :
  (0 <= d < 2 ^ 52)%Z ->
  exists x n k,
    PyNum.truediv_int d BRIGHTNESS_STEP = Ok x /\
    PyNum.to_int (snd (PyNum.modf x)) = Ok n /\
    BrightnessControl.remainder_of (fst (PyNum.modf x)) = Ok k /\
    n = (d / 25)%Z /\ (d mod 25 - 1 <= k <= d mod 25)%Z /\ (0 <= k)%Z.
Proof.
  intros [Hd0 Hd1].
  destruct (Z.eq_dec d 0) as [->|Hne].
  { exists zero, 0%Z, 0%Z. repeat split; try (vm_compute; reflexivity);
      vm_compute; discriminate. }
  change (2 ^ 52)%Z with 4503599627370496%Z in Hd1.
  destruct (truediv_int_grid d BRIGHTNESS_STEP ltac:(lia) ltac:(reflexivity))
    as [kk [EE [x [Hr [Hx0 [Hup [Hlo Hok]]]]]]].
  assert (Hlog : (Z.log2 d < 52)%Z) by (apply Z.log2_lt_pow2; lia).
  assert (Hj : (0 <= 5 <= Z.max 0 (56 + Z.log2 BRIGHTNESS_STEP - Z.log2 d))%Z).
  { change (Z.log2 BRIGHTNESS_STEP) with 4%Z. lia. }
  pose proof (Z.div_mod d 25 ltac:(lia)) as Hqr.
  pose proof (Z.mod_pos_bound d 25 ltac:(lia)) as Hrb.
  set (q := (d / 25)%Z) in *. set (r := (d mod 25)%Z) in *.
  pose proof (Z.div_mod (32 * d + 24) 25 ltac:(lia)) as Hcu.
  pose proof (Z.mod_pos_bound (32 * d + 24) 25 ltac:(lia)) as Hcub.
  set (cu := ((32 * d + 24) / 25)%Z) in *.
  pose proof (Z.div_mod (32 * d) 25 ltac:(lia)) as Hcl.
  pose proof (Z.mod_pos_bound (32 * d) 25 ltac:(lia)) as Hclb.
  set (cl := (32 * d / 25)%Z) in *.
  assert (Hb5 : bpow (-5) = / 32) by (unfold bpow; simpl; lra).
  assert (Hxu : x <= IZR cu * bpow (-5)).
  { apply (Hup 5%Z cu Hj). change (2 ^ 5)%Z with 32%Z.
    change BRIGHTNESS_STEP with 25%Z. lia. }
  assert (Hxl : IZR cl * bpow (-5) <= x).
  { apply (Hlo 5%Z cl Hj). change (2 ^ 5)%Z with 32%Z.
    change BRIGHTNESS_STEP with 25%Z. lia. }
  assert (Hcu53 : (0 < cu < 2 ^ 53)%Z).
  { change (2 ^ 53)%Z with 9007199254740992%Z. lia. }
  assert (Hcl53 : (0 < cl < 2 ^ 53)%Z).
  { change (2 ^ 53)%Z with 9007199254740992%Z. lia. }
  pose proof (rounded_le_dyadic x kk EE cu (-5) Hcu53 ltac:(lia) Hr Hxu) as Hvu.
  pose proof (rounded_ge_dyadic x kk EE cl (-5) Hcl53 ltac:(lia) Hr Hxl) as Hvl.
  set (vx := IZR kk * bpow EE) in *.
  assert (HcuR : IZR cu <= 9007199254740992) by (apply IZR_le; lia).
  destruct Hok as [f [Hf Hrf]].
  { apply Rle_lt_trans with (bpow 53).
    - rewrite (bpow_IZR 53) by lia. change (2 ^ 53)%Z with 9007199254740992%Z.
      rewrite Hb5 in Hvu. lra.
    - apply bpow_lt. lia. }
  destruct (modf_spec f vx Hrf) as [n [Hn0 [Hnv [Hsnd Hfst]]]].
  assert (Hq1 : (32 * q <= cl)%Z) by lia.
  assert (Hq2 : (cu <= 32 * q + 31)%Z) by lia.
  assert (Hq1R : 32 * IZR q <= IZR cl).
  { apply IZR_le in Hq1. rewrite mult_IZR in Hq1. exact Hq1. }
  assert (Hq2R : IZR cu <= 32 * IZR q + 31).
  { apply IZR_le in Hq2. rewrite plus_IZR, mult_IZR in Hq2. exact Hq2. }
  rewrite Hb5 in Hvu, Hvl.
  assert (Hnq : n = q).
  { assert (H1 : (n < q + 1)%Z) by (apply lt_IZR; rewrite plus_IZR; lra).
    assert (H2 : (q < n + 1)%Z) by (apply lt_IZR; rewrite plus_IZR; lra).
    lia. }
  destruct (to_int_repr _ _ Hsnd) as [n' [Hn' [[Hn1 Hn2] _]]].
  assert (Hnn : n' = n).
  { apply le_IZR in Hn1. rewrite <- plus_IZR in Hn2. apply lt_IZR in Hn2. lia. }
  subst n'.
  set (vf := vx - IZR n) in *.
  assert (Hvf : 0 <= vf < 1) by (unfold vf; lra).
  unfold BrightnessControl.remainder_of.
  destruct (mul_float_const (fst (PyNum.modf f)) 25%float vf 25 BRIGHTNESS_STEP
              of_int_25 repr_25 Hfst ltac:(lra))
    as [g [w [Hg [Hrg [k2 [E2 [Hr2 Hw]]]]]]].
  destruct (to_int_repr g w Hrg) as [k [Hk [[Hk1 Hk2] Hk0]]].
  exists f, n, k. split; [exact Hf|]. split; [exact Hn'|].
  split; [rewrite Hg; exact Hk|]. split; [exact Hnq|].
  split; [|exact Hk0].
  assert (HdR : IZR d = 25 * IZR q + IZR r).
  { rewrite Hqr at 1. rewrite plus_IZR, mult_IZR. reflexivity. }
  assert (HcuZ : (25 * cu <= 32 * d + 24)%Z) by lia.
  assert (HclZ : (32 * d - 24 <= 25 * cl)%Z) by lia.
  assert (HcuR2 : 25 * IZR cu <= 32 * IZR d + 24).
  { apply IZR_le in HcuZ. rewrite plus_IZR, !mult_IZR in HcuZ. exact HcuZ. }
  assert (HclR2 : 32 * IZR d - 24 <= 25 * IZR cl).
  { apply IZR_le in HclZ. rewrite minus_IZR, !mult_IZR in HclZ. exact HclZ. }
  subst n. split.
  - destruct (Z.eq_dec r 0) as [Hr0|Hr0]; [lia|].
    assert (Hjl : (0 < 32 * r - 24 < 2 ^ 53)%Z).
    { change (2 ^ 53)%Z with 9007199254740992%Z. lia. }
    assert (Hlow : IZR (32 * r - 24) * bpow (-5) <= vf * 25).
    { rewrite minus_IZR, mult_IZR, Hb5. unfold vf. lra. }
    pose proof (rounded_ge_dyadic _ k2 E2 _ (-5) Hjl ltac:(lia) Hr2 Hlow) as Hge.
    rewrite minus_IZR, mult_IZR, Hb5 in Hge. rewrite <- Hw in Hge.
    assert (H : (r - 2 < k)%Z).
    { apply lt_IZR. rewrite minus_IZR. lra. }
    lia.
  - assert (Hju : (0 < 32 * r + 31 < 2 ^ 53)%Z).
    { change (2 ^ 53)%Z with 9007199254740992%Z. lia. }
    assert (Hupp : vf * 25 <= IZR (32 * r + 31) * bpow (-5)).
    { rewrite plus_IZR, mult_IZR, Hb5. unfold vf. lra. }
    pose proof (rounded_le_dyadic _ k2 E2 _ (-5) Hju ltac:(lia) Hr2 Hupp) as Hle.
    rewrite plus_IZR, mult_IZR, Hb5 in Hle. rewrite <- Hw in Hle.
    assert (H : (k < r + 1)%Z).
    { apply lt_IZR. rewrite plus_IZR. lra. }
    lia.
Qed.

(** *** The relative error of a rounding *)

Lemma bpow_m53 : 9007199254740992 * bpow (-53) = 1.
Proof. rewrite <- (bpow_53 (-53)). apply bpow_0. Qed.

Lemma rounded_rel_up (x : R) (k E : Z) :
  rounded x k E -> bpow (-1021) <= x ->
  IZR k * bpow E <= x * (1 + bpow (-53)).
Proof.
  intros [Hc [Hn _]] Hx.
  destruct Hc as [[_ Hlt]|[_ [Hlo _]]]; [lra|].
  apply Rabs_le_inv in Hn.
  rewrite bpow_52 in Hlo. pose proof bpow_m53 as He.
  pose proof (bpow_gt_0 E) as HE. pose proof (bpow_gt_0 (-53)) as H53.
  assert (H : bpow E / 2 <= x * bpow (-53)).
  { apply Rle_trans with (4503599627370496 * bpow E * bpow (-53)).
    - replace (4503599627370496 * bpow E * bpow (-53))
        with (bpow E / 2 * (9007199254740992 * bpow (-53))) by field.
      rewrite He. lra.
    - apply Rmult_le_compat_r; lra. }
  lra.
Qed.

(** One step of the accumulation of relative errors, for numbers up to 1. *)
Lemma rel_step (a c e u y : R) :
  0 <= a <= 1 -> 0 <= e -> 0 <= c * e <= 1 ->
  0 <= u <= a + c * e -> y <= u * (1 + e) ->
  y <= a + (c + 2) * e.
Proof. intros Ha He Hc Hu Hy. nra. Qed.

(** The quotient of [a <= b], both below [2^53]: what [truediv_int] rounds
    exceeds [a / b] by a relative [2^-53] at most. *)
Lemma truediv_int_rel (a b : Z) :
  (0 < a <= b)%Z -> (b <= 2 ^ 53)%Z ->
  exists k E x f,
    rounded x k E /\ PyNum.truediv_int a b = Ok f /\ repr f (IZR k * bpow E) /\
    bpow (-110) <= x /\ x <= IZR a / IZR b * (1 + bpow (-53)) /\
    bpow (-110) <= IZR k * bpow E.
Proof.
  intros Hab Hb.
  destruct (truediv_int_grid a b ltac:(lia) ltac:(lia))
    as [k [E [x [Hr [Hx0 [Hup [Hlo Hok]]]]]]].
  set (k0 := Z.max 0 (56 + Z.log2 b - Z.log2 a)) in *.
  destruct (Z.log2_spec a ltac:(lia)) as [Hla1 Hla2].
  destruct (Z.log2_spec b ltac:(lia)) as [Hlb1 Hlb2].
  pose proof (Z.log2_nonneg a) as Hna. pose proof (Z.log2_nonneg b) as Hnb.
  assert (Hlab : (Z.log2 a <= Z.log2 b)%Z) by (apply Z.log2_le_mono; lia).
  assert (Hlb53 : (Z.log2 b <= 53)%Z).
  { rewrite <- (Z.log2_pow2 53) by lia. apply Z.log2_le_mono. exact Hb. }
  assert (Hk0 : k0 = (56 + Z.log2 b - Z.log2 a)%Z) by (unfold k0; lia).
  assert (Hk0r : (0 <= k0 <= 109)%Z) by lia.
  assert (Hbig : (2 ^ 53 * b <= a * 2 ^ k0)%Z).
  { assert (H1 : (2 ^ Z.log2 a * 2 ^ k0 = 2 ^ 55 * 2 ^ Z.succ (Z.log2 b))%Z).
    { rewrite <- !Z.pow_add_r by lia. f_equal. lia. }
    assert (H2 : (0 < 2 ^ k0)%Z) by (apply Z.pow_pos_nonneg; lia).
    change (2 ^ 53)%Z with 9007199254740992%Z.
    change (2 ^ 55)%Z with 36028797018963968%Z in H1. nia. }
  assert (Hp : (0 < 2 ^ k0)%Z) by (apply Z.pow_pos_nonneg; lia).
  pose proof (Z.div_mod (a * 2 ^ k0) b ltac:(lia)) as Hdm.
  pose proof (Z.mod_pos_bound (a * 2 ^ k0) b ltac:(lia)) as Hmb.
  set (c := (a * 2 ^ k0 / b)%Z) in *.
  assert (HA : 0 < IZR a) by (apply IZR_lt; lia).
  assert (HB : 0 < IZR b) by (apply IZR_lt; lia).
  pose proof (bpow_gt_0 k0) as HK. pose proof (bpow_gt_0 (- k0)) as HK'.
  assert (HKK : bpow (- k0) * bpow k0 = 1).
  { rewrite <- bpow_plus. replace (- k0 + k0)%Z with 0%Z by lia. apply bpow_0. }
  assert (Hx1 : x <= 1).
  { pose proof (Hup 0%Z 1%Z ltac:(lia) ltac:(lia)) as H.
    cbn [Z.opp] in H. rewrite bpow_0 in H. lra. }
  pose proof (rounded_le_1 _ _ _ Hr Hx1) as Hv1.
  destruct Hok as [f [Hf Hrf]].
  { apply Rle_lt_trans with 1; [assumption|].
    rewrite <- bpow_0. apply bpow_lt. lia. }
  assert (Hxlo : bpow (- k0) <= x).
  { pose proof (Hlo k0 1%Z ltac:(lia) ltac:(change (2 ^ 53)%Z with 9007199254740992%Z in Hbig; lia)) as H.
    lra. }
  assert (H110 : bpow (-110) <= bpow (- k0)) by (apply bpow_le; lia).
  exists k, E, x, f. split; [assumption|]. split; [assumption|].
  split; [assumption|]. split; [lra|]. split.
  - pose proof (Hup k0 (c + 1)%Z ltac:(lia) ltac:(lia)) as Hxc.
    rewrite plus_IZR in Hxc.
    assert (HcR : IZR c * IZR b <= IZR a * bpow k0).
    { rewrite (bpow_IZR k0) by lia. rewrite <- !mult_IZR. apply IZR_le. lia. }
    assert (HbigR : 9007199254740992 * IZR b <= IZR a * bpow k0).
    { rewrite (bpow_IZR k0) by lia. rewrite <- !mult_IZR. apply IZR_le.
      change (2 ^ 53)%Z with 9007199254740992%Z in Hbig. exact Hbig. }
    pose proof bpow_m53 as He. pose proof (bpow_gt_0 (-53)) as H53.
    apply Rle_trans with ((IZR c + 1) * bpow (- k0)); [assumption|].
    apply (Rmult_le_reg_r (IZR b * bpow k0)); [apply Rmult_lt_0_compat; assumption|].
    replace ((IZR c + 1) * bpow (- k0) * (IZR b * bpow k0))
      with ((IZR c * IZR b + IZR b) * (bpow (- k0) * bpow k0)) by ring.
    replace (IZR a / IZR b * (1 + bpow (-53)) * (IZR b * bpow k0))
      with (IZR a * bpow k0 * (1 + bpow (-53))) by (field; lra).
    rewrite HKK, Rmult_1_r.
    assert (Hb' : IZR b <= IZR a * bpow k0 * bpow (-53)).
    { apply Rle_trans with (9007199254740992 * IZR b * bpow (-53)).
      - replace (9007199254740992 * IZR b * bpow (-53))
          with (IZR b * (9007199254740992 * bpow (-53))) by ring.
        rewrite He. lra.
      - apply Rmult_le_compat_r; lra. }
    lra.
  - assert (H1 : (0 < 1 < 2 ^ 53)%Z) by (split; [lia|reflexivity]).
    pose proof (rounded_ge_dyadic x k E 1 (- k0) H1 ltac:(lia) Hr
                  ltac:(rewrite Rmult_1_l; exact Hxlo)) as H.
    rewrite Rmult_1_l in H. lra.
Qed.

(** *** A percentage converted to a raw value and back *)

Lemma percent_round_trip (max_brightness z : Z) :
  (0 < max_brightness <= 2 ^ 53)%Z -> (1 <= z <= 100)%Z ->
  exists t pct,
    BrightnessControl.percent_to_internal max_brightness (Num (Int z)) = Ok t /\
    (0 <= t <= max_brightness)%Z /\
    BrightnessControl.internal_to_percent max_brightness t = Ok pct /\
    (0 <= pct <= z)%Z.
Proof.
  intros Hmax Hz.
  destruct (percent_to_internal_spec max_brightness (Int z) (IZR z) Hmax Hz eq_refl)
    as [n [k1 [E1 [k2 [E2 [Hn [Hr1 [Hr2 [Hnv Hb]]]]]]]]].
  exists n.
  destruct (Z.eq_dec n 0) as [->|Hn0].
  { exists 0%Z. split; [exact Hn|]. split; [exact Hb|].
    split; [apply internal_to_percent_zero; lia|lia]. }
  destruct (truediv_int_rel n max_brightness ltac:(lia) ltac:(lia))
    as [k3 [E3 [x3 [f [Hr3 [Hf [Hrf [Hx3lo [Hx3up Hy3lo]]]]]]]]].
  pose proof bpow_m53 as He. pose proof (bpow_gt_0 (-53)) as He0.
  set (e := bpow (-53)) in *.
  set (A := IZR z / 100).
  assert (HzR : 1 <= IZR z <= 100) by (split; apply IZR_le; lia).
  assert (HA : 0 <= A <= 1) by (unfold A; lra).
  assert (Hb7 : bpow (-7) = / 128) by (unfold bpow; simpl; lra).
  assert (Hlow7 : bpow (-1021) <= bpow (-7)) by (apply bpow_le; lia).
  assert (Hlow110 : bpow (-1021) <= bpow (-110)) by (apply bpow_le; lia).
  pose proof (bpow_gt_0 (-110)) as H110.
  assert (HA7 : bpow (-7) <= A) by (unfold A; lra).
  set (y1 := IZR k1 * bpow E1) in *.
  set (y2 := IZR k2 * bpow E2) in *.
  set (y3 := IZR k3 * bpow E3) in *.
  assert (HM : 1 <= IZR max_brightness) by (apply IZR_le; lia).
  assert (HN : 1 <= IZR n) by (apply IZR_le; lia).
  pose proof (rounded_rel_up _ _ _ Hr1 ltac:(fold A; lra)) as Hy1. fold A y1 e in Hy1.
  assert (Hy1lo : bpow (-7) <= y1).
  { assert (H1 : (0 < 1 < 2 ^ 53)%Z) by (split; [lia|reflexivity]).
    pose proof (rounded_ge_dyadic _ k1 E1 1 (-7) H1 ltac:(lia) Hr1
                  ltac:(rewrite Rmult_1_l; exact HA7)) as H.
    rewrite Rmult_1_l in H. exact H. }
  assert (Hx2lo : bpow (-1021) <= y1 * IZR max_brightness).
  { apply Rle_trans with (y1 * 1); [lra|]. apply Rmult_le_compat_l; lra. }
  pose proof (rounded_rel_up _ _ _ Hr2 Hx2lo) as Hy2. fold y2 e in Hy2.
  set (w := IZR n / IZR max_brightness) in *.
  assert (Hw0 : 0 <= w).
  { unfold w. apply Rmult_le_pos; [lra|]. left. apply Rinv_0_lt_compat. lra. }
  assert (Hw : w <= y1 * (1 + e)).
  { apply (Rmult_le_reg_r (IZR max_brightness)); [lra|].
    replace (w * IZR max_brightness) with (IZR n) by (unfold w; field; lra).
    replace (y1 * (1 + e) * IZR max_brightness)
      with (y1 * IZR max_brightness * (1 + e)) by ring.
    lra. }
  assert (He1 : 0 <= e) by lra.
  assert (B1 : y1 <= A + (0 + 2) * e).
  { apply (rel_step A 0 e A y1); try lra. }
  assert (B2 : w <= A + (2 + 2) * e).
  { apply (rel_step A 2 e y1 w); try lra. }
  assert (B3 : x3 <= A + (4 + 2) * e).
  { apply (rel_step A 4 e w x3); try lra. }
  pose proof (rounded_rel_up _ _ _ Hr3 ltac:(lra)) as Hy3. fold y3 e in Hy3.
  assert (B4 : y3 <= A + (6 + 2) * e).
  { apply (rel_step A 6 e x3 y3); try lra. }
  unfold BrightnessControl.internal_to_percent. rewrite Hf. cbn [bind_result].
  destruct (mul_float_const f 100%float y3 100 100 of_int_100 repr_100 Hrf ltac:(lra))
    as [g [v [Hg [Hrg [k4 [E4 [Hr4 Hv]]]]]]].
  rewrite Hg. cbn [bind_result].
  destruct (to_int_repr g v Hrg) as [pct [Hpct [[Hp1 Hp2] Hp0]]].
  exists pct. split; [exact Hn|]. split; [exact Hb|]. split; [exact Hpct|].
  split; [exact Hp0|].
  assert (Hx4lo : bpow (-1021) <= y3 * 100).
  { apply Rle_trans with (y3 * 1); [lra|]. apply Rmult_le_compat_l; lra. }
  pose proof (rounded_rel_up _ _ _ Hr4 Hx4lo) as Hy4. rewrite <- Hv in Hy4. fold e in Hy4.
  assert (Hfin : v < IZR z + 1).
  { assert (H1 : y3 * 100 <= IZR z + 800 * e) by (unfold A in B4; lra).
    assert (H2 : y3 * 100 * (1 + e) <= (IZR z + 800 * e) * (1 + e))
      by (apply Rmult_le_compat_r; lra).
    assert (He2 : e <= 1) by lra.
    assert (H3 : e * e <= e * 1) by (apply Rmult_le_compat_l; lra).
    assert (H4 : IZR z * e <= 100 * e) by (apply Rmult_le_compat_r; lra).
    replace ((IZR z + 800 * e) * (1 + e))
      with (IZR z + 800 * e + IZR z * e + 800 * (e * e)) in H2 by ring.
    lra. }
  assert (H : (pct < z + 1)%Z) by (apply lt_IZR; rewrite plus_IZR; lra).
  lia.
Qed.

(** *** Any bound that is a float *)

Lemma of_int_ok_repr (z : Z) (M : float) :
  (0 < z)%Z -> PyNum.of_int z = Ok M ->
  exists v, repr M v /\ 1 <= v /\ ((z <= 2 ^ 53)%Z -> v = IZR z).
Proof.
  intros Hz HM.
  destruct (Z_le_gt_dec z (2 ^ 53)) as [Hle|Hgt].
  - destruct (of_int_exact z ltac:(lia)) as [f [Hf Hr]].
    rewrite HM in Hf. injection Hf as <-.
    exists (IZR z). split; [exact Hr|]. split; [apply IZR_le; lia|reflexivity].
  - destruct (of_int_pos z Hz) as [k [E [Hr [Hok Hov]]]].
    destruct (Rlt_le_dec (IZR k * bpow E) (bpow 1024)) as [Hlt|Hge].
    + destruct (Hok Hlt) as [f [Hf Hrf]].
      rewrite HM in Hf. injection Hf as <-.
      exists (IZR k * bpow E). split; [exact Hrf|]. split; [|lia].
      assert (H1 : (0 < 1 < 2 ^ 53)%Z) by (split; [lia|reflexivity]).
      assert (Hz1 : IZR 1 * bpow 0 <= IZR z).
      { rewrite bpow_0, Rmult_1_r. apply IZR_le. lia. }
      pose proof (rounded_ge_dyadic _ k E 1 0 H1 ltac:(lia) Hr Hz1) as H.
      rewrite bpow_0, Rmult_1_r in H. exact H.
    + rewrite (Hov Hge) in HM. discriminate.
Qed.

Lemma to_int_value (f : float) (v : R) (n : Z) :
  repr f v -> PyNum.to_int f = Ok n -> IZR n <= v < IZR n + 1.
Proof.
  intros Hr Hn. destruct (to_int_repr f v Hr) as [n' [Hn' [Hv _]]].
  rewrite Hn in Hn'. injection Hn' as <-. exact Hv.
Qed.

Lemma mul_1_same_int (f : float) (v : R) (n : Z) :
  repr f v -> 0 < v -> PyNum.to_int f = Ok n ->
  PyNum.to_int (1 * f)%float = Ok n.
Proof.
  intros Hf Hv Hn.
  pose proof (to_int_value f v n Hf Hn) as Hnv.
  destruct (repr_pos_finite f v Hf Hv) as [m [e [Hsf [Hve Hb]]]].
  destruct (repr_mul 1%float f 1 v repr_1 Hf) as [k [E [Hr Hok]]].
  rewrite Rmult_1_l in Hr.
  pose proof (bounded_rounded m e Hb) as Hr'. rewrite <- Hve in Hr'.
  pose proof (rounded_value_unique _ _ _ _ _ Hr Hr') as Hval.
  assert (Hlt : IZR k * bpow E < bpow 1024).
  { rewrite Hval. apply (bounded_lt_bpow_1024 m e Hb). }
  destruct (to_int_repr _ _ (Hok Hlt)) as [n' [Hn' [[H1 H2] _]]].
  rewrite Hn'. f_equal.
  rewrite Hval in H1, H2. fold (F2R m e) in H1, H2. rewrite <- Hve in H1, H2.
  destruct Hnv as [H3 H4].
  assert (Ha : (n' < n + 1)%Z) by (apply lt_IZR; rewrite plus_IZR; lra).
  assert (Hb' : (n < n' + 1)%Z) by (apply lt_IZR; rewrite plus_IZR; lra).
  lia.
Qed.

(** The conversion of a validated percentage for any bound that [float()]
    can convert: the two roundings, and the result no larger than the
    float of the bound. *)
Lemma percent_to_internal_any_bound (max_brightness : Z) (M : float) (vM : R)
    (v : number) (x : R) :
  PyNum.of_int max_brightness = Ok M -> repr M vM -> 0 < vM ->
  BrightnessControl.in_range v -> number_value v x ->
  exists n k1 E1 k2 E2,
    BrightnessControl.percent_to_internal max_brightness (Num v) = Ok n /\
    rounded (x / 100) k1 E1 /\
    rounded (IZR k1 * bpow E1 * vM) k2 E2 /\
    IZR n <= IZR k2 * bpow E2 < IZR n + 1 /\
    (0 <= n)%Z /\ IZR k2 * bpow E2 <= vM.
Proof.
  intros HM HrM HvM Hin Hval.
  unfold BrightnessControl.percent_to_internal.
  rewrite (validate_in_range v Hin). cbn [bind_result].
  destruct (div_100_spec v x Hin Hval) as [q [k1 [E1 [Hq [Hr1 [Hrq Hq1]]]]]].
  rewrite Hq. cbn [bind_result].
  unfold PyNum.mul_float_int. rewrite HM. cbn [bind_result].
  destruct (repr_mul q M _ _ Hrq HrM) as [k2 [E2 [Hr2 Hok]]].
  pose proof (repr_nonneg _ _ Hrq) as Hq0.
  assert (Hprod : IZR k1 * bpow E1 * vM <= vM).
  { rewrite <- (Rmult_1_l vM) at 2. apply Rmult_le_compat_r; lra. }
  destruct (repr_pos_finite M _ HrM HvM) as [mM [eM [HMsf [HMv HMb]]]].
  pose proof (rounded_le_float _ _ _ _ _ Hr2 HMb ltac:(rewrite <- HMv; assumption)) as Hle.
  rewrite <- HMv in Hle.
  assert (Hrr : repr (q * M)%float (IZR k2 * bpow E2)).
  { apply Hok. apply Rle_lt_trans with vM; [assumption|].
    rewrite HMv. apply (bounded_lt_bpow_1024 mM eM HMb). }
  destruct (to_int_repr _ _ Hrr) as [n [Hn [Hnv Hn0]]].
  exists n, k1, E1, k2, E2.
  split; [assumption|]. split; [assumption|]. split; [assumption|].
  split; [assumption|]. split; assumption.
Qed.

Lemma percent_to_internal_mono_any_bound (max_brightness : Z) (M : float)
    (v1 v2 : number) :
  (0 < max_brightness)%Z -> PyNum.of_int max_brightness = Ok M ->
  BrightnessControl.in_range v1 -> BrightnessControl.in_range v2 ->
  PyNum.le v1 v2 = true ->
  exists n1 n2,
    BrightnessControl.percent_to_internal max_brightness (Num v1) = Ok n1 /\
    BrightnessControl.percent_to_internal max_brightness (Num v2) = Ok n2 /\
    (n1 <= n2)%Z.
Proof.
  intros Hmax HM Hin1 Hin2 Hle.
  destruct (of_int_ok_repr max_brightness M Hmax HM) as [vM [HrM [HvM _]]].
  destruct (in_range_has_value v1 Hin1) as [x1 Hx1].
  destruct (in_range_has_value v2 Hin2) as [x2 Hx2].
  pose proof (le_value v1 v2 x1 x2 Hin1 Hin2 Hx1 Hx2 Hle) as Hx.
  destruct (percent_to_internal_any_bound max_brightness M vM v1 x1 HM HrM
              ltac:(lra) Hin1 Hx1)
    as [n1 [k1 [E1 [k2 [E2 [Hn1 [Hr1 [Hr2 [Ht1 _]]]]]]]]].
  destruct (percent_to_internal_any_bound max_brightness M vM v2 x2 HM HrM
              ltac:(lra) Hin2 Hx2)
    as [n2 [k1' [E1' [k2' [E2' [Hn2 [Hr1' [Hr2' [Ht2 _]]]]]]]]].
  exists n1, n2. split; [assumption|]. split; [assumption|].
  assert (Hq : IZR k1 * bpow E1 <= IZR k1' * bpow E1').
  { apply (rounded_le (x1 / 100) (x2 / 100)); [lra|assumption|assumption]. }
  assert (Hp : IZR k1 * bpow E1 * vM <= IZR k1' * bpow E1' * vM).
  { apply Rmult_le_compat_r; lra. }
  pose proof (rounded_le _ _ _ _ _ _ Hp Hr2 Hr2') as Hr.
  assert (Hlt : IZR n1 < IZR (n2 + 1)) by (rewrite plus_IZR; lra).
  apply lt_IZR in Hlt. lia.
Qed.

(** A bound too large for a float: the conversion raises what [float()]
    raises, for every validated percentage. *)
Lemma percent_to_internal_bound_raises (max_brightness : Z) (e : pyexc) (v : number) :
  PyNum.of_int max_brightness = Raise e -> BrightnessControl.in_range v ->
  BrightnessControl.percent_to_internal max_brightness (Num v) = Raise e.
Proof.
  intros HM Hin.
  destruct (in_range_has_value v Hin) as [x Hx].
  destruct (div_100_spec v x Hin Hx) as [q [k1 [E1 [Hq _]]]].
  unfold BrightnessControl.percent_to_internal.
  rewrite (validate_in_range v Hin). cbn [bind_result]. rewrite Hq.
  cbn [bind_result]. unfold PyNum.mul_float_int. rewrite HM. reflexivity.
Qed.

End Binary64Facts.

(** ** The controller *)

Module ControlFacts.

Import BrightnessControl.

(** *** Rules of the specifications *)

Lemma triple_ret {A : Type} (P : ctl -> Prop) (a : A)
    (Q : A -> ctl -> Prop) (X : pyexc -> ctl -> Prop) :
  (forall st, P st -> Q a st) -> triple P (ret a) Q X.
Proof. intros H st HP. apply H. assumption. Qed.

Lemma triple_bind {A B : Type} (P : ctl -> Prop) (c : M A) (k : A -> M B)
    (Q1 : A -> ctl -> Prop) (Q : B -> ctl -> Prop) (X : pyexc -> ctl -> Prop) :
  triple P c Q1 X -> (forall a, triple (Q1 a) (k a) Q X) ->
  triple P (bind c k) Q X.
Proof.
  intros Hc Hk st HP. unfold bind. specialize (Hc st HP).
  destruct (c st) as [[a|e] st']; [|assumption].
  apply Hk. assumption.
Qed.

Lemma triple_lift {A : Type} (P : ctl -> Prop) (r : result A)
    (Q : A -> ctl -> Prop) (X : pyexc -> ctl -> Prop) :
  (forall st, P st -> match r with Ok a => Q a st | Raise e => X e st end) ->
  triple P (lift r) Q X.
Proof.
  intros H st HP. unfold lift. specialize (H st HP).
  destruct r; assumption.
Qed.

Lemma triple_weaken {A : Type} (P P' : ctl -> Prop) (c : M A)
    (Q Q' : A -> ctl -> Prop) (X X' : pyexc -> ctl -> Prop) :
  triple P' c Q' X' ->
  (forall st, P st -> P' st) ->
  (forall a st, Q' a st -> Q a st) ->
  (forall e st, X' e st -> X e st) ->
  triple P c Q X.
Proof.
  intros Hc HP HQ HX st Hst. specialize (Hc st (HP st Hst)).
  destruct (c st) as [[a|e] st']; [apply HQ|apply HX]; assumption.
Qed.

Lemma triple_run {A : Type} (P : ctl -> Prop) (c : M A)
    (Q : A -> ctl -> Prop) (st : ctl) :
  triple P c Q (fun _ _ => False) -> P st ->
  exists a st', c st = (Ok a, st') /\ Q a st'.
Proof.
  intros Hc HP. specialize (Hc st HP).
  destruct (c st) as [[a|e] st']; [|contradiction].
  exists a, st'. split; [reflexivity|assumption].
Qed.

Lemma triple_lift_ok {A B : Type} (P : ctl -> Prop) (r : result A) (k : A -> M B)
    (Q : B -> ctl -> Prop) (X : pyexc -> ctl -> Prop) (a : A) :
  r = Ok a -> triple P (k a) Q X -> triple P (bind (lift r) k) Q X.
Proof.
  intros -> H st HP. unfold bind, lift. apply H. assumption.
Qed.

(** *** A run that is neither cancelled nor fails *)

Section Undisturbed.

Variable E : env.
Hypothesis Hflag : undisturbed E.
Hypothesis Hwrite : reliable E.
Variable w0 : list Z.

Lemma get_flag_active (X : pyexc -> ctl -> Prop) :
  triple (active_after w0) (get_change_in_progress E)
         (fun b st => b = true /\ active_after w0 st) X.
Proof.
  intros st [Hf Hw]. unfold get_change_in_progress.
  rewrite Hflag. cbn. unfold active_after. cbn. auto.
Qed.

Lemma write_active (v : Z) (X : pyexc -> ctl -> Prop) :
  triple (active_after w0) (write_brightness_value E v)
         (fun _ st => change_in_progress st = true /\ last_written w0 v st) X.
Proof.
  intros st [Hf [ws Hw]]. unfold write_brightness_value.
  rewrite Hwrite. unfold last_written. cbn. repeat split; try assumption.
  exists ws. rewrite Hw, app_assoc. reflexivity.
Qed.

Lemma last_written_active (v : Z) (st : ctl) :
  change_in_progress st = true -> last_written w0 v st -> active_after w0 st.
Proof.
  intros Hf [_ [ws Hw]]. split; [assumption|]. exists (ws ++ [v]). assumption.
Qed.

Lemma sleep_active (X : pyexc -> ctl -> Prop) :
  triple (active_after w0) sleep (fun _ st => active_after w0 st) X.
Proof. intros st H. exact H. Qed.

Lemma ramp_loop_active (op : Z -> Z -> Z) (n : nat) :
  forall brightness,
    triple (active_after w0) (ramp_loop E op n brightness)
           (fun _ st => active_after w0 st) (fun _ _ => False).
Proof.
  induction n as [|n IH]; intros brightness; cbn [ramp_loop].
  - apply triple_ret. auto.
  - eapply triple_bind; [apply get_flag_active|].
    intros b st [Hb Hst]. destruct b; [|discriminate]. clear Hb. revert st Hst.
    change (negb true) with false. cbv iota.
    eapply triple_bind; [apply write_active|].
    intros ?. cbv beta.
    eapply triple_bind.
    + eapply triple_weaken; [apply sleep_active| | |].
      * intros st [Hf Hl]. apply (last_written_active _ _ Hf Hl).
      * intros ? st H. exact H.
      * intros ? st H. exact H.
    + intros ?. apply IH.
Qed.

(** One branch: the remainder is written last. *)
Lemma ramp_branch_active (op : Z -> Z -> Z) (delta brightness : Z) :
  (0 <= delta < 2 ^ 1026) ->
  triple (active_after w0) (ramp_branch E op delta brightness)
         (fun b st => change_in_progress st = true /\ last_written w0 b st)
         (fun _ _ => False).
Proof.
  intros Hd. destruct (Binary64Facts.ramp_arith_ok delta Hd) as [x [n [k [Hx [Hn Hk]]]]].
  unfold ramp_branch.
  apply (triple_lift_ok _ _ _ _ _ x Hx). cbv zeta.
  apply (triple_lift_ok _ _ _ _ _ n Hn).
  eapply triple_bind; [apply ramp_loop_active|]. intros b.
  eapply triple_bind; [apply get_flag_active|].
  intros a st [Ha Hst]. destruct a; [|discriminate]. clear Ha. revert st Hst. cbv iota.
  apply (triple_lift_ok _ _ _ _ _ k Hk).
  eapply triple_bind; [apply write_active|]. intros ?.
  apply triple_ret. auto.
Qed.

Lemma final_correction_written (brightness brightness_requested : Z) :
  triple (fun st => change_in_progress st = true /\ last_written w0 brightness st)
         (final_correction E brightness brightness_requested)
         (fun _ st => last_written w0 brightness_requested st)
         (fun _ _ => False).
Proof.
  unfold final_correction. destruct (Z.eqb_spec brightness brightness_requested) as [->|Hne].
  - apply triple_ret. intros st [_ H]. exact H.
  - cbn [negb]. eapply triple_weaken; [apply write_active| | |].
    + intros st [Hf Hl]. apply (last_written_active _ _ Hf Hl).
    + intros ? st [_ H]. exact H.
    + intros ? st H. exact H.
Qed.

End Undisturbed.

(** What [set_brightness] does before the ramp. *)
Lemma set_brightness_eq (E : env) (percent : pyval) (st : ctl) :
  set_brightness E percent st =
  match percent_to_internal (brightness_max st) percent with
  | Ok target => ramp_to E target (device st) (started st)
  | Raise e => (Raise e, st)
  end.
Proof.
  unfold set_brightness, bind, max_brightness, lift, set_change_in_progress,
    brightness_current, started.
  destruct (percent_to_internal (brightness_max st) percent); reflexivity.
Qed.

Lemma ramp_to_converges (E : env) (w0 : list Z) (target brightness : Z) :
  undisturbed E -> reliable E ->
  Z.abs (target - brightness) < 2 ^ 1026 ->
  triple (active_after w0) (ramp_to E target brightness)
         (fun _ st => last_written w0 target st /\ change_in_progress st = false)
         (fun _ _ => False).
Proof.
  intros Hf Hw Hd. unfold ramp_to.
  eapply triple_bind.
  - destruct (Z.gtb_spec target brightness).
    + apply (ramp_branch_active E Hf Hw). lia.
    + apply (ramp_branch_active E Hf Hw). lia.
  - intros b. eapply triple_bind; [apply (final_correction_written E Hw)|].
    intros ? st [Hdev Hws]. cbn. split; [|reflexivity].
    split; assumption.
Qed.



(** *** A run in any environment: write errors *)

Lemma finite_or_overflow_raises (sf : spec_float) (e : pyexc) :
  PyNum.finite_or_overflow sf = Raise e -> e = OverflowError.
Proof. destruct sf; cbn; intros H; try discriminate. injection H as <-. reflexivity. Qed.

Lemma truediv_int_raises (a b : Z) (e : pyexc) :
  PyNum.truediv_int a b = Raise e -> e <> OSError.
Proof.
  unfold PyNum.truediv_int. destruct (b =? 0).
  - intros H. injection H as <-. discriminate.
  - destruct (a =? 0); [discriminate|].
    destruct (Z.div_eucl _ _) as [q r].
    intros H. apply finite_or_overflow_raises in H. subst. discriminate.
Qed.

Lemma to_int_raises (x : float) (e : pyexc) :
  PyNum.to_int x = Raise e -> e <> OSError.
Proof.
  unfold PyNum.to_int. destruct (Prim2SF x); intros H; try discriminate;
    injection H as <-; discriminate.
Qed.

Lemma mul_float_int_raises (x : float) (b : Z) (e : pyexc) :
  PyNum.mul_float_int x b = Raise e -> e <> OSError.
Proof.
  unfold PyNum.mul_float_int, PyNum.of_int.
  destruct (PyNum.finite_or_overflow _) eqn:H; cbn; [discriminate|].
  intros H'. injection H' as <-. apply finite_or_overflow_raises in H. subst. discriminate.
Qed.

Lemma remainder_of_raises (x : float) (e : pyexc) :
  remainder_of x = Raise e -> e <> OSError.
Proof.
  unfold remainder_of. destruct (PyNum.mul_float_int x BRIGHTNESS_STEP) eqn:H; cbn.
  - apply to_int_raises.
  - intros H'. injection H' as <-. apply (mul_float_int_raises _ _ _ H).
Qed.

Lemma percent_to_internal_raises (max_brightness : Z) (percent : pyval) (e : pyexc) :
  percent_to_internal max_brightness percent = Raise e -> e <> OSError.
Proof.
  unfold percent_to_internal.
  destruct (validate_and_sanitize_brightness_value percent) as [v|e0] eqn:Hv; cbn.
  2:{ intros H. injection H as <-.
      destruct percent as [[z|f]| |]; cbn in Hv;
        repeat match type of Hv with
               | context [if ?c then _ else _] => destruct c
               end; try discriminate; injection Hv as <-; discriminate. }
  destruct (div_100 v) as [q|e1] eqn:Hq; cbn.
  2:{ intros H. injection H as <-. destruct v as [z|f]; cbn [div_100] in Hq.
      - apply (truediv_int_raises _ _ _ Hq).
      - unfold PyNum.truediv_float_int, PyNum.of_int in Hq.
        destruct (PyNum.finite_or_overflow _) eqn:H; cbn [bind_result] in Hq.
        + destruct (a =? 0)%float; [|discriminate]. injection Hq as <-. discriminate.
        + injection Hq as <-. apply finite_or_overflow_raises in H. subst. discriminate. }
  destruct (PyNum.mul_float_int q max_brightness) as [r|e2] eqn:Hr; cbn.
  - apply to_int_raises.
  - intros H. injection H as <-. apply (mul_float_int_raises _ _ _ Hr).
Qed.

Lemma raised_not_OSError (E : env) (w0 : nat) (e : pyexc) (st : ctl) :
  e <> OSError -> writes_ok E w0 st -> raised E w0 e st.
Proof. intros He H. destruct e; try exact H. contradiction. Qed.

Section AnyEnvironment.

Variable E : env.
Variable w0 : nat.

Lemma lift_running {A : Type} (r : result A) :
  (forall e, r = Raise e -> e <> OSError) ->
  triple (running E w0) (lift r) (fun _ st => running E w0 st) (raised E w0).
Proof.
  intros Hr. apply triple_lift. intros st [Hw Hf]. destruct r as [a|e].
  - split; assumption.
  - apply raised_not_OSError; [apply Hr; reflexivity|assumption].
Qed.

Lemma get_flag_running :
  triple (running E w0) (get_change_in_progress E)
         (fun _ st => running E w0 st) (raised E w0).
Proof.
  intros st [Hw Hf]. unfold get_change_in_progress. split.
  - exact Hw.
  - intros Hu. cbn. rewrite (Hu (flag_reads st)). apply Hf. assumption.
Qed.

Lemma sleep_running :
  triple (running E w0) sleep (fun _ st => running E w0 st) (raised E w0).
Proof. intros st H. exact H. Qed.

Lemma write_running (v : Z) :
  triple (running E w0) (write_brightness_value E v)
         (fun _ st => running E w0 st) (raised E w0).
Proof.
  intros st [[Hle Hw] Hf]. unfold write_brightness_value.
  destruct (write_error E (write_calls st)) eqn:Herr.
  - cbn. split; [|exact Hf].
    exists (write_calls st). cbn. repeat split; try assumption; try reflexivity.
  - split; [|exact Hf]. split; cbn; [lia|].
    intros j Hj. destruct (Nat.eq_dec j (write_calls st)) as [->|Hne];
      [assumption|apply Hw; lia].
Qed.

Lemma ramp_loop_running (op : Z -> Z -> Z) (n : nat) :
  forall brightness,
    triple (running E w0) (ramp_loop E op n brightness)
           (fun _ st => running E w0 st) (raised E w0).
Proof.
  induction n as [|n IH]; intros brightness; cbn [ramp_loop].
  - apply triple_ret. auto.
  - eapply triple_bind; [apply get_flag_running|].
    intros active. cbv beta. destruct (negb active).
    + apply triple_ret. auto.
    + eapply triple_bind; [apply write_running|]. intros ?. cbv beta.
      eapply triple_bind; [apply sleep_running|]. intros ?. apply IH.
Qed.

Lemma ramp_branch_running (op : Z -> Z -> Z) (delta brightness : Z) :
  triple (running E w0) (ramp_branch E op delta brightness)
         (fun _ st => running E w0 st) (raised E w0).
Proof.
  unfold ramp_branch.
  eapply triple_bind; [apply lift_running; apply truediv_int_raises|]. intros x. cbv beta zeta.
  eapply triple_bind; [apply lift_running; apply to_int_raises|]. intros n. cbv beta.
  eapply triple_bind; [apply ramp_loop_running|]. intros b. cbv beta.
  eapply triple_bind; [apply get_flag_running|]. intros active. cbv beta.
  destruct active.
  - eapply triple_bind; [apply lift_running; apply remainder_of_raises|]. intros k. cbv beta.
    eapply triple_bind; [apply write_running|]. intros ?.
    apply triple_ret. auto.
  - apply triple_ret. auto.
Qed.

Lemma ramp_to_running (target brightness : Z) :
  triple (running E w0) (ramp_to E target brightness)
         (fun _ st => writes_ok E w0 st) (raised E w0).
Proof.
  unfold ramp_to.
  eapply triple_bind.
  { destruct (target >? brightness); apply ramp_branch_running. }
  intros b. cbv beta.
  eapply triple_bind.
  { unfold final_correction. destruct (negb (b =? target)).
    - apply write_running.
    - apply triple_ret. intros st H. exact H. }
  intros ? st [Hw _]. exact Hw.
Qed.

End AnyEnvironment.

Lemma set_brightness_outcome (E : env) (percent : pyval) (st : ctl) :
  match set_brightness E percent st with
  | (Ok _, st') => writes_ok E (write_calls st) st'
  | (Raise e, st') => raised E (write_calls st) e st'
  end.
Proof.
  rewrite set_brightness_eq.
  assert (H0 : writes_ok E (write_calls st) st).
  { split; [lia|]. intros j Hj. lia. }
  destruct (percent_to_internal (brightness_max st) percent) as [t|e] eqn:Ht.
  - apply (ramp_to_running E (write_calls st) t (device st) (started st)).
    split; [exact H0|]. intros _. reflexivity.
  - apply raised_not_OSError; [|exact H0].
    apply (percent_to_internal_raises _ _ _ Ht).
Qed.

(** C3, as the code has it: when a write to the device file fails during a
    call to [set_brightness], the call raises that [OSError] to its caller
    and the failed write is the last it attempts (no retry, no further
    write); the call does not clear the flag: it is left as it was, set
    unless another thread has stored into it. *)
Theorem set_brightness_write_error (E : env) (percent : pyval) (st st' : ctl)
    (r : result unit) :
  set_brightness E percent st = (r, st') ->
  (exists j, (write_calls st <= j < write_calls st')%nat /\ write_error E j = true) ->
  r = Raise OSError /\
  write_failed E (write_calls st) st' /\
  (undisturbed E -> change_in_progress st' = true).
Proof.
  intros Hrun [j [Hj Hej]].
  pose proof (set_brightness_outcome E percent st) as H. rewrite Hrun in H.
  assert (Hno : ~ writes_ok E (write_calls st) st').
  { intros [_ Hw]. rewrite (Hw j Hj) in Hej. discriminate. }
  destruct r as [u|e]; [contradiction|].
  destruct e; cbn in H; try contradiction.
  destruct H as [Hf Hc]. split; [reflexivity|]. split; assumption.
Qed.

Lemma set_brightness_write_error_witness :
  @Raise unit OSError = Raise OSError /\
  write_failed (failing_at 2) 0 (mk_ctl 1000 true 50 [25; 50] 3 3 2) /\
  (undisturbed (failing_at 2) ->
   change_in_progress (mk_ctl 1000 true 50 [25; 50] 3 3 2) = true).
Proof.
  apply (set_brightness_write_error (failing_at 2) (Num (Int 100)) (init 1000 0)).
  - vm_compute. reflexivity.
  - exists 2%nat. split; [cbn; lia|reflexivity].
Defined.

(** C3 as the specification states it fails: after the failed write the
    flag is still set. *)
Lemma write_error_leaves_flag_set :
  set_brightness (failing_at 2) (Num (Int 100)) (init 1000 0) =
  (Raise OSError, mk_ctl 1000 true 50 [25; 50] 3 3 2).
Proof. vm_compute. reflexivity. Qed.

(** C2: a run cancelled after two full steps.  The loop stops and the
    remainder is not written, but the final correction is not guarded by the
    flag: the cancelled run still writes its own target, 1000, and then
    clears the flag. *)
Theorem cancelled_run_writes_target :
  set_brightness (cancelled_at 2) (Num (Int 100)) (init 1000 0) =
  (Ok tt, mk_ctl 1000 false 1000 [25; 50; 1000] 4 3 2).
Proof. vm_compute. reflexivity. Qed.

(** *** A target less than one step away *)







(** *** Validation and conversion *)

(** C9: a value that is neither an [int] nor a [float] fails the assertion
    of [validate_and_sanitize_brightness_value]; [percent_to_internal] and
    [set_brightness] raise it in turn, and [set_brightness] does so before
    it touches the flag or the device file: the state is unchanged. *)
Theorem non_numeric_rejected (value : pyval) :
  is_numeric value = false ->
  validate_and_sanitize_brightness_value value = Raise AssertionError /\
  (forall max_brightness,
      percent_to_internal max_brightness value = Raise AssertionError) /\
  (forall E st, set_brightness E value st = (Raise AssertionError, st)).
Proof.
  intros Hv.
  assert (H : validate_and_sanitize_brightness_value value = Raise AssertionError).
  { destruct value as [n| |]; [discriminate|reflexivity|reflexivity]. }
  assert (H' : forall m, percent_to_internal m value = Raise AssertionError).
  { intros m. unfold percent_to_internal. rewrite H. reflexivity. }
  split; [exact H|]. split; [exact H'|].
  intros E st. rewrite set_brightness_eq, H'. reflexivity.
Qed.

Lemma non_numeric_rejected_witness :
  validate_and_sanitize_brightness_value (Str "50") = Raise AssertionError /\
  (forall max_brightness,
      percent_to_internal max_brightness (Str "50") = Raise AssertionError) /\
  (forall E st, set_brightness E (Str "50") st = (Raise AssertionError, st)).
Proof. apply (non_numeric_rejected (Str "50")). reflexivity. Defined.

(** C8: on a number, [validate_and_sanitize_brightness_value] returns 1
    when the number is below 1, 100 when it is above 100, and the number
    itself when it lies between 1 and 100; it raises on no number. *)
Theorem validate_clamps (n : number) :
  (below_min n = true ->
   validate_and_sanitize_brightness_value (Num n) = Ok (Int 1)) /\
  (above_max n = true ->
   validate_and_sanitize_brightness_value (Num n) = Ok (Int 100)) /\
  (in_range n -> validate_and_sanitize_brightness_value (Num n) = Ok n) /\
  (exists v, validate_and_sanitize_brightness_value (Num n) = Ok v).
Proof.
  split; [|split; [|split]].
  - destruct n as [z|f]; cbn [below_min validate_and_sanitize_brightness_value];
      intros ->; reflexivity.
  - destruct n as [z|f]; cbn [above_max validate_and_sanitize_brightness_value].
    + intros H. rewrite H. destruct (Z.ltb_spec z 1); [|reflexivity].
      apply Z.gtb_lt in H. lia.
    + intros H. rewrite (Binary64Facts.above_100_not_below_1 f H), H. reflexivity.
  - apply Binary64Facts.validate_in_range.
  - destruct n as [z|f]; cbn [validate_and_sanitize_brightness_value].
    + destruct (z <? 1); [eexists; reflexivity|].
      destruct (z >? 100); eexists; reflexivity.
    + destruct (f <? 1)%float; [eexists; reflexivity|].
      destruct (100 <? f)%float; eexists; reflexivity.
Qed.

Example validate_below : validate_and_sanitize_brightness_value (Num (Float (-3.5))) = Ok (Int 1).
Proof. reflexivity. Qed.

Example validate_above : validate_and_sanitize_brightness_value (Num (Int 250)) = Ok (Int 100).
Proof. reflexivity. Qed.

Example validate_within :
  validate_and_sanitize_brightness_value (Num (Float 50.5)) = Ok (Float 50.5).
Proof. reflexivity. Qed.

(** C7, as the code has it.  For every bound [max_brightness > 0] that
    [float()] can convert, [percent_to_internal] is monotone on the
    percentages between 1 and 100, and maps them into [0, top], where
    [top = int(float(max_brightness))] is the value of 100 percent.  So the
    results lie in [0, max_brightness] exactly when the float of the bound
    is not above the bound, as for every bound up to [2^53], where [top] is
    the bound itself. *)
Theorem percent_to_internal_range_mono (max_brightness : Z) (M : float) :
  0 < max_brightness -> PyNum.of_int max_brightness = Ok M ->
  exists top,
    PyNum.to_int M = Ok top /\
    (max_brightness <= 2 ^ 53 -> top = max_brightness) /\
    percent_to_internal max_brightness (Num (Int 100)) = Ok top /\
    (forall v, in_range v ->
       exists r, percent_to_internal max_brightness (Num v) = Ok r /\
                 0 <= r <= top) /\
    (forall v1 v2, in_range v1 -> in_range v2 -> PyNum.le v1 v2 = true ->
       exists r1 r2,
         percent_to_internal max_brightness (Num v1) = Ok r1 /\
         percent_to_internal max_brightness (Num v2) = Ok r2 /\
         r1 <= r2).
Proof.
  intros Hmax HM.
  destruct (Binary64Facts.of_int_ok_repr max_brightness M Hmax HM)
    as [vM [HrM [HvM Hexact]]].
  destruct (Binary64Facts.to_int_repr M vM HrM) as [top [Htop [Htv Htop0]]].
  exists top. split; [exact Htop|]. split; [|split; [|split]].
  - intros Hle. rewrite (Hexact Hle) in Htv. destruct Htv as [H1 H2].
    apply le_IZR in H1. rewrite <- plus_IZR in H2. apply lt_IZR in H2. lia.
  - assert (Hd : div_100 (Int 100) = Ok 1%float) by (vm_compute; reflexivity).
    assert (Hv : validate_and_sanitize_brightness_value (Num (Int 100)) = Ok (Int 100))
      by reflexivity.
    unfold percent_to_internal. rewrite Hv. cbn [bind_result].
    rewrite Hd. cbn [bind_result].
    unfold PyNum.mul_float_int. rewrite HM. cbn [bind_result].
    apply (Binary64Facts.mul_1_same_int M vM top HrM); [|exact Htop].
    apply Rlt_le_trans with 1%R; [apply Rlt_0_1|exact HvM].
  - intros v Hv. destruct (Binary64Facts.in_range_has_value v Hv) as [x Hx].
    assert (HvM0 : (0 < vM)%R)
      by (apply Rlt_le_trans with 1%R; [apply Rlt_0_1|exact HvM]).
    destruct (Binary64Facts.percent_to_internal_any_bound max_brightness M vM v x
                HM HrM HvM0 Hv Hx)
      as [n [k1 [E1 [k2 [E2 [Hn [_ [_ [[Hn1 _] [Hn0 Hle]]]]]]]]]].
    exists n. split; [exact Hn|]. split; [exact Hn0|].
    destruct Htv as [_ Ht2].
    assert (H : (IZR n < IZR (top + 1))%R).
    { rewrite plus_IZR. eapply Rle_lt_trans; [exact Hn1|].
      eapply Rle_lt_trans; [exact Hle|exact Ht2]. }
    apply lt_IZR in H. lia.
  - intros v1 v2 Hv1 Hv2 Hle.
    apply (Binary64Facts.percent_to_internal_mono_any_bound max_brightness M v1 v2
             Hmax HM Hv1 Hv2 Hle).
Qed.

Lemma percent_to_internal_range_mono_witness :
  exists top,
    PyNum.to_int 9007199254740996%float = Ok top /\
    (9007199254740995 <= 2 ^ 53 -> top = 9007199254740995) /\
    percent_to_internal 9007199254740995 (Num (Int 100)) = Ok top /\
    (forall v, in_range v ->
       exists r, percent_to_internal 9007199254740995 (Num v) = Ok r /\
                 0 <= r <= top) /\
    (forall v1 v2, in_range v1 -> in_range v2 -> PyNum.le v1 v2 = true ->
       exists r1 r2,
         percent_to_internal 9007199254740995 (Num v1) = Ok r1 /\
         percent_to_internal 9007199254740995 (Num v2) = Ok r2 /\
         r1 <= r2).
Proof.
  apply (percent_to_internal_range_mono 9007199254740995 9007199254740996%float).
  - lia.
  - vm_compute. reflexivity.
Defined.

(** For a bound up to [2^53] the range is [0, max_brightness]. *)
Example range_of_4882 :
  exists top,
    PyNum.to_int 4882%float = Ok top /\ top = 4882 /\
    percent_to_internal 4882 (Num (Int 100)) = Ok top.
Proof. exists 4882. repeat split; vm_compute; reflexivity. Qed.

(** C7 as the specification states it fails for a bound that is not a float:
    [float(2^53 + 3)] is [2^53 + 4], and 100 percent of it exceeds the
    bound. *)
Lemma percent_to_internal_exceeds_bound :
  percent_to_internal 9007199254740995 (Num (Int 100)) = Ok 9007199254740996.
Proof. vm_compute. reflexivity. Qed.

(** *** The current percentage *)

(** [get_current_brightness_percentage]: a positive argument is converted
    as it is and the device file is not read; with the default 0, or any
    argument that is not positive, the value in the device file is
    converted.  For a raw value between 0 and [max_brightness] the result
    is a percentage between 0 and 100, 100 for [max_brightness] itself, and
    the controller is left as it was. *)
Theorem current_percentage_range (st : ctl) (raw : Z) :
  0 < brightness_max st -> valid_raw st -> raw <= brightness_max st ->
  exists pct,
    get_current_brightness_percentage raw st = (Ok pct, st) /\
    internal_to_percent (brightness_max st)
      (if raw >? 0 then raw else device st) = Ok pct /\
    0 <= pct <= 100 /\
    ((if raw >? 0 then raw else device st) = brightness_max st -> pct = 100).
Proof.
  intros Hmax [Hd0 Hd1] Hraw.
  set (v := if raw >? 0 then raw else device st).
  assert (Hv : 0 <= v <= brightness_max st).
  { unfold v. destruct (Z.gtb_spec raw 0); lia. }
  destruct (Binary64Facts.internal_to_percent_range _ v Hmax Hv)
    as [pct [Hp [Hr Hfull]]].
  exists pct. split; [|split; [exact Hp|split; assumption]].
  unfold get_current_brightness_percentage, max_brightness, bind, lift,
    brightness_current.
  unfold v in Hp. destruct (raw >? 0); rewrite Hp; reflexivity.
Qed.

Lemma current_percentage_range_witness :
  exists pct,
    get_current_brightness_percentage 0 (init 4882 2441) =
      (Ok pct, init 4882 2441) /\
    internal_to_percent (brightness_max (init 4882 2441))
      (if 0 >? 0 then 0 else device (init 4882 2441)) = Ok pct /\
    0 <= pct <= 100 /\
    ((if 0 >? 0 then 0 else device (init 4882 2441)) =
       brightness_max (init 4882 2441) -> pct = 100).
Proof.
  apply (current_percentage_range (init 4882 2441) 0).
  - cbn. lia.
  - unfold valid_raw. cbn. lia.
  - cbn. lia.
Defined.

(** *** Every number as a percentage *)

Lemma above_max_validates (n : number) :
  above_max n = true ->
  validate_and_sanitize_brightness_value (Num n) = Ok (Int 100).
Proof.
  destruct n as [z|f]; cbn [above_max validate_and_sanitize_brightness_value];
    intros H.
  - rewrite H. destruct (Z.ltb_spec z 1); [|reflexivity].
    apply Z.gtb_lt in H. lia.
  - rewrite (Binary64Facts.above_100_not_below_1 f H), H. reflexivity.
Qed.

(** Full brightness: 100 percent, and every number above 100, which is
    clamped to it, converts to [max_brightness] exactly, for a bound
    [0 < max_brightness <= 2^53]. *)
Theorem full_percentage_is_max (max_brightness : Z) (n : number) :
  0 < max_brightness <= 2 ^ 53 ->
  above_max n = true \/ n = Int 100 \/ n = Float 100 ->
  percent_to_internal max_brightness (Num n) = Ok max_brightness.
Proof.
  intros Hmax Hn.
  destruct (Binary64Facts.percent_to_internal_full max_brightness Hmax) as [Hi Hf].
  destruct Hn as [Habove|[->| ->]]; [|exact Hi|exact Hf].
  rewrite (Binary64Facts.percent_to_internal_validated max_brightness n (Int 100)
             (above_max_validates n Habove)); [exact Hi|].
  cbn. lia.
Qed.

Lemma full_percentage_is_max_witness :
  percent_to_internal 4882 (Num (Float infinity)) = Ok 4882.
Proof.
  apply (full_percentage_is_max 4882 (Float infinity)).
  - split; [lia|]. cbn. lia.
  - left. reflexivity.
Defined.

(** Every integer and every float other than NaN, in range or not, finite
    or not, converts without an exception to a raw value between 0 and
    [max_brightness], for a bound [0 < max_brightness <= 2^53]. *)
Theorem every_number_converts (max_brightness : Z) (n : number) :
  0 < max_brightness <= 2 ^ 53 -> Binary64.not_nan n ->
  exists target,
    percent_to_internal max_brightness (Num n) = Ok target /\
    0 <= target <= max_brightness.
Proof.
  intros Hmax Hn.
  destruct (Binary64Facts.validate_not_nan n Hn) as [v [Hv Hr]].
  rewrite (Binary64Facts.percent_to_internal_validated max_brightness n v Hv Hr).
  destruct (Binary64Facts.in_range_has_value v Hr) as [x Hx].
  destruct (Binary64Facts.percent_to_internal_spec max_brightness v x Hmax Hr Hx)
    as [t [k1 [E1 [k2 [E2 [Ht [_ [_ [_ Hb]]]]]]]]].
  exists t. split; assumption.
Qed.

Lemma every_number_converts_witness :
  exists target,
    percent_to_internal 4882 (Num (Float neg_infinity)) = Ok target /\
    0 <= target <= 4882.
Proof.
  apply (every_number_converts 4882 (Float neg_infinity)).
  - split; [lia|]. cbn. lia.
  - cbn. discriminate.
Defined.

(** NaN is a float, so it passes the assertion, and since it is neither
    below 1 nor above 100 it is returned as it is; the conversion then fails
    in [int()] with [ValueError], and [set_brightness] raises it before it
    touches the flag or the device file. *)
Theorem nan_percentage_rejected (f : float) (E : env) (st : ctl) :
  Prim2SF f = S754_nan -> 0 <= brightness_max st <= 2 ^ 53 ->
  validate_and_sanitize_brightness_value (Num (Float f)) = Ok (Float f) /\
  percent_to_internal (brightness_max st) (Num (Float f)) = Raise ValueError /\
  set_brightness E (Num (Float f)) st = (Raise ValueError, st).
Proof.
  intros Hf Hmax.
  assert (Hv : validate_and_sanitize_brightness_value (Num (Float f)) = Ok (Float f)).
  { cbn [validate_and_sanitize_brightness_value].
    assert (H1 : (f <? 1)%float = false)
      by (rewrite ltb_spec, Hf; reflexivity).
    assert (H2 : (100 <? f)%float = false)
      by (rewrite ltb_spec, Hf; unfold SFltb, SFcompare;
          destruct (Prim2SF 100); reflexivity).
    rewrite H1, H2. reflexivity. }
  assert (Hp : percent_to_internal (brightness_max st) (Num (Float f)) = Raise ValueError).
  { unfold percent_to_internal. rewrite Hv. cbn [bind_result div_100].
    unfold PyNum.truediv_float_int. rewrite Binary64Facts.of_int_100.
    cbn [bind_result].
    assert (H0 : (100 =? 0)%float = false) by reflexivity.
    rewrite H0. cbn [bind_result].
    destruct (Binary64Facts.of_int_exact (brightness_max st) Hmax) as [y [Hy _]].
    unfold PyNum.mul_float_int. rewrite Hy. cbn [bind_result].
    unfold PyNum.to_int.
    assert (Hq : Prim2SF (f / 100 * y) = S754_nan).
    { rewrite mul_spec, div_spec, Hf. reflexivity. }
    rewrite Hq. reflexivity. }
  split; [exact Hv|]. split; [exact Hp|].
  rewrite set_brightness_eq, Hp. reflexivity.
Qed.

Lemma nan_percentage_rejected_witness :
  validate_and_sanitize_brightness_value (Num (Float nan)) = Ok (Float nan) /\
  percent_to_internal (brightness_max (init 4882 2441)) (Num (Float nan)) =
    Raise ValueError /\
  set_brightness quiet (Num (Float nan)) (init 4882 2441) =
    (Raise ValueError, init 4882 2441).
Proof.
  apply (nan_percentage_rejected nan quiet (init 4882 2441)).
  - reflexivity.
  - cbn. lia.
Defined.

(** *** What a call that returns has done, in any environment *)

Section Settled.

Variable E : env.
Variable w0 : list Z.
Variable max0 : Z.

Let anything : pyexc -> ctl -> Prop := fun _ _ => True.

Lemma get_flag_settled (b : Z) :
  triple (settled w0 max0 b) (get_change_in_progress E)
         (fun _ st => settled w0 max0 b st) anything.
Proof. intros st H. exact H. Qed.

Lemma sleep_settled (b : Z) :
  triple (settled w0 max0 b) sleep (fun _ st => settled w0 max0 b st) anything.
Proof. intros st H. exact H. Qed.

Lemma write_settled (b v : Z) :
  triple (settled w0 max0 b) (write_brightness_value E v)
         (fun _ st => settled w0 max0 v st) anything.
Proof.
  intros st [Hd [Hm [ws [Hws _]]]]. unfold write_brightness_value.
  destruct (write_error E (write_calls st)); [exact I|].
  split; [reflexivity|]. split; [exact Hm|].
  exists (ws ++ [v]). cbn. rewrite Hws, app_assoc. split; [reflexivity|].
  right. exists ws. reflexivity.
Qed.

Lemma ramp_loop_settled (op : Z -> Z -> Z) (n : nat) :
  forall brightness,
    triple (settled w0 max0 brightness) (ramp_loop E op n brightness)
           (fun b st => settled w0 max0 b st) anything.
Proof.
  induction n as [|n IH]; intros brightness; cbn [ramp_loop].
  - apply triple_ret. auto.
  - eapply triple_bind; [apply get_flag_settled|].
    intros active. cbv beta. destruct (negb active).
    + apply triple_ret. auto.
    + eapply triple_bind; [apply write_settled|]. intros ?. cbv beta.
      eapply triple_bind; [apply sleep_settled|]. intros ?. apply IH.
Qed.

Lemma ramp_branch_settled (op : Z -> Z -> Z) (delta brightness : Z) :
  triple (settled w0 max0 brightness) (ramp_branch E op delta brightness)
         (fun b st => settled w0 max0 b st) anything.
Proof.
  unfold ramp_branch.
  eapply triple_bind.
  { apply triple_lift with (Q := fun _ st => settled w0 max0 brightness st).
    intros st H. destruct (PyNum.truediv_int delta BRIGHTNESS_STEP); [exact H|exact I]. }
  intros x. cbv beta zeta.
  eapply triple_bind.
  { apply triple_lift with (Q := fun _ st => settled w0 max0 brightness st).
    intros st H. destruct (PyNum.to_int (snd (PyNum.modf x))); [exact H|exact I]. }
  intros n. cbv beta.
  eapply triple_bind; [apply ramp_loop_settled|]. intros b. cbv beta.
  eapply triple_bind; [apply get_flag_settled|]. intros active. cbv beta.
  destruct active.
  - eapply triple_bind.
    { apply triple_lift with (Q := fun _ st => settled w0 max0 b st).
      intros st H. destruct (remainder_of (fst (PyNum.modf x))); [exact H|exact I]. }
    intros k. cbv beta.
    eapply triple_bind; [apply write_settled|]. intros ?.
    apply triple_ret. auto.
  - apply triple_ret. auto.
Qed.

Lemma ramp_to_settled (target brightness : Z) :
  triple (settled w0 max0 brightness) (ramp_to E target brightness)
         (fun _ st => settled w0 max0 target st /\ change_in_progress st = false)
         anything.
Proof.
  unfold ramp_to.
  eapply triple_bind.
  { destruct (target >? brightness); apply ramp_branch_settled. }
  intros b. cbv beta.
  eapply triple_bind.
  { unfold final_correction.
    instantiate (1 := fun _ st => settled w0 max0 target st).
    destruct (Z.eqb_spec b target) as [->|Hne]; cbn [negb].
    - apply triple_ret. auto.
    - apply write_settled. }
  intros ? st H. cbn. split; [exact H|reflexivity].
Qed.

End Settled.

(** A call to [set_brightness] that returns, cancelled or not, has left the
    device file at its own target: the target is the last value the call
    wrote, or the call wrote nothing and the file already held it.  The flag
    is cleared and the bound is unchanged. *)
Theorem set_brightness_settles (E : env) (percent : pyval) (st st' : ctl)
    (target : Z) :
  percent_to_internal (brightness_max st) percent = Ok target ->
  set_brightness E percent st = (Ok tt, st') ->
  settled (written st) (brightness_max st) target st' /\
  change_in_progress st' = false.
Proof.
  intros Ht Hrun. rewrite set_brightness_eq, Ht in Hrun.
  pose proof (ramp_to_settled E (written st) (brightness_max st) target (device st)
                (started st)) as H.
  rewrite Hrun in H. apply H.
  split; [reflexivity|]. split; [reflexivity|].
  exists []. split; [symmetry; apply app_nil_r|]. left. reflexivity.
Qed.

Lemma set_brightness_settles_witness :
  settled (written (init 1000 0)) (brightness_max (init 1000 0)) 1000
          (mk_ctl 1000 false 1000 [25; 50; 1000] 4 3 2) /\
  change_in_progress (mk_ctl 1000 false 1000 [25; 50; 1000] 4 3 2) = false.
Proof.
  apply (set_brightness_settles (cancelled_at 2) (Num (Int 100)) (init 1000 0)
           (mk_ctl 1000 false 1000 [25; 50; 1000] 4 3 2) 1000).
  - vm_compute. reflexivity.
  - vm_compute. reflexivity.
Defined.

(** *** The writes of a ramp, one by one *)

Lemma seq_steps (sgn b : Z) (n : nat) :
  map (fun i => (b + sgn * BRIGHTNESS_STEP) + sgn * (BRIGHTNESS_STEP * Z.of_nat (S i)))
      (seq 0 n) =
  map (fun i => b + sgn * (BRIGHTNESS_STEP * Z.of_nat (S i))) (seq 1 n).
Proof.
  rewrite <- seq_shift, map_map. apply map_ext. intros i. lia.
Qed.

Lemma end_reached (b sgn t k r d : Z) :
  sgn = 1 \/ sgn = -1 -> d = t + r ->
  (b + sgn * (t + k) =? b + sgn * d) = (k =? r).
Proof.
  intros Hs ->. destruct (Z.eqb_spec k r) as [->|Hne].
  - apply Z.eqb_eq. reflexivity.
  - apply Z.eqb_neq. destruct Hs as [-> | ->]; lia.
Qed.

Lemma ramp_loop_trace (E : env) (op : Z -> Z -> Z) (sgn : Z) :
  undisturbed E -> reliable E ->
  (forall a x, op a x = a + sgn * x) ->
  forall (n : nat) (b : Z) (st : ctl),
    change_in_progress st = true -> device st = b ->
    ramp_loop E op n b st =
    (Ok (b + sgn * (BRIGHTNESS_STEP * Z.of_nat n)),
     mk_ctl (brightness_max st) true (b + sgn * (BRIGHTNESS_STEP * Z.of_nat n))
            (written st ++
             map (fun i => b + sgn * (BRIGHTNESS_STEP * Z.of_nat (S i))) (seq 0 n))
            (flag_reads st + n) (write_calls st + n) (sleeps st + n)).
Proof.
  intros Hf Hw Hop. induction n as [|n IH]; intros b st Hst Hdev.
  - cbn [ramp_loop seq map]. unfold ret. destruct st as [mx fl dv wr fr wc sl].
    cbn in *. subst. rewrite app_nil_r, !Nat.add_0_r. repeat f_equal; lia.
  - cbn [ramp_loop]. unfold bind at 1. unfold get_change_in_progress.
    rewrite (Hf (flag_reads st)), Hst. cbv beta iota zeta. cbn [negb].
    unfold bind at 1. unfold write_brightness_value at 1. cbn [write_calls].
    rewrite (Hw (write_calls st)). cbv beta iota zeta.
    unfold bind at 1. unfold sleep at 1. cbv beta iota zeta.
    cbn [brightness_max change_in_progress device written flag_reads write_calls sleeps].
    rewrite IH by reflexivity.
    cbn [brightness_max change_in_progress device written flag_reads write_calls sleeps].
    rewrite (Hop b BRIGHTNESS_STEP).
    rewrite seq_steps. cbn [seq map]. rewrite <- app_assoc. cbn [app].
    replace (b + sgn * BRIGHTNESS_STEP + sgn * (BRIGHTNESS_STEP * Z.of_nat n))
      with (b + sgn * (BRIGHTNESS_STEP * Z.of_nat (S n))) by lia.
    replace (b + sgn * (BRIGHTNESS_STEP * Z.of_nat 1))
      with (b + sgn * BRIGHTNESS_STEP) by lia.
    replace (S (flag_reads st) + n)%nat with (flag_reads st + S n)%nat by lia.
    replace (S (write_calls st) + n)%nat with (write_calls st + S n)%nat by lia.
    replace (S (sleeps st) + n)%nat with (sleeps st + S n)%nat by lia.
    reflexivity.
Qed.

(** A call that is neither cancelled nor fails, over a distance [d] below
    [2^52]: it writes [d / 25] steps of exactly 25 towards the target,
    sleeping after each, then the step for the remainder, which leaves it at
    the target or one unit short of it, and in the second case the target
    itself.  These are all its writes. *)
Theorem ramp_trace (E : env) (percent : pyval) (st : ctl) (target : Z) :
  undisturbed E -> reliable E ->
  percent_to_internal (brightness_max st) percent = Ok target ->
  Z.abs (target - device st) < 2 ^ 52 ->
  exists k st',
    set_brightness E percent st = (Ok tt, st') /\
    Z.abs (target - device st) mod BRIGHTNESS_STEP - 1 <= k
      <= Z.abs (target - device st) mod BRIGHTNESS_STEP /\
    0 <= k /\
    written st' =
      written st ++
      map (fun i => device st + (if target >? device st then 1 else -1) *
                                (BRIGHTNESS_STEP * Z.of_nat (S i)))
          (seq 0 (Z.to_nat (Z.abs (target - device st) / BRIGHTNESS_STEP))) ++
      [device st + (if target >? device st then 1 else -1) *
                   (BRIGHTNESS_STEP * (Z.abs (target - device st) / BRIGHTNESS_STEP) + k)] ++
      (if k =? Z.abs (target - device st) mod BRIGHTNESS_STEP then [] else [target]) /\
    sleeps st' =
      (sleeps st + Z.to_nat (Z.abs (target - device st) / BRIGHTNESS_STEP))%nat /\
    device st' = target /\
    change_in_progress st' = false.
Proof.
  intros Hf Hw Ht Hd.
  set (d := Z.abs (target - device st)) in *.
  set (sgn := if target >? device st then 1 else -1).
  set (op := if target >? device st then Z.add else Z.sub).
  assert (Hop : forall a x, op a x = a + sgn * x).
  { intros a x. unfold op, sgn. destruct (target >? device st); lia. }
  assert (Htarget : target = device st + sgn * d).
  { unfold sgn, d. destruct (Z.gtb_spec target (device st)); lia. }
  destruct (Binary64Facts.ramp_arith_exact d ltac:(unfold d in *; lia))
    as [x [n [k [Hx [Hn [Hk [Hnq [Hkr Hk0]]]]]]]].
  change 25 with BRIGHTNESS_STEP in Hnq, Hkr.
  pose proof (Z.div_mod d BRIGHTNESS_STEP ltac:(discriminate)) as Hqr.
  assert (Hn0 : 0 <= n).
  { subst n. apply Z.div_pos; [unfold d; lia|reflexivity]. }
  rewrite set_brightness_eq, Ht. unfold ramp_to, bind at 1.
  replace (if target >? device st
           then ramp_branch E Z.add (target - device st) (device st)
           else ramp_branch E Z.sub (device st - target) (device st))
    with (ramp_branch E op d (device st)).
  2:{ unfold op, d. destruct (Z.gtb_spec target (device st)); f_equal; lia. }
  unfold ramp_branch, bind at 1, lift at 1. rewrite Hx. cbv beta iota zeta.
  unfold bind at 1, lift at 1. rewrite Hn. cbv beta iota zeta.
  unfold bind at 1.
  rewrite (ramp_loop_trace E op sgn Hf Hw Hop (Z.to_nat n) (device st) (started st)
             eq_refl eq_refl).
  cbv beta iota zeta. unfold bind at 1, get_change_in_progress at 1.
  cbn [flag_reads change_in_progress brightness_max device written write_calls sleeps started].
  rewrite (Hf (flag_reads st + Z.to_nat n)%nat). cbv beta iota zeta.
  unfold bind at 1, lift at 1. rewrite Hk. cbv beta iota zeta.
  unfold bind at 1, write_brightness_value at 1.
  cbn [flag_reads change_in_progress brightness_max device written write_calls sleeps].
  rewrite (Hw (write_calls st + Z.to_nat n)%nat). cbv beta iota zeta.
  unfold ret at 1. rewrite Z2Nat.id by exact Hn0. rewrite (Hop _ k).
  replace (device st + sgn * (BRIGHTNESS_STEP * n) + sgn * k)
    with (device st + sgn * (BRIGHTNESS_STEP * n + k)) by lia.
  set (b_end := device st + sgn * (BRIGHTNESS_STEP * n + k)).
  assert (Hend : (b_end =? target) = (k =? d mod BRIGHTNESS_STEP)).
  { unfold b_end.
    transitivity (device st + sgn * (BRIGHTNESS_STEP * n + k) =? device st + sgn * d).
    - f_equal. exact Htarget.
    - apply end_reached.
      + unfold sgn. destruct (target >? device st); lia.
      + rewrite Hnq. exact Hqr. }
  unfold bind at 1, final_correction. rewrite Hend.
  exists k. unfold fst, snd.
  destruct (Z.eqb_spec k (d mod BRIGHTNESS_STEP)) as [Hkeq|Hkne]; cbn [negb].
  - unfold ret, set_change_in_progress. eexists. split; [reflexivity|].
    cbn [written sleeps device change_in_progress].
    split; [exact Hkr|]. split; [exact Hk0|].
    split; [rewrite <- Hnq, app_nil_r, <- app_assoc; reflexivity|].
    split; [rewrite <- Hnq; reflexivity|].
    split; [|reflexivity].
    apply Z.eqb_eq. exact Hend.
  - unfold write_brightness_value at 1.
    cbn [flag_reads change_in_progress brightness_max device written write_calls sleeps].
    rewrite (Hw (S (write_calls st + Z.to_nat n))). unfold set_change_in_progress.
    eexists. split; [reflexivity|].
    cbn [written sleeps device change_in_progress].
    split; [exact Hkr|]. split; [exact Hk0|].
    split; [rewrite <- Hnq, <- !app_assoc; reflexivity|].
    split; [rewrite <- Hnq; reflexivity|].
    split; reflexivity.
Qed.

Lemma ramp_trace_witness :
  exists k st',
    set_brightness quiet (Num (Int 30)) (init 100 1) = (Ok tt, st') /\
    Z.abs (30 - device (init 100 1)) mod BRIGHTNESS_STEP - 1 <= k
      <= Z.abs (30 - device (init 100 1)) mod BRIGHTNESS_STEP /\
    0 <= k /\
    written st' =
      written (init 100 1) ++
      map (fun i => device (init 100 1) +
                    (if 30 >? device (init 100 1) then 1 else -1) *
                    (BRIGHTNESS_STEP * Z.of_nat (S i)))
          (seq 0 (Z.to_nat (Z.abs (30 - device (init 100 1)) / BRIGHTNESS_STEP))) ++
      [device (init 100 1) + (if 30 >? device (init 100 1) then 1 else -1) *
         (BRIGHTNESS_STEP * (Z.abs (30 - device (init 100 1)) / BRIGHTNESS_STEP) + k)] ++
      (if k =? Z.abs (30 - device (init 100 1)) mod BRIGHTNESS_STEP
       then [] else [30]) /\
    sleeps st' =
      (sleeps (init 100 1) +
       Z.to_nat (Z.abs (30 - device (init 100 1)) / BRIGHTNESS_STEP))%nat /\
    device st' = 30 /\
    change_in_progress st' = false.
Proof.
  apply (ramp_trace quiet (Num (Int 30)) (init 100 1) 30).
  - intros n. reflexivity.
  - intros n. reflexivity.
  - vm_compute. reflexivity.
  - vm_compute. reflexivity.
Defined.

(** The run of the witness: one step of 25, a remainder step that stops one
    unit short of the target, and the correction. *)
Example ramp_with_correction :
  set_brightness quiet (Num (Int 30)) (init 100 1) =
  (Ok tt, mk_ctl 100 false 30 [26; 29; 30] 2 3 1).
Proof. vm_compute. reflexivity. Qed.

(** *** No overshoot *)

Section Within.

Variable E : env.
Variable w0 : list Z.
Variables lo hi : Z.

Let inside : pyexc -> ctl -> Prop := fun _ st => within w0 lo hi st.

Lemma get_flag_within :
  triple (within w0 lo hi) (get_change_in_progress E)
         (fun _ st => within w0 lo hi st) inside.
Proof. intros st H. exact H. Qed.

Lemma sleep_within :
  triple (within w0 lo hi) sleep (fun _ st => within w0 lo hi st) inside.
Proof. intros st H. exact H. Qed.

Lemma write_within (v : Z) :
  lo <= v <= hi ->
  triple (within w0 lo hi) (write_brightness_value E v)
         (fun _ st => within w0 lo hi st) inside.
Proof.
  intros Hv st [ws [Hws Hall]]. unfold write_brightness_value.
  destruct (write_error E (write_calls st)).
  - exists ws. split; assumption.
  - exists (ws ++ [v]). cbn. rewrite Hws, app_assoc. split; [reflexivity|].
    apply Forall_app. split; [exact Hall|]. constructor; [exact Hv|constructor].
Qed.

Lemma ramp_loop_within (op : Z -> Z -> Z) (sgn : Z) :
  (forall a x, op a x = a + sgn * x) ->
  forall (n : nat) (b : Z),
    (forall j, 1 <= j <= Z.of_nat n -> lo <= b + sgn * (BRIGHTNESS_STEP * j) <= hi) ->
    triple (within w0 lo hi) (ramp_loop E op n b)
           (fun b' st => within w0 lo hi st /\
                         exists j, 0 <= j <= Z.of_nat n /\
                                   b' = b + sgn * (BRIGHTNESS_STEP * j))
           inside.
Proof.
  intros Hop. induction n as [|n IH]; intros b Hb; cbn [ramp_loop].
  - apply triple_ret. intros st H. split; [exact H|]. exists 0. split; lia.
  - eapply triple_bind; [apply get_flag_within|].
    intros active. cbv beta. destruct (negb active).
    + apply triple_ret. intros st H. split; [exact H|]. exists 0. split; lia.
    + eapply triple_bind.
      { apply write_within. rewrite Hop.
        pose proof (Hb 1 ltac:(lia)) as H1. rewrite Z.mul_1_r in H1. exact H1. }
      intros ?. cbv beta.
      eapply triple_bind; [apply sleep_within|]. intros ?.
      eapply triple_weaken.
      * apply (IH (op b BRIGHTNESS_STEP)). intros j Hj. rewrite Hop.
        pose proof (Hb (j + 1) ltac:(lia)) as H1.
        replace (b + sgn * BRIGHTNESS_STEP + sgn * (BRIGHTNESS_STEP * j))
          with (b + sgn * (BRIGHTNESS_STEP * (j + 1))) by lia.
        exact H1.
      * intros st H. exact H.
      * intros b' st [H [j [Hj Hb']]]. split; [exact H|].
        exists (j + 1). split; [lia|]. rewrite Hb', Hop. lia.
      * intros e st H. exact H.
Qed.

Lemma ramp_branch_within (op : Z -> Z -> Z) (sgn : Z) (delta brightness : Z) :
  (forall a x, op a x = a + sgn * x) ->
  0 <= delta < 2 ^ 52 ->
  (forall t, 0 <= t <= delta -> lo <= brightness + sgn * t <= hi) ->
  triple (within w0 lo hi) (ramp_branch E op delta brightness)
         (fun _ st => within w0 lo hi st) inside.
Proof.
  intros Hop Hd Hb.
  destruct (Binary64Facts.ramp_arith_exact delta Hd)
    as [x [n [k [Hx [Hn [Hk [Hnq [Hkr Hk0]]]]]]]].
  change 25 with BRIGHTNESS_STEP in Hnq, Hkr.
  pose proof (Z.div_mod delta BRIGHTNESS_STEP ltac:(discriminate)) as Hqr.
  pose proof (Z.mod_pos_bound delta BRIGHTNESS_STEP ltac:(reflexivity)) as Hrb.
  rewrite <- Hnq in Hqr.
  assert (Hn0 : 0 <= n).
  { subst n. apply Z.div_pos; [lia|reflexivity]. }
  unfold ramp_branch.
  eapply triple_lift_ok; [exact Hx|]. cbv beta zeta.
  eapply triple_lift_ok; [exact Hn|].
  eapply triple_bind.
  { apply (ramp_loop_within op sgn Hop (Z.to_nat n) brightness).
    intros j Hj. rewrite Z2Nat.id in Hj by exact Hn0.
    apply Hb. unfold BRIGHTNESS_STEP in *. nia. }
  intros b. cbv beta.
  eapply triple_bind.
  { instantiate (1 := fun _ st => within w0 lo hi st /\
                   exists j, 0 <= j <= n /\ b = brightness + sgn * (BRIGHTNESS_STEP * j)).
    intros st [H [j [Hj Hbj]]]. rewrite Z2Nat.id in Hj by exact Hn0.
    unfold get_change_in_progress. split; [exact H|]. exists j. split; assumption. }
  intros active. cbv beta. destruct active.
  - eapply triple_lift_ok; [exact Hk|].
    eapply triple_bind.
    { instantiate (1 := fun _ st => within w0 lo hi st).
      intros st [H [j [Hj Hbj]]].
      apply (write_within (op b k)); [|exact H].
      rewrite Hop, Hbj.
      replace (brightness + sgn * (BRIGHTNESS_STEP * j) + sgn * k)
        with (brightness + sgn * (BRIGHTNESS_STEP * j + k)) by lia.
      apply Hb. unfold BRIGHTNESS_STEP in *. nia. }
    intros ?. apply triple_ret. auto.
  - apply triple_ret. intros st [H _]. exact H.
Qed.

End Within.

(** The ramp never overshoots: in every environment, whether the call
    returns, is cancelled or fails on a write, every value it writes lies
    between the value the device file had and the target. *)
Theorem ramp_never_overshoots (E : env) (percent : pyval) (st : ctl) (target : Z) :
  percent_to_internal (brightness_max st) percent = Ok target ->
  Z.abs (target - device st) < 2 ^ 52 ->
  within (written st) (Z.min (device st) target) (Z.max (device st) target)
         (snd (set_brightness E percent st)).
Proof.
  intros Ht Hd. rewrite set_brightness_eq, Ht.
  set (lo := Z.min (device st) target). set (hi := Z.max (device st) target).
  assert (H0 : within (written st) lo hi (started st)).
  { exists []. split; [symmetry; apply app_nil_r|constructor]. }
  assert (Hrun : triple (within (written st) lo hi) (ramp_to E target (device st))
                        (fun _ st' => within (written st) lo hi st')
                        (fun _ st' => within (written st) lo hi st')).
  { unfold ramp_to. eapply triple_bind.
    - instantiate (1 := fun _ st' => within (written st) lo hi st').
      destruct (Z.gtb_spec target (device st)).
      + apply (ramp_branch_within E (written st) lo hi Z.add 1); [intros; lia|lia|].
        intros t Hr. unfold lo, hi. lia.
      + apply (ramp_branch_within E (written st) lo hi Z.sub (-1)); [intros; lia|lia|].
        intros t Hr. unfold lo, hi. lia.
    - intros b. cbv beta. eapply triple_bind.
      + instantiate (1 := fun _ st' => within (written st) lo hi st').
        unfold final_correction. destruct (negb (b =? target)).
        * apply write_within. unfold lo, hi. lia.
        * apply triple_ret. auto.
      + intros ? st' H. exact H. }
  specialize (Hrun (started st) H0).
  destruct (ramp_to E target (device st) (started st)) as [[u|e] st']; exact Hrun.
Qed.

Lemma ramp_never_overshoots_witness :
  within (written (init 1000 0)) (Z.min (device (init 1000 0)) 1000)
         (Z.max (device (init 1000 0)) 1000)
         (snd (set_brightness (cancelled_at 2) (Num (Int 100)) (init 1000 0))).
Proof.
  apply (ramp_never_overshoots (cancelled_at 2) (Num (Int 100)) (init 1000 0) 1000).
  - vm_compute. reflexivity.
  - vm_compute. reflexivity.
Defined.

(** *** A request read back *)

Lemma set_brightness_runs (E : env) (percent : pyval) (st : ctl) (target : Z) :
  undisturbed E -> reliable E -> valid_raw st ->
  percent_to_internal (brightness_max st) percent = Ok target ->
  exists st',
    set_brightness E percent st = (Ok tt, st') /\
    device st' = target /\ brightness_max st' = brightness_max st.
Proof.
  intros Hf Hw [Hr0 Hr1] Ht.
  destruct (Binary64Facts.percent_to_internal_bound _ _ _ Ht) as [Hb1 Hb2].
  assert (Hd : Z.abs (target - device st) < 2 ^ 1026).
  { change (2 ^ 1026) with (4 * 2 ^ 1024). lia. }
  destruct (triple_run _ _ _ (started st)
              (ramp_to_converges E (written st) target (device st) Hf Hw Hd))
    as [[] [st' [Hrun _]]].
  { split; [reflexivity|]. exists []. cbn. rewrite app_nil_r. reflexivity. }
  exists st'. rewrite set_brightness_eq, Ht. split; [exact Hrun|].
  pose proof (ramp_to_settled E (written st) (brightness_max st) target
                (device st) (started st)) as H.
  rewrite Hrun in H.
  destruct H as [[Hdev [Hmax _]] _].
  { split; [reflexivity|]. split; [reflexivity|].
    exists []. split; [symmetry; apply app_nil_r|]. left. reflexivity. }
  split; assumption.
Qed.

Lemma validate_int (z : Z) :
  validate_and_sanitize_brightness_value (Num (Int z)) =
  Ok (Int (Z.max 1 (Z.min z 100))).
Proof.
  cbn [validate_and_sanitize_brightness_value].
  destruct (Z.ltb_spec z 1).
  - f_equal. f_equal. lia.
  - destruct (Z.gtb_spec z 100); f_equal; f_equal; lia.
Qed.

(** The percentage read back after a request is never above the one
    requested: after [set_brightness(z)] with an integer [z], completed
    without cancellation or write error, [get_current_brightness_percentage]
    returns at most [z] clamped to 1..100 (the conversions truncate, so it
    may be less), for a bound [0 < max_brightness <= 2^53]. *)
Theorem reported_percentage_at_most_requested (E : env) (z : Z) (st : ctl) :
  undisturbed E -> reliable E -> valid_raw st ->
  0 < brightness_max st <= 2 ^ 53 ->
  exists st' pct,
    set_brightness E (Num (Int z)) st = (Ok tt, st') /\
    get_current_brightness_percentage 0 st' = (Ok pct, st') /\
    0 <= pct <= Z.max 1 (Z.min z 100).
Proof.
  intros Hf Hw Hraw Hmax.
  set (z' := Z.max 1 (Z.min z 100)).
  destruct (Binary64Facts.percent_round_trip (brightness_max st) z' Hmax
              ltac:(unfold z'; lia)) as [t [pct [Ht [Htr [Hp Hpr]]]]].
  assert (Ht' : percent_to_internal (brightness_max st) (Num (Int z)) = Ok t).
  { rewrite (Binary64Facts.percent_to_internal_validated _ (Int z) (Int z')
               (validate_int z)); [exact Ht|].
    cbn. unfold z'. lia. }
  destruct (set_brightness_runs E (Num (Int z)) st t Hf Hw Hraw Ht')
    as [st' [Hrun [Hdev Hmax']]].
  exists st', pct. split; [exact Hrun|]. split; [|exact Hpr].
  unfold get_current_brightness_percentage, max_brightness, bind, lift,
    brightness_current.
  cbn [Z.gtb Z.compare]. rewrite Hdev, Hmax', Hp. reflexivity.
Qed.

Lemma reported_percentage_at_most_requested_witness :
  exists st' pct,
    set_brightness quiet (Num (Int 29)) (init 100 50) = (Ok tt, st') /\
    get_current_brightness_percentage 0 st' = (Ok pct, st') /\
    0 <= pct <= Z.max 1 (Z.min 29 100).
Proof.
  apply (reported_percentage_at_most_requested quiet 29 (init 100 50)).
  - intros n. reflexivity.
  - intros n. reflexivity.
  - unfold valid_raw. cbn. lia.
  - cbn. lia.
Defined.

(** With a bound of 100, a request for 29 percent is read back as 28. *)
Example request_29_reads_28 :
  exists st',
    set_brightness quiet (Num (Int 29)) (init 100 50) = (Ok tt, st') /\
    get_current_brightness_percentage 0 st' = (Ok 28, st').
Proof. eexists. split; vm_compute; reflexivity. Qed.

End ControlFacts.

(** * The watcher: de-duplication and attribution *)

Module WatcherFacts.

Import BrightnessControl.

Module SBC := ScreenBrightnessComponent.

(** An observation equal to the last published value changes nothing. *)
Lemma publish_duplicate (v : Z) (s : SBC.session) :
  v = SBC._last_value s -> SBC.publish_brightness_changed v s = (Ok tt, s).
Proof.
  intros ->. unfold SBC.publish_brightness_changed.
  rewrite Z.eqb_refl. reflexivity.
Qed.

(** An observation of a new valid value publishes one notification, with the
    publisher recorded before the observation, and records the value. *)
Lemma publish_new (v : Z) (s : SBC.session) :
  0 < brightness_max (SBC.controller s) ->
  0 <= v <= brightness_max (SBC.controller s) ->
  v <> SBC._last_value s ->
  exists pct s',
    internal_to_percent (brightness_max (SBC.controller s)) v = Ok pct /\
    SBC.publish_brightness_changed v s = (Ok tt, s') /\
    SBC.published s' =
      SBC.published s ++ [SBC.mk_notification pct (SBC._publisher_id s)] /\
    SBC._last_value s' = v /\
    SBC.controller s' = SBC.controller s /\
    SBC._requested_value_internal s' = SBC._requested_value_internal s /\
    SBC._publisher_id s' =
      (if v =? SBC._requested_value_internal s then None
       else SBC._publisher_id s).
Proof.
  intros Hmax Hv Hne.
  destruct (Binary64Facts.internal_to_percent_ok _ v Hmax Hv) as [pct [Hp _]].
  unfold SBC.publish_brightness_changed.
  destruct (Z.eqb_spec v (SBC._last_value s)) as [Heq|_]; [contradiction|].
  rewrite Hp. exists pct. eexists. split; [reflexivity|].
  split; [reflexivity|].
  cbn [SBC.publish SBC._requested_value_internal].
  destruct (v =? SBC._requested_value_internal s); cbn; repeat split; reflexivity.
Qed.

(** A run of the handler over valid observations raises nothing and
    publishes once per change of value. *)
Lemma observe_counts (values : list Z) : forall s : SBC.session,
  0 < brightness_max (SBC.controller s) ->
  Forall (fun v => 0 <= v <= brightness_max (SBC.controller s)) values ->
  exists s',
    SBC.observe values s = (Ok tt, s') /\
    List.length (SBC.published s') =
      (List.length (SBC.published s) + SBC.changes (SBC._last_value s) values)%nat /\
    SBC.controller s' = SBC.controller s.
Proof.
  induction values as [|v rest IH]; intros s Hmax Hall.
  - exists s. cbn. repeat split; lia.
  - inversion Hall as [|? ? Hv Hrest]; subst.
    cbn [SBC.observe SBC.changes].
    destruct (Z.eqb_spec v (SBC._last_value s)) as [Heq|Hne].
    + rewrite (publish_duplicate v s Heq).
      destruct (IH s Hmax Hrest) as [s' [H1 [H2 H3]]].
      exists s'. rewrite <- Heq in H2. repeat split; try assumption.
    + destruct (publish_new v s Hmax Hv Hne)
        as [pct [s1 [_ [Hrun [Hpub [Hlast [Hctl _]]]]]]].
      rewrite Hrun.
      assert (Hmax1 : 0 < brightness_max (SBC.controller s1))
        by (rewrite Hctl; exact Hmax).
      assert (Hrest1 : Forall (fun v => 0 <= v <= brightness_max (SBC.controller s1)) rest)
        by (rewrite Hctl; exact Hrest).
      destruct (IH s1 Hmax1 Hrest1) as [s' [H1 [H2 H3]]].
      exists s'. split; [exact H1|]. split; [|congruence].
      rewrite H2, Hpub, Hlast, List.length_app. cbn. lia.
Qed.

(** An observation of the requested value that is new to the watcher resets
    the publisher, and a later change is then published without one. *)
Lemma fresh_target_resets_publisher (s : SBC.session) (v w : Z) :
  0 < brightness_max (SBC.controller s) ->
  0 <= v <= brightness_max (SBC.controller s) ->
  0 <= w <= brightness_max (SBC.controller s) ->
  v <> SBC._last_value s ->
  v = SBC._requested_value_internal s ->
  w <> v ->
  exists pv pw s',
    SBC.observe [v; w] s = (Ok tt, s') /\
    SBC.published s' =
      SBC.published s ++ [SBC.mk_notification pv (SBC._publisher_id s);
                          SBC.mk_notification pw None].
Proof.
  intros Hmax Hv Hw Hne Hreq Hwv.
  destruct (publish_new v s Hmax Hv Hne)
    as [pv [s1 [_ [Hrun [Hpub [Hlast [Hctl [_ Hid]]]]]]]].
  rewrite Hreq, Z.eqb_refl in Hid.
  assert (Hmax1 : 0 < brightness_max (SBC.controller s1)) by (rewrite Hctl; exact Hmax).
  assert (Hw1 : 0 <= w <= brightness_max (SBC.controller s1)) by (rewrite Hctl; exact Hw).
  assert (Hne1 : w <> SBC._last_value s1) by (rewrite Hlast; exact Hwv).
  destruct (publish_new w s1 Hmax1 Hw1 Hne1)
    as [pw [s2 [_ [Hrun2 [Hpub2 _]]]]].
  exists pv, pw, s2. cbn [SBC.observe]. rewrite Hrun, Hrun2.
  split; [reflexivity|].
  rewrite Hpub2, Hpub, Hid, <- app_assoc. reflexivity.
Qed.

(** C4: over valid raw values the watcher publishes once per change of
    value: an observation equal to the last published one is suppressed,
    the same new value observed twice is published once, and from the
    initial state, whose last value is -1, the first observation is
    published. *)
Theorem watcher_dedup (c : ctl) (values : list Z) :
  0 < brightness_max c ->
  Forall (fun v => 0 <= v <= brightness_max c) values ->
  (forall s, SBC.controller s = c ->
     exists s',
       SBC.observe values s = (Ok tt, s') /\
       List.length (SBC.published s') =
         (List.length (SBC.published s) +
          SBC.changes (SBC._last_value s) values)%nat) /\
  (forall s v, SBC.controller s = c ->
     0 <= v <= brightness_max c -> v <> SBC._last_value s ->
     exists s',
       SBC.observe [v; v] s = (Ok tt, s') /\
       List.length (SBC.published s') = S (List.length (SBC.published s))) /\
  (forall v, 0 <= v <= brightness_max c ->
     exists pct s',
       SBC.publish_brightness_changed v (SBC.init c) = (Ok tt, s') /\
       SBC.published s' = [SBC.mk_notification pct None]).
Proof.
  intros Hmax Hall. split; [|split].
  - intros s Hc. subst c.
    destruct (observe_counts values s Hmax Hall) as [s' [H1 [H2 _]]].
    exists s'. split; assumption.
  - intros s v Hc Hv Hne. subst c.
    assert (Hvv : Forall (fun v => 0 <= v <= brightness_max (SBC.controller s)) [v; v])
      by (repeat constructor; lia).
    destruct (observe_counts [v; v] s Hmax Hvv) as [s' [H1 [H2 _]]].
    exists s'. split; [exact H1|]. rewrite H2. cbn [SBC.changes].
    destruct (Z.eqb_spec v (SBC._last_value s)); [contradiction|].
    rewrite Z.eqb_refl. lia.
  - intros v Hv.
    assert (Hne : v <> SBC._last_value (SBC.init c)) by (cbn; lia).
    destruct (publish_new v (SBC.init c) Hmax Hv Hne)
      as [pct [s' [_ [Hrun [Hpub _]]]]].
    exists pct, s'. split; [exact Hrun|exact Hpub].
Qed.

Lemma watcher_dedup_witness :
  (forall s, SBC.controller s = init 1000 500 ->
     exists s',
       SBC.observe [500; 500; 600] s = (Ok tt, s') /\
       List.length (SBC.published s') =
         (List.length (SBC.published s) +
          SBC.changes (SBC._last_value s) [500; 500; 600]%Z)%nat) /\
  (forall s v, SBC.controller s = init 1000 500 ->
     0 <= v <= brightness_max (init 1000 500) -> v <> SBC._last_value s ->
     exists s',
       SBC.observe [v; v] s = (Ok tt, s') /\
       List.length (SBC.published s') = S (List.length (SBC.published s))) /\
  (forall v, 0 <= v <= brightness_max (init 1000 500) ->
     exists pct s',
       SBC.publish_brightness_changed v (SBC.init (init 1000 500)) = (Ok tt, s') /\
       SBC.published s' = [SBC.mk_notification pct None]).
Proof.
  apply (watcher_dedup (init 1000 500) [500; 500; 600]).
  - cbn. lia.
  - repeat constructor; cbn; lia.
Defined.

Example dedup_run :
  SBC.observe [500; 500; 600] (SBC.init (init 1000 500)) =
  (Ok tt, SBC.mk_session (init 1000 500) None (-1) false 600
            [SBC.mk_notification 50 None; SBC.mk_notification 60 None]).
Proof. vm_compute. reflexivity. Qed.

(** C10: an observation equal to the last published value returns at once:
    the whole session, publications included, is as before, and a publisher
    recorded for a request whose target is that value stays recorded. *)
Theorem duplicate_observation_changes_nothing (s : SBC.session) (v : Z) :
  v = SBC._last_value s ->
  SBC.publish_brightness_changed v s = (Ok tt, s) /\
  (forall a, SBC._publisher_id s = Some a ->
     v = SBC._requested_value_internal s ->
     SBC._publisher_id (snd (SBC.publish_brightness_changed v s)) = Some a).
Proof.
  intros Hv. pose proof (publish_duplicate v s Hv) as H. split; [exact H|].
  intros a Ha _. rewrite H. exact Ha.
Qed.

Lemma duplicate_observation_changes_nothing_witness :
  SBC.publish_brightness_changed 500 SBC.requested_current_value =
    (Ok tt, SBC.requested_current_value) /\
  (forall a, SBC._publisher_id SBC.requested_current_value = Some a ->
     500 = SBC._requested_value_internal SBC.requested_current_value ->
     SBC._publisher_id
       (snd (SBC.publish_brightness_changed 500 SBC.requested_current_value)) =
     Some a).
Proof.
  apply (duplicate_observation_changes_nothing SBC.requested_current_value 500).
  vm_compute. reflexivity.
Defined.

(** C5: the reset of the publisher is skipped when the requested value is
    the one last published.  After [set_brightness(50, "A")] on a device
    already at raw 500 the call writes 500; the observation of 500 is
    dropped as a duplicate, the publisher stays recorded, and a later change
    to 600 made by nobody is published with publisher "A". *)
Theorem duplicate_target_keeps_publisher :
  written (SBC.controller SBC.requested_current_value) = [500] /\
  device (SBC.controller SBC.requested_current_value) = 500 /\
  SBC._requested_value_internal SBC.requested_current_value = 500 /\
  SBC.observe [500; 600] SBC.requested_current_value =
  (Ok tt,
   SBC.mk_session (SBC.controller SBC.requested_current_value)
     (Some "A"%string) 500 false 600
     [SBC.mk_notification 50 None; SBC.mk_notification 60 (Some "A"%string)]).
Proof. vm_compute. repeat split; reflexivity. Qed.

(** *** What a run of the handler publishes *)

(** One call of the handler: it returns at once, or raises, with the session
    as it was, or it publishes one notification under the recorded
    publisher, which it keeps or resets. *)
Lemma publish_step (v : Z) (s : SBC.session) :
  snd (SBC.publish_brightness_changed v s) = s \/
  exists pct,
    fst (SBC.publish_brightness_changed v s) = Ok tt /\
    v <> SBC._last_value s /\
    internal_to_percent (brightness_max (SBC.controller s)) v = Ok pct /\
    SBC.published (snd (SBC.publish_brightness_changed v s)) =
      SBC.published s ++ [SBC.mk_notification pct (SBC._publisher_id s)] /\
    SBC._last_value (snd (SBC.publish_brightness_changed v s)) = v /\
    SBC.controller (snd (SBC.publish_brightness_changed v s)) = SBC.controller s /\
    SBC._requested_value_internal (snd (SBC.publish_brightness_changed v s)) =
      SBC._requested_value_internal s /\
    SBC._publisher_id (snd (SBC.publish_brightness_changed v s)) =
      (if v =? SBC._requested_value_internal s then None
       else SBC._publisher_id s).
Proof.
  unfold SBC.publish_brightness_changed.
  destruct (Z.eqb_spec v (SBC._last_value s)) as [Heq|Hne]; [left; reflexivity|].
  destruct (internal_to_percent (brightness_max (SBC.controller s)) v) as [pct|e];
    [|left; reflexivity].
  right. exists pct. split; [reflexivity|]. split; [exact Hne|].
  split; [reflexivity|].
  cbn [SBC.publish SBC._requested_value_internal snd].
  destruct (v =? SBC._requested_value_internal s); cbn; repeat split; reflexivity.
Qed.

Lemma observe_cons (v : Z) (rest : list Z) (s : SBC.session) :
  SBC.observe (v :: rest) s =
  match fst (SBC.publish_brightness_changed v s) with
  | Ok _ => SBC.observe rest (snd (SBC.publish_brightness_changed v s))
  | Raise e => (Raise e, snd (SBC.publish_brightness_changed v s))
  end.
Proof.
  cbn [SBC.observe].
  destruct (SBC.publish_brightness_changed v s) as [[u|e] s']; reflexivity.
Qed.

(** The watcher attributes, it never invents a publisher: in any run of the
    handler, on any observations, the notifications it adds carry the
    publisher recorded at the start up to some point and no publisher from
    there on, and the publisher recorded at the end is the one at the start
    or none.  The controller and the recorded target are not changed. *)
Theorem observe_attribution (values : list Z) : forall s : SBC.session,
  SBC.controller (snd (SBC.observe values s)) = SBC.controller s /\
  SBC._requested_value_internal (snd (SBC.observe values s)) =
    SBC._requested_value_internal s /\
  exists attributed unattributed,
    SBC.published (snd (SBC.observe values s)) =
      SBC.published s ++ attributed ++ unattributed /\
    Forall (fun n => SBC.publisher_id n = SBC._publisher_id s) attributed /\
    Forall (fun n => SBC.publisher_id n = None) unattributed /\
    ((SBC._publisher_id (snd (SBC.observe values s)) = SBC._publisher_id s /\
      unattributed = []) \/
     SBC._publisher_id (snd (SBC.observe values s)) = None).
Proof.
  induction values as [|v rest IH]; intros s.
  - cbn [SBC.observe snd]. split; [reflexivity|]. split; [reflexivity|].
    exists [], []. rewrite app_nil_r. repeat split; auto.
  - rewrite observe_cons.
    destruct (publish_step v s) as [Hsame|[pct [Hok [_ [_ [Hpub [_ [Hctl [Hreq Hid]]]]]]]]].
    + rewrite Hsame.
      destruct (fst (SBC.publish_brightness_changed v s)); [apply IH|].
      cbn [snd]. split; [reflexivity|]. split; [reflexivity|].
      exists [], []. rewrite app_nil_r. repeat split; auto.
    + rewrite Hok.
      set (s1 := snd (SBC.publish_brightness_changed v s)) in *.
      destruct (IH s1) as [Hc [Hr [att [unatt [Hp [Ha [Hu Hend]]]]]]].
      split; [congruence|]. split; [congruence|].
      destruct (v =? SBC._requested_value_internal s).
      * exists [SBC.mk_notification pct (SBC._publisher_id s)], (att ++ unatt).
        split; [rewrite Hp, Hpub, <- !app_assoc; reflexivity|].
        split; [repeat constructor|].
        split.
        { apply Forall_app. split; [|exact Hu].
          rewrite Hid in Ha. exact Ha. }
        right. destruct Hend as [[He _]|He]; [rewrite He; exact Hid|exact He].
      * exists (SBC.mk_notification pct (SBC._publisher_id s) :: att), unatt.
        split; [rewrite Hp, Hpub, <- !app_assoc; reflexivity|].
        split; [constructor; [reflexivity|rewrite Hid in Ha; exact Ha]|].
        split; [exact Hu|].
        destruct Hend as [[He Hn]|He]; [left; split; [congruence|exact Hn]|right; exact He].
Qed.

Lemma last_cons (rest : list Z) : forall v d : Z,
  List.last (v :: rest) d = List.last rest v.
Proof.
  induction rest as [|w rest IH]; intros v d; [reflexivity|].
  change (List.last (v :: w :: rest) d) with (List.last (w :: rest) d).
  rewrite (IH w d), (IH w v). reflexivity.
Qed.

(** Over raw values between 0 and [max_brightness > 0] a run of the handler
    raises nothing and publishes, in order, one notification for each
    observation that differs from the one before it; its percentage is that
    of the observation and lies between 0 and 100.  The last observation, if
    any, is the one recorded at the end. *)
Theorem observe_publishes_distinct (values : list Z) : forall s : SBC.session,
  0 < brightness_max (SBC.controller s) ->
  Forall (fun v => 0 <= v <= brightness_max (SBC.controller s)) values ->
  exists s' new,
    SBC.observe values s = (Ok tt, s') /\
    SBC.published s' = SBC.published s ++ new /\
    Forall2 (fun n v =>
               internal_to_percent (brightness_max (SBC.controller s)) v =
                 Ok (SBC.percentage n) /\
               0 <= SBC.percentage n <= 100)
            new (SBC.distinct_from (SBC._last_value s) values) /\
    SBC._last_value s' = List.last values (SBC._last_value s).
Proof.
  induction values as [|v rest IH]; intros s Hmax Hall.
  - exists s, []. cbn. rewrite app_nil_r. repeat split; constructor.
  - inversion Hall as [|? ? Hv Hrest]; subst.
    rewrite last_cons. cbn [SBC.observe SBC.distinct_from].
    destruct (Z.eqb_spec v (SBC._last_value s)) as [Heq|Hne].
    + rewrite (publish_duplicate v s Heq).
      destruct (IH s Hmax Hrest) as [s' [new [H1 [H2 [H3 H4]]]]].
      exists s', new. rewrite Heq. repeat split; assumption.
    + destruct (publish_new v s Hmax Hv Hne)
        as [pct [s1 [Hpct [Hrun [Hpub [Hlv [Hctl _]]]]]]].
      rewrite Hrun.
      assert (Hmax1 : 0 < brightness_max (SBC.controller s1))
        by (rewrite Hctl; exact Hmax).
      assert (Hrest1 : Forall (fun v => 0 <= v <= brightness_max (SBC.controller s1)) rest)
        by (rewrite Hctl; exact Hrest).
      destruct (IH s1 Hmax1 Hrest1) as [s' [new [H1 [H2 [H3 H4]]]]].
      exists s', (SBC.mk_notification pct (SBC._publisher_id s) :: new).
      split; [exact H1|].
      split; [rewrite H2, Hpub, <- app_assoc; reflexivity|].
      split.
      * constructor.
        { cbn [SBC.percentage]. split; [exact Hpct|].
          destruct (Binary64Facts.internal_to_percent_range _ v Hmax Hv)
            as [p [Hp [Hr _]]].
          rewrite Hpct in Hp. injection Hp as ->. exact Hr. }
        rewrite Hctl, Hlv in H3. exact H3.
      * rewrite H4, Hlv. reflexivity.
Qed.

Lemma observe_publishes_distinct_witness :
  exists s' new,
    SBC.observe [500; 500; 600] (SBC.init (init 1000 500)) = (Ok tt, s') /\
    SBC.published s' = SBC.published (SBC.init (init 1000 500)) ++ new /\
    Forall2 (fun n v =>
               internal_to_percent
                 (brightness_max (SBC.controller (SBC.init (init 1000 500)))) v =
                 Ok (SBC.percentage n) /\
               0 <= SBC.percentage n <= 100)
            new
            (SBC.distinct_from (SBC._last_value (SBC.init (init 1000 500)))
               [500; 500; 600]) /\
    SBC._last_value s' =
      List.last [500; 500; 600] (SBC._last_value (SBC.init (init 1000 500))).
Proof.
  apply (observe_publishes_distinct [500; 500; 600] (SBC.init (init 1000 500))).
  - cbn. lia.
  - repeat constructor; cbn; lia.
Defined.

(** *** Requests *)

(** [actually_set_brightness] records the publisher before it validates the
    percentage: a request with a value that is neither an [int] nor a
    [float] raises [AssertionError] and writes nothing, but the session now
    holds its publisher, and the next change the watcher sees is published
    under it. *)
Theorem rejected_request_replaces_publisher (E : env) (value : pyval)
    (a : option string) (s : SBC.session) (w : Z) :
  is_numeric value = false ->
  SBC.set_brightness E value a s =
    (Raise AssertionError, SBC.with_publisher_id a s) /\
  (0 < brightness_max (SBC.controller s) ->
   0 <= w <= brightness_max (SBC.controller s) ->
   w <> SBC._last_value s ->
   exists pct s',
     SBC.publish_brightness_changed w (SBC.with_publisher_id a s) = (Ok tt, s') /\
     SBC.published s' = SBC.published s ++ [SBC.mk_notification pct a]).
Proof.
  intros Hv. split.
  - unfold SBC.set_brightness, percent_to_internal.
    destruct value as [n| |]; [discriminate| |]; reflexivity.
  - intros Hmax Hw Hne.
    destruct (publish_new w (SBC.with_publisher_id a s) Hmax Hw Hne)
      as [pct [s' [_ [Hrun [Hpub _]]]]].
    exists pct, s'. split; [exact Hrun|exact Hpub].
Qed.

Lemma rejected_request_replaces_publisher_witness :
  SBC.set_brightness quiet (Str "50") (Some "A"%string) (SBC.init (init 1000 500)) =
    (Raise AssertionError,
     SBC.with_publisher_id (Some "A"%string) (SBC.init (init 1000 500))) /\
  (0 < brightness_max (SBC.controller (SBC.init (init 1000 500))) ->
   0 <= 600 <= brightness_max (SBC.controller (SBC.init (init 1000 500))) ->
   600 <> SBC._last_value (SBC.init (init 1000 500)) ->
   exists pct s',
     SBC.publish_brightness_changed 600
       (SBC.with_publisher_id (Some "A"%string) (SBC.init (init 1000 500))) =
       (Ok tt, s') /\
     SBC.published s' =
       SBC.published (SBC.init (init 1000 500)) ++
       [SBC.mk_notification pct (Some "A"%string)]).
Proof.
  apply (rejected_request_replaces_publisher quiet (Str "50") (Some "A"%string)
           (SBC.init (init 1000 500)) 600).
  reflexivity.
Defined.

Lemma controller_run (E : env) (percent : pyval) (st : ctl) (target : Z) :
  undisturbed E -> reliable E -> valid_raw st ->
  percent_to_internal (brightness_max st) percent = Ok target ->
  exists st',
    BrightnessControl.set_brightness E percent st = (Ok tt, st') /\
    device st' = target /\ brightness_max st' = brightness_max st.
Proof.
  intros Hf Hw [Hr0 Hr1] Ht.
  destruct (Binary64Facts.percent_to_internal_bound _ _ _ Ht) as [Hb1 Hb2].
  assert (Hd : Z.abs (target - device st) < 2 ^ 1026).
  { change (2 ^ 1026) with (4 * 2 ^ 1024). lia. }
  destruct (ControlFacts.triple_run _ _ _ (started st)
              (ControlFacts.ramp_to_converges E (written st) target (device st) Hf Hw Hd))
    as [[] [st' [Hrun _]]].
  { split; [reflexivity|]. exists []. cbn. rewrite app_nil_r. reflexivity. }
  exists st'. rewrite ControlFacts.set_brightness_eq, Ht. split; [exact Hrun|].
  pose proof (ControlFacts.ramp_to_settled E (written st) (brightness_max st) target
                (device st) (started st)) as H.
  rewrite Hrun in H.
  destruct H as [[Hdev [Hmax _]] _].
  { split; [reflexivity|]. split; [reflexivity|].
    exists []. split; [symmetry; apply app_nil_r|]. left. reflexivity. }
  split; assumption.
Qed.

(** A request that runs to its end, neither cancelled nor failing, for any
    number but NaN: the session records the caller and the target, the
    controller brings the device file to the target, and when the watcher
    then sees the target, and it is not the value it published last, it
    publishes it under the caller and resets the publisher. *)
Theorem request_then_observation (E : env) (n : number) (a : option string)
    (s : SBC.session) :
  undisturbed E -> reliable E -> valid_raw (SBC.controller s) ->
  0 < brightness_max (SBC.controller s) <= 2 ^ 53 ->
  Binary64.not_nan n ->
  exists target s1,
    percent_to_internal (brightness_max (SBC.controller s)) (Num n) = Ok target /\
    SBC.set_brightness E (Num n) a s = (Ok tt, s1) /\
    device (SBC.controller s1) = target /\
    SBC._requested_value_internal s1 = target /\
    SBC._publisher_id s1 = a /\
    SBC.published s1 = SBC.published s /\
    (target <> SBC._last_value s ->
     exists pct s2,
       SBC.publish_brightness_changed target s1 = (Ok tt, s2) /\
       SBC.published s2 = SBC.published s ++ [SBC.mk_notification pct a] /\
       SBC._publisher_id s2 = None).
Proof.
  intros Hf Hw Hraw Hmax Hn.
  destruct (Binary64Facts.percent_to_internal_total _ n Hmax Hn) as [target [Ht Hrange]].
  destruct (controller_run E (Num n) (SBC.controller s) target Hf Hw Hraw Ht)
    as [c' [Hrun [Hdev Hmax']]].
  exists target.
  exists (SBC.with_controller c'
            (SBC.with_requested_value_internal target (SBC.with_publisher_id a s))).
  split; [exact Ht|]. split.
  { unfold SBC.set_brightness. cbv zeta.
    change (SBC.controller (SBC.with_publisher_id a s)) with (SBC.controller s).
    rewrite Ht.
    change (SBC.controller
              (SBC.with_requested_value_internal target (SBC.with_publisher_id a s)))
      with (SBC.controller s).
    rewrite Hrun. reflexivity. }
  split; [exact Hdev|]. split; [reflexivity|]. split; [reflexivity|].
  split; [reflexivity|].
  intros Hne.
  set (s1 := SBC.with_controller c'
               (SBC.with_requested_value_internal target (SBC.with_publisher_id a s))).
  assert (Hmax1 : 0 < brightness_max (SBC.controller s1)) by (cbn; lia).
  assert (Hv1 : 0 <= target <= brightness_max (SBC.controller s1)) by (cbn; lia).
  destruct (publish_new target s1 Hmax1 Hv1 Hne)
    as [pct [s2 [_ [Hrun2 [Hpub [_ [_ [_ Hid]]]]]]]].
  exists pct, s2. split; [exact Hrun2|]. split; [exact Hpub|].
  rewrite Hid. cbn. rewrite Z.eqb_refl. reflexivity.
Qed.

Lemma request_then_observation_witness :
  exists target s1,
    percent_to_internal (brightness_max (SBC.controller (SBC.init (init 1000 500))))
      (Num (Int 60)) = Ok target /\
    SBC.set_brightness quiet (Num (Int 60)) (Some "A"%string)
      (SBC.init (init 1000 500)) = (Ok tt, s1) /\
    device (SBC.controller s1) = target /\
    SBC._requested_value_internal s1 = target /\
    SBC._publisher_id s1 = Some "A"%string /\
    SBC.published s1 = SBC.published (SBC.init (init 1000 500)) /\
    (target <> SBC._last_value (SBC.init (init 1000 500)) ->
     exists pct s2,
       SBC.publish_brightness_changed target s1 = (Ok tt, s2) /\
       SBC.published s2 =
         SBC.published (SBC.init (init 1000 500)) ++
         [SBC.mk_notification pct (Some "A"%string)] /\
       SBC._publisher_id s2 = None).
Proof.
  apply (request_then_observation quiet (Int 60) (Some "A"%string)
           (SBC.init (init 1000 500))).
  - intros k. reflexivity.
  - intros k. reflexivity.
  - unfold valid_raw. cbn. lia.
  - cbn. lia.
  - exact I.
Defined.

(** *** A bound of zero *)

(** When [max_brightness] is 0 the division by it raises
    [ZeroDivisionError]: [get_current_brightness_percentage] raises it for
    every argument, and the watcher raises it on every observation that
    differs from the last published one, without publishing or recording
    the value, so that the next observation raises again. *)
Theorem zero_max_raises (s : SBC.session) (raw v : Z) :
  brightness_max (SBC.controller s) = 0 ->
  get_current_brightness_percentage raw (SBC.controller s) =
    (Raise ZeroDivisionError, SBC.controller s) /\
  (v <> SBC._last_value s ->
   SBC.publish_brightness_changed v s = (Raise ZeroDivisionError, s)).
Proof.
  intros Hmax. split.
  - unfold get_current_brightness_percentage, max_brightness, bind, lift,
      brightness_current, internal_to_percent, PyNum.truediv_int.
    rewrite Hmax. destruct (raw >? 0); reflexivity.
  - intros Hne. unfold SBC.publish_brightness_changed.
    destruct (Z.eqb_spec v (SBC._last_value s)) as [Heq|_]; [contradiction|].
    unfold internal_to_percent, PyNum.truediv_int. rewrite Hmax. reflexivity.
Qed.

Lemma zero_max_raises_witness :
  get_current_brightness_percentage 0 (SBC.controller (SBC.init (init 0 0))) =
    (Raise ZeroDivisionError, SBC.controller (SBC.init (init 0 0))) /\
  (0 <> SBC._last_value (SBC.init (init 0 0)) ->
   SBC.publish_brightness_changed 0 (SBC.init (init 0 0)) =
     (Raise ZeroDivisionError, SBC.init (init 0 0))).
Proof.
  apply (zero_max_raises (SBC.init (init 0 0)) 0 0). reflexivity.
Defined.

End WatcherFacts.

(** * The device files as text *)

Module DeviceFileFacts.

Import BrightnessControl DeviceFile.

Lemma lstrip_spaces (lead t : text) :
  spaces lead -> lstrip (lead ++ t) = lstrip t.
Proof.
  induction 1 as [|c lead Hc _ IH]; [reflexivity|].
  cbn [app lstrip]. rewrite Hc. exact IH.
Qed.

Lemma lstrip_no_space (t : text) : no_space t -> lstrip t = t.
Proof.
  destruct 1 as [|c r Hc _]; [reflexivity|]. cbn [lstrip]. rewrite Hc. reflexivity.
Qed.

Lemma lstrip_no_space_app (core trail : text) :
  core <> [] -> no_space core -> lstrip (core ++ trail) = core ++ trail.
Proof.
  intros Hne Hcore. destruct Hcore as [|c r Hc _]; [contradiction|].
  cbn [app lstrip]. rewrite Hc. reflexivity.
Qed.

Lemma strip_padded (lead core trail : text) :
  spaces lead -> spaces trail -> core <> [] -> no_space core ->
  strip (lead ++ core ++ trail) = core.
Proof.
  intros Hl Ht Hne Hcore. unfold strip.
  rewrite (lstrip_spaces lead _ Hl), (lstrip_no_space_app core trail Hne Hcore).
  rewrite rev_app_distr, (lstrip_spaces (rev trail)) by (apply Forall_rev; exact Ht).
  rewrite lstrip_no_space by (apply Forall_rev; exact Hcore).
  apply rev_involutive.
Qed.

Lemma strip_spaces (t : text) : spaces t -> strip t = [].
Proof.
  intros Ht. unfold strip.
  assert (H : lstrip t = []).
  { rewrite <- (app_nil_r t). rewrite (lstrip_spaces t [] Ht). reflexivity. }
  rewrite H. reflexivity.
Qed.

Lemma text_of_uint_no_space (u : Decimal.uint) : no_space (text_of_uint u).
Proof.
  induction u; cbn [text_of_uint]; constructor; try reflexivity; assumption.
Qed.

Lemma text_of_uint_nonempty (u : Decimal.uint) :
  u <> Decimal.Nil -> text_of_uint u <> [].
Proof. destruct u; [contradiction|..]; discriminate. Qed.

Lemma digits_text_of_uint (u : Decimal.uint) : forall after_digit,
  digits after_digit (text_of_uint u) =
  match u with
  | Decimal.Nil => if after_digit then Some Decimal.Nil else None
  | _ => Some u
  end.
Proof.
  induction u as [|u IH|u IH|u IH|u IH|u IH|u IH|u IH|u IH|u IH|u IH];
    intros after_digit; cbn [text_of_uint digits]; [reflexivity|..];
    rewrite (IH true); destruct u; reflexivity.
Qed.

Lemma to_int_digits (value : Z) :
  match Z.to_int value with
  | Decimal.Pos u | Decimal.Neg u => u <> Decimal.Nil
  end.
Proof.
  destruct value as [|p|p]; cbn [Z.to_int];
    [discriminate|apply Unsigned.to_uint_nonnil..].
Qed.

Lemma str_no_space (value : Z) : str value <> [] /\ no_space (str value).
Proof.
  unfold str. pose proof (to_int_digits value) as H.
  destruct (Z.to_int value) as [u|u]; split.
  - apply text_of_uint_nonempty. exact H.
  - apply text_of_uint_no_space.
  - discriminate.
  - constructor; [reflexivity|apply text_of_uint_no_space].
Qed.

Lemma strip_str (value : Z) : strip (str value) = str value.
Proof.
  destruct (str_no_space value) as [Hne Hns].
  pose proof (strip_padded [] (str value) [] ltac:(constructor) ltac:(constructor)
                Hne Hns) as H.
  cbn [app] in H. rewrite app_nil_r in H. exact H.
Qed.

Lemma int_of_str (value : Z) : int_of_text (str value) = Ok value.
Proof.
  unfold int_of_text. rewrite strip_str. unfold str.
  pose proof (to_int_digits value) as Hnil.
  pose proof (DecimalZ.of_to value) as Hv.
  destruct (Z.to_int value) as [u|u]; cbn [Z.of_int] in Hv.
  - assert (Hd : digits false (text_of_uint u) = Some u).
    { rewrite digits_text_of_uint. destruct u; [contradiction|..]; reflexivity. }
    destruct u; [contradiction|..]; cbn [text_of_uint] in *; rewrite Hd;
      f_equal; lia.
  - assert (Hd : digits false (text_of_uint u) = Some u).
    { rewrite digits_text_of_uint. destruct u; [contradiction|..]; reflexivity. }
    rewrite Hd. f_equal. lia.
Qed.

Lemma lstrip_keeps (c : char) (t : text) :
  is_space c = false -> In c t -> In c (lstrip t).
Proof.
  intros Hc. induction t as [|a r IH]; intros Hin; [contradiction|].
  cbn [lstrip]. destruct (is_space a) eqn:Ha; [|exact Hin].
  destruct Hin as [->|Hin]; [congruence|]. apply IH. exact Hin.
Qed.

Lemma strip_keeps (c : char) (t : text) :
  is_space c = false -> In c t -> In c (strip t).
Proof.
  intros Hc Hin. unfold strip. apply in_rev. rewrite rev_involutive.
  apply (lstrip_keeps c _ Hc). apply in_rev. rewrite rev_involutive.
  apply (lstrip_keeps c _ Hc). exact Hin.
Qed.

Lemma digits_other (t : text) : forall after_digit,
  In Other t -> digits after_digit t = None.
Proof.
  induction t as [|c r IH]; intros after_digit Hin; [contradiction|].
  destruct Hin as [->|Hin]; [reflexivity|].
  destruct c; cbn [digits]; try reflexivity.
  - rewrite (IH true Hin). reflexivity.
  - destruct after_digit; [apply IH; exact Hin|reflexivity].
Qed.

Lemma int_of_text_other (t : text) :
  In Other (strip t) -> int_of_text t = Raise ValueError.
Proof.
  intros Hin. unfold int_of_text.
  destruct (strip t) as [|c r]; [contradiction|].
  destruct c; try (rewrite (digits_other _ false Hin); reflexivity).
  - destruct Hin as [Heq|Hin]; [discriminate|].
    rewrite (digits_other _ false Hin). reflexivity.
  - destruct Hin as [Heq|Hin]; [discriminate|].
    rewrite (digits_other _ false Hin). reflexivity.
Qed.

(** What [write_brightness_value] writes, [brightness_current] reads back:
    the decimal text of an integer, with any white space around it, such as
    the newline at the end of a sysfs file, is read as that integer. *)
Theorem written_value_read_back (value : Z) (lead trail : text) :
  Z.abs value < 10 ^ 4300 -> spaces lead -> spaces trail ->
  read_int (lead ++ written_text value ++ trail) = Ok value.
Proof.
  intros _ Hl Ht. unfold read_int, written_text.
  destruct (str_no_space value) as [Hne Hns].
  rewrite (strip_padded lead (str value) trail Hl Ht Hne Hns).
  apply int_of_str.
Qed.

Lemma written_value_read_back_witness :
  read_int ([] ++ written_text 2441 ++ [Whitespace]) = Ok 2441.
Proof.
  apply (written_value_read_back 2441 [] [Whitespace]).
  - vm_compute. reflexivity.
  - constructor.
  - repeat constructor.
Defined.

(** A file that does not hold an integer: when it is empty or holds white
    space only, and when it holds any character that is not a digit, a sign,
    an underscore or white space, the read raises [ValueError], and so do
    the constructors of the controller and of the component. *)
Theorem unreadable_file_rejected (content : text) (current : Z) :
  spaces content \/ In Other content ->
  read_int content = Raise ValueError /\
  create (Some content) current = Raise ValueError /\
  create_component (Some content) current = Raise ValueError.
Proof.
  intros H.
  assert (Hr : read_int content = Raise ValueError).
  { unfold read_int. destruct H as [Hs|Ho].
    - rewrite (strip_spaces content Hs). reflexivity.
    - apply int_of_text_other. apply strip_keeps; [reflexivity|].
      apply strip_keeps; [reflexivity|exact Ho]. }
  split; [exact Hr|].
  unfold create_component, create, read_file, has_backlight. cbn [negb].
  rewrite Hr. split; reflexivity.
Qed.

Lemma unreadable_file_rejected_witness :
  read_int [] = Raise ValueError /\
  create (Some []) 0 = Raise ValueError /\
  create_component (Some []) 0 = Raise ValueError.
Proof.
  apply (unreadable_file_rejected [] 0). left. constructor.
Defined.

(** Construction.  With the bound's file holding the decimal text of an
    integer, the component gets a controller with that bound, no change in
    progress, no publisher, and -1 as target and as last value.  Without
    the file the component is constructed with no field set and no error,
    whereas the controller alone raises [OSError]. *)
Theorem component_creation (max_brightness current : Z) (trail : text) :
  Z.abs max_brightness < 10 ^ 4300 -> spaces trail ->
  create_component (Some (written_text max_brightness ++ trail)) current =
    Ok (Some (ScreenBrightnessComponent.mk_session
                (mk_ctl max_brightness false current [] 0 0 0)
                None (-1) false (-1) [])) /\
  create_component None current = Ok None /\
  create None current = Raise OSError.
Proof.
  intros _ Ht. split; [|split; reflexivity].
  unfold create_component, create, read_file, has_backlight. cbn [negb].
  unfold read_int, written_text.
  destruct (str_no_space max_brightness) as [Hne Hns].
  pose proof (strip_padded [] (str max_brightness) trail ltac:(constructor) Ht Hne Hns)
    as Hs.
  cbn [app] in Hs. rewrite Hs, int_of_str. reflexivity.
Qed.

Lemma component_creation_witness :
  create_component (Some (written_text 4882 ++ [Whitespace])) 2441 =
    Ok (Some (ScreenBrightnessComponent.mk_session
                (mk_ctl 4882 false 2441 [] 0 0 0) None (-1) false (-1) [])) /\
  create_component None 2441 = Ok None /\
  create None 2441 = Raise OSError.
Proof.
  apply (component_creation 4882 2441 [Whitespace]).
  - vm_compute. reflexivity.
  - repeat constructor.
Defined.

End DeviceFileFacts.
